(** * cronsim: cron expression parser and forward iterator

    A shallow embedding of [cronsim.py].  Python values are modelled as
    follows.

    - [str] is [string], and the model covers ASCII text only: a [string]
      stands for the Python text of the same characters when [ascii_text]
      holds of it, and for no Python text otherwise.  [Str.isspace],
      [Str.isdigit], [Str.to_int] and [Str.upper] are [str.isspace],
      [str.isdigit], [int] and [str.upper] on such text.  Off ASCII the
      Python methods do more (white space such as U+00A0, digits of other
      scripts, [ValueError] from [int], the case map of other letters);
      none of that is modelled.  A statement about every text therefore
      carries the hypothesis [ascii_text], and the model accepts no other
      text (see [parse_ascii] and [init_ascii]).
    - A Python [set] / [frozenset] of field values is a strictly increasing
      list of [item]s, so that [==] on sets is equality of lists.  A field
      value is either an integer (this includes [CronSim.LAST = 1000]) or
      the pair [(weekday, nth)] built by the [#] syntax.
    - Exceptions are the [Raise] outcome.  Loops that Python runs with
      [while] take a fuel argument and answer [OutOfFuel] when it is used up.
    - A [datetime] keeps its date as the proleptic Gregorian ordinal that
      [date.toordinal()] returns, the representation through which the
      standard library itself adds a [timedelta]; year, month and day are
      read back with [ord2ymd]. *)

From Stdlib Require Import ZArith List Bool Lia Ascii String Sorted.
Import ListNotations.

Local Open Scope string_scope.
Local Open Scope Z_scope.

(** ** Outcomes of a computation *)

Inductive exn : Type :=
| CronSimError (msg : string)
| ValueError
| TypeError
| OverflowError.

Inductive outcome (A : Type) : Type :=
| Ok (a : A)
| Raise (e : exn)
| OutOfFuel.

Arguments Ok {A} a.
Arguments Raise {A} e.
Arguments OutOfFuel {A}.

Definition bind {A B : Type} (m : outcome A) (k : A -> outcome B) : outcome B :=
  match m with
  | Ok a => k a
  | Raise e => Raise e
  | OutOfFuel => OutOfFuel
  end.

Notation "x <- m ;; k" := (bind m (fun x => k))
  (at level 61, m at next level, right associativity).
Notation "' p <- m ;; k" := (bind m (fun p => k))
  (at level 61, p pattern, m at next level, right associativity).

Definition raised {A : Type} (m : outcome A) : Prop := exists e, m = Raise e.

(** ** Strings *)

Module Str.

(** [c in s] *)
Fixpoint contains (c : ascii) (s : string) : bool :=
  match s with
  | EmptyString => false
  | String a t => Ascii.eqb a c || contains c t
  end.

(** [s.split(c)]: every piece between two occurrences of [c], empty
    pieces included; the result is never the empty list. *)
Fixpoint split (c : ascii) (s : string) : list string :=
  match s with
  | EmptyString => [EmptyString]
  | String a t =>
      if Ascii.eqb a c then EmptyString :: split c t
      else match split c t with
           | [] => [String a EmptyString]
           | p :: ps => String a p :: ps
           end
  end.

(** [s.split(c, maxsplit=1)] when [c in s]: the text before the first
    [c] and the text after it.  [None] when [c] does not occur, where the
    two-name unpacking of the source would fail. *)
Fixpoint split1 (c : ascii) (s : string) : option (string * string) :=
  match s with
  | EmptyString => None
  | String a t =>
      if Ascii.eqb a c then Some (EmptyString, t)
      else match split1 c t with
           | None => None
           | Some (l, r) => Some (String a l, r)
           end
  end.

(** [a.isspace()] for a character of ASCII, the white space at which
    [str.split()] cuts an ASCII text: TAB, LF, VT, FF, CR, the separators
    FS, GS, RS, US, and the space.  White space off ASCII (U+0085, U+00A0
    and others) is outside the model. *)
Definition isspace (a : ascii) : bool :=
  let n := nat_of_ascii a in
  ((9 <=? n) && (n <=? 13) || (28 <=? n) && (n <=? 32))%nat.

(** [s.split()], with [cur] the word being read, kept reversed. *)
Fixpoint words_from (cur : list ascii) (s : string) : list string :=
  let flush (rest : list string) :=
    match cur with
    | [] => rest
    | _ => string_of_list_ascii (rev cur) :: rest
    end in
  match s with
  | EmptyString => flush []
  | String a t =>
      if isspace a then flush (words_from [] t)
      else words_from (a :: cur) t
  end.

Definition words (s : string) : list string := words_from [] s.

Definition is_digit (a : ascii) : bool :=
  let n := nat_of_ascii a in ((48 <=? n) && (n <=? 57))%nat.

Fixpoint all_digits (s : string) : bool :=
  match s with
  | EmptyString => true
  | String a t => is_digit a && all_digits t
  end.

(** [s.isdigit()] *)
Definition isdigit (s : string) : bool :=
  match s with
  | EmptyString => false
  | _ => all_digits s
  end.

Fixpoint int_from (acc : Z) (s : string) : Z :=
  match s with
  | EmptyString => acc
  | String a t => int_from (10 * acc + (Z.of_nat (nat_of_ascii a) - 48)) t
  end.

(** [int(s)] on a string of decimal digits *)
Definition to_int (s : string) : Z := int_from 0 s.

Definition upper_char (a : ascii) : ascii :=
  let n := nat_of_ascii a in
  if ((97 <=? n) && (n <=? 122))%nat then ascii_of_nat (n - 32) else a.

(** [s.upper()] *)
Fixpoint upper (s : string) : string :=
  match s with
  | EmptyString => EmptyString
  | String a t => String (upper_char a) (upper t)
  end.

(** [l.index(s)] for [s in l], [None] otherwise *)
Fixpoint index_of (s : string) (l : list string) : option Z :=
  match l with
  | [] => None
  | x :: t =>
      if String.eqb x s then Some 0
      else match index_of s t with
           | None => None
           | Some i => Some (i + 1)
           end
  end.

End Str.

(** ** Field values and sets of them *)

Inductive item : Type :=
| V (n : Z)
| Nth (dow nth : Z).

Definition item_compare (a b : item) : comparison :=
  match a, b with
  | V x, V y => x ?= y
  | V _, Nth _ _ => Lt
  | Nth _ _, V _ => Gt
  | Nth d n, Nth d' n' =>
      match d ?= d' with
      | Eq => n ?= n'
      | c => c
      end
  end.

Definition item_eqb (a b : item) : bool :=
  match item_compare a b with Eq => true | _ => false end.

Definition itemset : Type := list item.

Module ISet.

Definition empty : itemset := [].

(** [x in s] *)
Fixpoint mem (x : item) (s : itemset) : bool :=
  match s with
  | [] => false
  | y :: t => item_eqb x y || mem x t
  end.

(** [s.add(x)] on a strictly increasing list *)
Fixpoint add (x : item) (s : itemset) : itemset :=
  match s with
  | [] => [x]
  | y :: t =>
      match item_compare x y with
      | Lt => x :: y :: t
      | Eq => y :: t
      | Gt => y :: add x t
      end
  end.

(** [s.update(l)], also [s | l] *)
Definition update (s : itemset) (l : list item) : itemset :=
  fold_left (fun acc x => add x acc) l s.

(** [set(l)] *)
Definition of_list (l : list item) : itemset := update empty l.

(** [s == t] *)
Fixpoint eqb (s t : itemset) : bool :=
  match s, t with
  | [], [] => true
  | x :: s', y :: t' => item_eqb x y && eqb s' t'
  | _, _ => false
  end.

Definition is_int (x : item) : bool :=
  match x with V _ => true | Nth _ _ => false end.

(** [sorted(s)]: an integer and a pair cannot be ordered by Python, so a
    set that mixes them raises [TypeError] as soon as it has two
    elements. *)
Definition sorted (s : itemset) : outcome (list item) :=
  if (List.length s <=? 1)%nat || forallb is_int s
     || forallb (fun x => negb (is_int x)) s
  then Ok s
  else Raise TypeError.

(** The integers of a set *)
Definition ints (s : itemset) : list Z :=
  flat_map (fun x => match x with V n => [n] | Nth _ _ => [] end) s.

(** [min(l)] for a list of integers *)
Definition zmin (l : list Z) : outcome Z :=
  match l with
  | [] => Raise ValueError
  | x :: t => Ok (fold_left Z.min t x)
  end.

(** [min(s)] where an integer is wanted: a pair in the set raises
    [TypeError], from the comparison or from the use of the result. *)
Definition min (s : itemset) : outcome Z :=
  if forallb is_int s then zmin (ints s) else Raise TypeError.

End ISet.

(** [range(a, b)] *)
Definition zrange (a b : Z) : list Z :=
  map (fun i => a + Z.of_nat i) (seq 0 (Z.to_nat (b - a))).

(** [l[::step]], with [k] the number of elements to skip before the next
    one that is kept. *)
Fixpoint every_from {A : Type} (k step : nat) (l : list A) : list A :=
  match l with
  | [] => []
  | x :: t =>
      match k with
      | O => x :: every_from (step - 1) step t
      | S k' => every_from k' step t
      end
  end.

Definition slice_step {A : Type} (step : Z) (l : list A) : list A :=
  every_from 0 (Z.to_nat step) l.

(** ** Field grammar *)

Inductive Field : Type := MINUTE | HOUR | DAY | MONTH | DOW | SECOND.

Definition Field_eqb (a b : Field) : bool :=
  match a, b with
  | MINUTE, MINUTE | HOUR, HOUR | DAY, DAY
  | MONTH, MONTH | DOW, DOW | SECOND, SECOND => true
  | _, _ => false
  end.

(** Bounds of [RANGES[f]], both inclusive *)
Definition range_min (f : Field) : Z :=
  match f with
  | MINUTE | HOUR | DOW | SECOND => 0
  | DAY | MONTH => 1
  end.

Definition range_max (f : Field) : Z :=
  match f with
  | MINUTE | SECOND => 59
  | HOUR => 23
  | DAY => 31
  | MONTH => 12
  | DOW => 6
  end.

Definition RANGES (f : Field) : itemset :=
  map V (zrange (range_min f) (range_max f + 1)).

Definition SYMBOLIC_DAYS : list string :=
  ["SUN"; "MON"; "TUE"; "WED"; "THU"; "FRI"; "SAT"].

Definition SYMBOLIC_MONTHS : list string :=
  ["JAN"; "FEB"; "MAR"; "APR"; "MAY"; "JUN";
   "JUL"; "AUG"; "SEP"; "OCT"; "NOV"; "DEC"].

Definition LAST : Z := 1000.

Definition bad_value (s : string) : exn := CronSimError ("Bad value: " ++ s).
Definition wrong_field_count : exn := CronSimError "Wrong number of fields".
Definition bad_range : exn :=
  CronSimError "Range end cannot be smaller than start".

(** [_int(value, min_value)] for an ASCII text: there [isdigit] holds of
    the texts of decimal digits alone and [int] never fails on them, so
    that the [ValueError] of [int] on digits off ASCII has no place. *)
Definition _int (value : string) (min_value : Z) : outcome Z :=
  if negb (Str.isdigit value) || (2 <? String.length value)%nat
  then Raise (bad_value value)
  else
    let v := Str.to_int value in
    if v <? min_value then Raise (bad_value value) else Ok v.

(** [Field.int] for an ASCII text, whose [upper()] is [Str.upper] *)
Definition Field_int (f : Field) (s : string) : outcome Z :=
  match (if Field_eqb f MONTH then Str.index_of (Str.upper s) SYMBOLIC_MONTHS
         else None) with
  | Some i => Ok (i + 1)
  | None =>
      match (if Field_eqb f DOW then Str.index_of (Str.upper s) SYMBOLIC_DAYS
             else None) with
      | Some i => Ok i
      | None =>
          v <- _int s 0 ;;
          if negb (ISet.mem (V v) (RANGES f)) then Raise (bad_value s)
          else Ok v
      end
  end.

(** The loop of the comma branch: [result.update(self.parse(term))] for
    each term in turn. *)
Fixpoint parse_terms (p : string -> outcome itemset) (terms : list string)
    (result : itemset) : outcome itemset :=
  match terms with
  | [] => Ok result
  | term :: rest =>
      r <- p term ;;
      parse_terms p rest (ISet.update result r)
  end.

(** The tail of the step branch, once [step] and [sorted(parse(term))] are
    known. *)
Definition step_items (f : Field) (step : Z) (items : list item)
  : outcome itemset :=
  if ISet.eqb items [V LAST] then Ok items
  else
    match items with
    | [V start] =>
        Ok (ISet.of_list
              (slice_step step (map V (zrange start (range_max f + 1)))))
    | [Nth _ _] => Raise TypeError
    | _ => Ok (ISet.of_list (slice_step step items))
    end.

(** The body of [Field.parse], with [self_parse] standing for the recursive
    calls [self.parse(term)]. *)
Definition parse_body (self_parse : string -> outcome itemset) (f : Field)
    (s : string) : outcome itemset :=
  if String.eqb s "*" then Ok (RANGES f)
  else if Str.contains "," s then
    parse_terms self_parse (Str.split "," s) ISet.empty
  else if Str.contains "#" s && Field_eqb f DOW then
    match Str.split1 "#" s with
    | None => Raise ValueError
    | Some (term, nth) =>
        nth' <- _int nth 1 ;;
        d <- Field_int f term ;;
        Ok [Nth d nth']
    end
  else if Str.contains "/" s then
    match Str.split1 "/" s with
    | None => Raise ValueError
    | Some (term, step) =>
        step' <- _int step 1 ;;
        parsed <- self_parse term ;;
        items <- ISet.sorted parsed ;;
        step_items f step' items
    end
  else if Str.contains "-" s then
    match Str.split1 "-" s with
    | None => Raise ValueError
    | Some (a, b) =>
        start <- Field_int f a ;;
        end_ <- Field_int f b ;;
        if end_ <? start then Raise bad_range
        else Ok (ISet.of_list (map V (zrange start (end_ + 1))))
    end
  else if Field_eqb f DAY && (String.eqb s "L" || String.eqb s "l") then
    Ok [V LAST]
  else
    v <- Field_int f s ;;
    Ok [V v].

(** [Field.parse]; [fuel] bounds the depth of the recursion. *)
Fixpoint parse_fuel (fuel : nat) (f : Field) (s : string) : outcome itemset :=
  match fuel with
  | O => OutOfFuel
  | S n => parse_body (parse_fuel n f) f s
  end.

(** A comma list holds terms without commas, a step construct holds a term
    without commas and slashes, and such a term does not recurse: depth
    three is all the source ever uses (see [parse_fuel_stable]). *)
Definition parse (f : Field) (s : string) : outcome itemset :=
  parse_fuel 3 f s.

(** ** Calendar arithmetic of the standard library *)

Definition MAXORDINAL : Z := 3652059.

(** [_is_leap], also [calendar.isleap] *)
Definition is_leap (year : Z) : bool :=
  (year mod 4 =? 0) && (negb (year mod 100 =? 0) || (year mod 400 =? 0)).

Definition DAYS_IN_MONTH : list Z :=
  [-1; 31; 28; 31; 30; 31; 30; 31; 31; 30; 31; 30; 31].

Definition DAYS_BEFORE_MONTH : list Z :=
  [-1; 0; 31; 59; 90; 120; 151; 181; 212; 243; 273; 304; 334].

Definition zpick (l : list Z) (i : Z) : Z := nth (Z.to_nat i) l 0.

Definition b2z (b : bool) : Z := if b then 1 else 0.

(** [_days_before_year] *)
Definition days_before_year (year : Z) : Z :=
  let y := year - 1 in
  y * 365 + y / 4 - y / 100 + y / 400.

(** [_days_in_month], also [calendar.monthrange(year, month)[1]] *)
Definition days_in_month (year month : Z) : Z :=
  if (month =? 2) && is_leap year then 29 else zpick DAYS_IN_MONTH month.

(** [_days_before_month] *)
Definition days_before_month (year month : Z) : Z :=
  zpick DAYS_BEFORE_MONTH month + b2z ((2 <? month) && is_leap year).

(** [_ymd2ord] *)
Definition ymd2ord (year month day : Z) : Z :=
  days_before_year year + days_before_month year month + day.

Definition DI400Y : Z := 146097.
Definition DI100Y : Z := 36524.
Definition DI4Y : Z := 1461.

(** The end of [_ord2ymd]: month and day of the day numbered [n], from 0,
    within its year. *)
Definition month_day (leapyear : bool) (n : Z) : Z * Z :=
  let month := Z.shiftr (n + 50) 5 in
  let preceding :=
    zpick DAYS_BEFORE_MONTH month + b2z ((2 <? month) && leapyear) in
  let '(month, preceding) :=
    if n <? preceding
    then (month - 1,
          preceding - (zpick DAYS_IN_MONTH (month - 1)
                       + b2z ((month - 1 =? 2) && leapyear)))
    else (month, preceding) in
  (month, n - preceding + 1).

(** [_ord2ymd] *)
Definition ord2ymd (n : Z) : Z * Z * Z :=
  let n := n - 1 in
  let n400 := n / DI400Y in
  let n := n mod DI400Y in
  let year := n400 * 400 + 1 in
  let n100 := n / DI100Y in
  let n := n mod DI100Y in
  let n4 := n / DI4Y in
  let n := n mod DI4Y in
  let n1 := n / 365 in
  let n := n mod 365 in
  let year := year + n100 * 100 + n4 * 4 + n1 in
  if (n1 =? 4) || (n100 =? 4) then (year - 1, 12, 31)
  else
    let leapyear := (n1 =? 3) && (negb (n4 =? 24) || (n100 =? 3)) in
    let '(month, day) := month_day leapyear n in
    (year, month, day).

Definition year_of (ord : Z) : Z := fst (fst (ord2ymd ord)).
Definition month_of (ord : Z) : Z := snd (fst (ord2ymd ord)).
Definition day_of (ord : Z) : Z := snd (ord2ymd ord).

(** [date.weekday()], Monday is 0 *)
Definition weekday (ord : Z) : Z := (ord + 6) mod 7.

(** [date + timedelta(days=k)] *)
Definition date_add_days (ord k : Z) : outcome Z :=
  let o := ord + k in
  if (0 <? o) && (o <=? MAXORDINAL) then Ok o else Raise OverflowError.

(** ** Instants *)

Record datetime : Type := mkdatetime {
  ordinal : Z;
  hour : Z;
  minute : Z;
  second : Z;
  microsecond : Z;
  tzinfo : option Z
}.

(** [datetime(year, month, day, hour, minute, second)] *)
Definition datetime_of (y m d hh mm ss : Z) : datetime :=
  mkdatetime (ymd2ord y m d) hh mm ss 0 None.

Definition valid_datetime (d : datetime) : Prop :=
  1 <= ordinal d <= MAXORDINAL /\ 0 <= hour d < 24 /\ 0 <= minute d < 60
  /\ 0 <= second d < 60 /\ 0 <= microsecond d < 1000000.

(** Seconds since the midnight that opens ordinal 0; instants are compared
    through it. *)
Definition seconds_of (d : datetime) : Z :=
  ordinal d * 86400 + hour d * 3600 + minute d * 60 + second d.

(** [dt + timedelta(seconds=k)] *)
Definition add_seconds (d : datetime) (k : Z) : outcome datetime :=
  let total := hour d * 3600 + minute d * 60 + second d + k in
  let days := ordinal d + total / 86400 in
  let secs := total mod 86400 in
  let hh := secs / 3600 in
  let rem := secs mod 3600 in
  if (0 <? days) && (days <=? MAXORDINAL)
  then Ok (mkdatetime days hh (rem / 60) (rem mod 60)
             (microsecond d) (tzinfo d))
  else Raise OverflowError.

(** [dt.replace(minute=mm, second=ss)]; the constructor checks the fields. *)
Definition replace_time (d : datetime) (mm ss : Z) : outcome datetime :=
  if (0 <=? mm) && (mm <=? 59) && (0 <=? ss) && (ss <=? 59)
  then Ok (mkdatetime (ordinal d) (hour d) mm ss (microsecond d) (tzinfo d))
  else Raise ValueError.

(** [datetime.combine(needle, time(), tzinfo)] *)
Definition combine_midnight (needle : Z) (tz : option Z) : datetime :=
  mkdatetime needle 0 0 0 0 tz.

(** ** The iterator object *)

Record CronSim : Type := mkCronSim {
  dt : datetime;
  minutes : itemset;
  hours : itemset;
  days : itemset;
  months : itemset;
  weekdays : itemset;
  seconds : itemset
}.

Definition set_dt (self : CronSim) (d : datetime) : CronSim :=
  mkCronSim d (minutes self) (hours self) (days self) (months self)
    (weekdays self) (seconds self).

(** [parts[i]] *)
Definition part (parts : list string) (i : nat) : string :=
  nth i parts EmptyString.

(** [expr.split()], with ["0"] appended when there are five parts *)
Definition split_fields (expr : string) : list string :=
  let parts := Str.words expr in
  if (List.length parts =? 5)%nat then (parts ++ ["0"])%list else parts.

(** [CronSim.__init__] *)
Definition init (expr : string) (start : datetime) : outcome CronSim :=
  let dt0 := mkdatetime (ordinal start) (hour start) (minute start) 0 0
               (tzinfo start) in
  let parts := split_fields expr in
  if negb (List.length parts =? 6)%nat then Raise wrong_field_count
  else
    minutes <- parse MINUTE (part parts 0) ;;
    hours <- parse HOUR (part parts 1) ;;
    days <- parse DAY (part parts 2) ;;
    months <- parse MONTH (part parts 3) ;;
    weekdays <- parse DOW (part parts 4) ;;
    seconds <- parse SECOND (part parts 5) ;;
    let days :=
      if ISet.eqb days (RANGES DAY) && negb (ISet.eqb weekdays (RANGES DOW))
      then ISet.empty else days in
    let weekdays :=
      if ISet.eqb weekdays (RANGES DOW) && negb (ISet.eqb days (RANGES DAY))
      then ISet.empty else weekdays in
    Ok (mkCronSim dt0 minutes hours days months weekdays seconds).

(** [min((v - cur) % modulus for v in s)] *)
Definition min_delta (modulus cur : Z) (s : itemset) : outcome Z :=
  if forallb ISet.is_int s
  then ISet.zmin (map (fun v => (v - cur) mod modulus) (ISet.ints s))
  else Raise TypeError.

(** [advance_second] *)
Definition advance_second (self : CronSim) : outcome (bool * CronSim) :=
  if ISet.mem (V (second (dt self))) (seconds self) then Ok (false, self)
  else
    delta <- min_delta 60 (second (dt self)) (seconds self) ;;
    d <- add_seconds (dt self) delta ;;
    Ok (true, set_dt self d).

(** [advance_minute] *)
Definition advance_minute (self : CronSim) : outcome (bool * CronSim) :=
  if ISet.mem (V (minute (dt self))) (minutes self) then Ok (false, self)
  else
    delta <- min_delta 60 (minute (dt self)) (minutes self) ;;
    d <- add_seconds (dt self) (60 * delta) ;;
    ss <- ISet.min (seconds self) ;;
    d <- replace_time d (minute d) ss ;;
    Ok (true, set_dt self d).

(** [advance_hour] *)
Definition advance_hour (self : CronSim) : outcome (bool * CronSim) :=
  if ISet.mem (V (hour (dt self))) (hours self) then Ok (false, self)
  else
    delta <- min_delta 24 (hour (dt self)) (hours self) ;;
    d <- add_seconds (dt self) (3600 * delta) ;;
    mm <- ISet.min (minutes self) ;;
    ss <- ISet.min (seconds self) ;;
    d <- replace_time d mm ss ;;
    Ok (true, set_dt self d).

(** [match_day]; [d] is the ordinal of the date. *)
Definition match_day (self : CronSim) (d : Z) : bool :=
  if ISet.mem (V (day_of d)) (days self) then true
  else if ISet.mem (V LAST) (days self)
          && (day_of d =? days_in_month (year_of d) (month_of d)) then true
  else
    let dow := weekday d + 1 in
    if ISet.mem (V dow) (weekdays self)
       || ISet.mem (V (dow mod 7)) (weekdays self) then true
    else
      let idx := (day_of d + 6) / 7 in
      ISet.mem (Nth dow idx) (weekdays self)
      || ISet.mem (Nth (dow mod 7) idx) (weekdays self).

(** [while not p(needle): needle += td(days=1)]; [fuel] bounds the number
    of days added. *)
Fixpoint scan (fuel : nat) (p : Z -> bool) (needle : Z) : outcome Z :=
  if p needle then Ok needle
  else
    match fuel with
    | O => OutOfFuel
    | S n =>
        needle' <- date_add_days needle 1 ;;
        scan n p needle'
    end.

(** [advance_day] *)
Definition advance_day (fuel : nat) (self : CronSim)
  : outcome (bool * CronSim) :=
  let needle := ordinal (dt self) in
  if match_day self needle then Ok (false, self)
  else
    needle <- scan fuel (match_day self) needle ;;
    Ok (true, set_dt self (combine_midnight needle (tzinfo (dt self)))).

Definition month_ok (self : CronSim) (d : Z) : bool :=
  ISet.mem (V (month_of d)) (months self).

(** [advance_month] *)
Definition advance_month (fuel : nat) (self : CronSim) : outcome CronSim :=
  if month_ok self (ordinal (dt self)) then Ok self
  else
    needle <- scan fuel (month_ok self) (ordinal (dt self)) ;;
    Ok (set_dt self (combine_midnight needle (tzinfo (dt self)))).

(** One round of the [while True] loop of [__next__]: [Again] is a
    [continue], [Done] leaves the loop. *)
Inductive round : Type :=
| Again (self : CronSim)
| Done (self : CronSim).

Definition pass (k : nat) (self : CronSim) : outcome round :=
  self <- advance_month k self ;;
  '(moved, self) <- advance_day k self ;;
  if moved : bool then Ok (Again self)
  else
    '(moved, self) <- advance_hour self ;;
    if moved : bool then Ok (Again self)
    else
      '(moved, self) <- advance_minute self ;;
      if moved : bool then Ok (Again self)
      else
        '(moved, self) <- advance_second self ;;
        if moved : bool then Ok (Again self)
        else Ok (Done self).

Definition round_state (r : round) : CronSim :=
  match r with Again s | Done s => s end.

(** The [while True] loop of [__next__]: [fuel] bounds its rounds, and [k]
    is the fuel handed to the day scans. *)
Fixpoint next_loop (k fuel : nat) (self : CronSim)
  : outcome (CronSim * datetime) :=
  match fuel with
  | O => OutOfFuel
  | S n =>
      r <- pass k self ;;
      match r with
      | Again self => next_loop k n self
      | Done self => Ok (self, dt self)
      end
  end.

(** [CronSim.__next__] *)
Definition next (fuel : nat) (self : CronSim) : outcome (CronSim * datetime) :=
  d <- add_seconds (dt self) 1 ;;
  next_loop fuel fuel (set_dt self d).

(** Successive calls of [next] on one object, one for each element of
    [fuels], with the instants they returned, oldest first. *)
Fixpoint calls (fuels : list nat) (self : CronSim)
  : outcome (CronSim * list datetime) :=
  match fuels with
  | [] => Ok (self, [])
  | fuel :: rest =>
      '(self, r) <- next fuel self ;;
      '(self, rs) <- calls rest self ;;
      Ok (self, r :: rs)
  end.

(** ** Invariants of the compiled sets *)

(** What [Field.parse] may put into the set of field [f]. *)
Definition item_ok (f : Field) (x : item) : Prop :=
  match x with
  | V n => range_min f <= n <= range_max f \/ (f = DAY /\ n = LAST)
  | Nth d n => f = DOW /\ 0 <= d <= 6 /\ 1 <= n
  end.

Definition good_set (f : Field) (s : itemset) : Prop :=
  s <> [] /\ Forall (item_ok f) s.

Definition not_ok {A : Type} (m : outcome A) : Prop := forall a, m <> Ok a.

(** A term that [Field.parse] handles without calling itself. *)
Definition leaf (s : string) : bool :=
  negb (Str.contains "," s) && negb (Str.contains "/" s).

(** The order in which a set is kept: integers by value, pairs after them. *)
Definition item_lt (a b : item) : Prop := item_compare a b = Lt.

(** The fields in the order of the parts of an expression. *)
Definition field_order : list Field := [MINUTE; HOUR; DAY; MONTH; DOW; SECOND].

(** Terms that the grammar has to reject: a range that runs backwards, [#]
    outside the day-of-week field, an ordinal below one, [L] outside the
    day-of-month field; and a comma list or a step construct built on such
    a term. *)
Inductive malformed : Field -> string -> Prop :=
| mal_range (f : Field) (s a b : string) (x y : Z) :
    Str.contains "," s = false -> Str.contains "#" s = false ->
    Str.contains "/" s = false ->
    Str.split1 "-" s = Some (a, b) ->
    Field_int f a = Ok x -> Field_int f b = Ok y -> y < x ->
    malformed f s
| mal_hash (f : Field) (s : string) :
    f <> DOW -> Str.contains "#" s = true -> malformed f s
| mal_nth (s term nth : string) :
    Str.contains "," s = false ->
    Str.split1 "#" s = Some (term, nth) ->
    Str.isdigit nth = true -> Str.to_int nth < 1 ->
    malformed DOW s
| mal_last (f : Field) (s : string) :
    f <> DAY -> s = "L" \/ s = "l" -> malformed f s
| mal_comma (f : Field) (s t : string) :
    Str.contains "," s = true -> In t (Str.split "," s) ->
    malformed f t -> malformed f s
| mal_step (f : Field) (s term step : string) :
    Str.contains "," s = false ->
    Str.contains "#" s && Field_eqb f DOW = false ->
    Str.split1 "/" s = Some (term, step) ->
    malformed f term -> malformed f s.

(** ** Invariants of the iterator *)

(** A set of integers of [0 .. m - 1] *)
Definition ints_in (m : Z) (s : itemset) : Prop :=
  Forall (fun x => exists n, x = V n /\ 0 <= n < m) s.

(** What the constructor guarantees about the sets of the clock fields *)
Definition clock_sets_ok (self : CronSim) : Prop :=
  ints_in 24 (hours self) /\ hours self <> []
  /\ ints_in 60 (minutes self) /\ minutes self <> []
  /\ ints_in 60 (seconds self) /\ seconds self <> [].

(** The cursor of an object: a valid instant of whole seconds *)
Definition cursor_ok (self : CronSim) : Prop :=
  valid_datetime (dt self) /\ microsecond (dt self) = 0.

(** [t] passes the five tests that [__next__] makes before it returns. *)
Definition matches (self : CronSim) (t : datetime) : Prop :=
  month_ok self (ordinal t) = true
  /\ match_day self (ordinal t) = true
  /\ ISet.mem (V (hour t)) (hours self) = true
  /\ ISet.mem (V (minute t)) (minutes self) = true
  /\ ISet.mem (V (second t)) (seconds self) = true.

(** The objects that [CronSim(expr, start)] and calls of [next] on it lead
    to. *)
Inductive reachable (expr : string) (start : datetime) : CronSim -> Prop :=
| reach_init (self : CronSim) :
    init expr start = Ok self -> reachable expr start self
| reach_next (self self' : CronSim) (fuel : nat) (r : datetime) :
    reachable expr start self -> next fuel self = Ok (self', r) ->
    reachable expr start self'.

(** Every result is at least one second after the one before it. *)
Definition second_apart (a b : datetime) : Prop :=
  seconds_of a + 1 <= seconds_of b.

(** [self'] is [self] with its cursor moved forward, strictly so when
    [strict] is set. *)
Definition advanced (strict : bool) (self self' : CronSim) : Prop :=
  exists d,
    self' = set_dt self d /\ valid_datetime d /\ microsecond d = 0
    /\ tzinfo d = tzinfo (dt self)
    /\ if strict then seconds_of (dt self) < seconds_of d
       else seconds_of (dt self) <= seconds_of d.

(** The latest instant in the minute, and in the hour, of [t] *)
Definition end_of_minute (t : datetime) : datetime :=
  mkdatetime (ordinal t) (hour t) (minute t) 59 0 (tzinfo t).

Definition end_of_hour (t : datetime) : datetime :=
  mkdatetime (ordinal t) (hour t) 59 59 0 (tzinfo t).

(** ** A check of the calendar model *)

(** [ord2ymd n] is a date of the calendar and [ymd2ord] leads back to [n]. *)
Definition date_agrees (n : Z) : bool :=
  let '(y, m, d) := ord2ymd n in
  (ymd2ord y m d =? n) && (1 <=? m) && (m <=? 12)
  && (1 <=? d) && (d <=? days_in_month y m).

(** [date_agrees] on the [count] ordinals from [first] on *)
Definition calendar_agrees (first : Z) (count : N) : bool :=
  snd (N.iter count
         (fun '(n, ok) => (n + 1, ok && date_agrees n))
         (first, true)).

(** ** The end of the calendar *)

(** The number of seconds from [d] to the end of 9999-12-31, a fuel that
    lets every loop of [__next__] run until it returns or overflows. *)
Definition fuel_to_end (d : datetime) : nat :=
  Z.to_nat ((MAXORDINAL + 1) * 86400 - seconds_of d).

(** A weekday set made of pairs whose ordinal no month reaches *)
Definition beyond_fifth (s : itemset) : Prop :=
  Forall (fun x => exists w k, x = Nth w k /\ 6 <= k) s.

(** ** The texts the model covers *)

(** A character of ASCII: a code below 128 *)
Definition is_ascii_char (a : ascii) : bool := (nat_of_ascii a <? 128)%nat.

(** A text of ASCII characters only, the texts on which the string
    functions of the model are those of Python *)
Fixpoint ascii_text (s : string) : bool :=
  match s with
  | EmptyString => true
  | String a t => is_ascii_char a && ascii_text t
  end.

(** * Properties *)

(** ** Outcomes *)

Lemma bind_Ok {A B : Type} (m : outcome A) (k : A -> outcome B) (b : B) :
  bind m k = Ok b -> exists a, m = Ok a /\ k a = Ok b.
Proof.
  destruct m as [a | e | ]; simpl; intros H; try discriminate.
  exists a; split; [reflexivity | exact H].
Qed.

Lemma bind_Raise {A B : Type} (m : outcome A) (k : A -> outcome B) (e : exn) :
  bind m k = Raise e ->
  m = Raise e \/ exists a, m = Ok a /\ k a = Raise e.
Proof.
  destruct m as [a | e' | ]; simpl; intros H; try discriminate.
  - right; exists a; split; [reflexivity | exact H].
  - left; congruence.
Qed.

Lemma bind_OutOfFuel {A B : Type} (m : outcome A) (k : A -> outcome B) :
  bind m k = OutOfFuel ->
  m = OutOfFuel \/ exists a, m = Ok a /\ k a = OutOfFuel.
Proof.
  destruct m as [a | e' | ]; simpl; intros H; try discriminate.
  - right; exists a; split; [reflexivity | exact H].
  - left; reflexivity.
Qed.

(** Splits an equation [bind m k = Ok b] of the context into its steps. *)
Ltac bind_inv H :=
  let a := fresh "a" in
  let E := fresh "E" in
  apply bind_Ok in H; destruct H as (a & E & H).

(** ** Field values *)

Lemma item_compare_eq (a b : item) : item_compare a b = Eq <-> a = b.
Proof.
  destruct a as [x | d n], b as [y | d' n']; simpl; split; intros H;
    try discriminate.
  - apply Z.compare_eq in H; congruence.
  - injection H as ->; apply Z.compare_refl.
  - destruct (d ?= d') eqn:E; try discriminate.
    apply Z.compare_eq in E, H; congruence.
  - injection H as -> ->; rewrite !Z.compare_refl; reflexivity.
Qed.

Lemma item_eqb_eq (a b : item) : item_eqb a b = true <-> a = b.
Proof.
  unfold item_eqb; rewrite <- item_compare_eq.
  destruct (item_compare a b); split; congruence.
Qed.

Lemma item_eqb_refl (a : item) : item_eqb a a = true.
Proof. apply item_eqb_eq; reflexivity. Qed.

Lemma mem_In (x : item) (s : itemset) : ISet.mem x s = true <-> In x s.
Proof.
  induction s as [ | y t IH]; simpl.
  - split; [discriminate | tauto].
  - rewrite orb_true_iff, item_eqb_eq, IH; split; intros [H | H]; auto.
Qed.

Lemma mem_false (x : item) (s : itemset) : ISet.mem x s = false <-> ~ In x s.
Proof.
  rewrite <- mem_In; destruct (ISet.mem x s); split; congruence.
Qed.

Lemma In_add (x y : item) (s : itemset) :
  In y (ISet.add x s) <-> y = x \/ In y s.
Proof.
  induction s as [ | z t IH]; simpl.
  - intuition congruence.
  - destruct (item_compare x z) eqn:E; simpl.
    + apply item_compare_eq in E; subst; intuition congruence.
    + intuition congruence.
    + rewrite IH; intuition congruence.
Qed.

Lemma In_update (y : item) (l : list item) (s : itemset) :
  In y (ISet.update s l) <-> In y s \/ In y l.
Proof.
  unfold ISet.update; revert s; induction l as [ | x l IH]; intros s; simpl.
  - tauto.
  - rewrite IH, In_add; intuition congruence.
Qed.

Lemma In_of_list (y : item) (l : list item) : In y (ISet.of_list l) <-> In y l.
Proof. unfold ISet.of_list; rewrite In_update; simpl; tauto. Qed.

Lemma nonempty_In {A : Type} (l : list A) : l <> [] <-> exists x, In x l.
Proof.
  destruct l as [ | x t]; split.
  - congruence.
  - intros [x []].
  - exists x; left; reflexivity.
  - discriminate.
Qed.

Lemma eqb_eq (s t : itemset) : ISet.eqb s t = true <-> s = t.
Proof.
  revert t; induction s as [ | x s IH]; intros [ | y t]; simpl;
    try (split; [discriminate | congruence]).
  - tauto.
  - rewrite andb_true_iff, item_eqb_eq, IH; split.
    + intros [-> ->]; reflexivity.
    + intros H; injection H; auto.
Qed.

Lemma eqb_neq (s t : itemset) : ISet.eqb s t = false <-> s <> t.
Proof.
  rewrite <- eqb_eq; destruct (ISet.eqb s t); split; congruence.
Qed.

Lemma sorted_Ok (s : itemset) (l : list item) : ISet.sorted s = Ok l -> l = s.
Proof.
  unfold ISet.sorted; destruct (_ || _); congruence.
Qed.

Lemma In_zrange (a b x : Z) : In x (zrange a b) <-> a <= x < b.
Proof.
  unfold zrange; rewrite in_map_iff; split.
  - intros (i & <- & Hi); apply in_seq in Hi; lia.
  - intros H; exists (Z.to_nat (x - a)); split; [lia | ].
    apply in_seq; lia.
Qed.

Lemma In_RANGES (f : Field) (x : item) :
  In x (RANGES f) <-> exists n, x = V n /\ range_min f <= n <= range_max f.
Proof.
  unfold RANGES; rewrite in_map_iff; split.
  - intros (n & <- & H); apply In_zrange in H; exists n; split; [easy | lia].
  - intros (n & -> & H); exists n; split; [easy | apply In_zrange; lia].
Qed.

Lemma mem_RANGES (f : Field) (n : Z) :
  ISet.mem (V n) (RANGES f) = true <-> range_min f <= n <= range_max f.
Proof.
  rewrite mem_In, In_RANGES; split.
  - intros (m & E & H); injection E as ->; exact H.
  - intros H; exists n; auto.
Qed.

(** ** Strings *)

Lemma split_nonempty (c : ascii) (s : string) : Str.split c s <> [].
Proof.
  destruct s as [ | a t]; simpl; [discriminate | ].
  destruct (Ascii.eqb a c); [discriminate | ].
  destruct (Str.split c t); discriminate.
Qed.

Lemma split_pieces (c d : ascii) (s : string) :
  Str.contains d s = false ->
  Forall (fun t => Str.contains d t = false) (Str.split c s).
Proof.
  induction s as [ | a t IH]; simpl; intros H.
  - constructor; [reflexivity | constructor].
  - apply orb_false_iff in H as [Ha Ht]; specialize (IH Ht).
    destruct (Ascii.eqb a c).
    + constructor; [reflexivity | exact IH].
    + destruct (Str.split c t) as [ | p ps].
      * constructor; [simpl; rewrite Ha; reflexivity | constructor].
      * inversion IH; subst; constructor; [simpl; rewrite Ha; auto | auto].
Qed.

Lemma split_no_sep (c : ascii) (s : string) :
  Forall (fun t => Str.contains c t = false) (Str.split c s).
Proof.
  induction s as [ | a t IH]; simpl.
  - constructor; [reflexivity | constructor].
  - destruct (Ascii.eqb a c) eqn:E.
    + constructor; [reflexivity | exact IH].
    + destruct (Str.split c t) as [ | p ps].
      * constructor; [simpl; rewrite E; reflexivity | constructor].
      * inversion IH; subst; constructor; [simpl; rewrite E; auto | auto].
Qed.

Lemma split_some (c d : ascii) (s : string) :
  Ascii.eqb d c = false -> Str.contains d s = true ->
  Exists (fun t => Str.contains d t = true) (Str.split c s).
Proof.
  intros Hdc; induction s as [ | a t IH]; simpl; intros H; [discriminate | ].
  destruct (Ascii.eqb a c) eqn:Eac.
  - apply Exists_cons_tl, IH.
    destruct (Ascii.eqb a d) eqn:Ead; [ | exact H].
    apply Ascii.eqb_eq in Ead, Eac; subst.
    rewrite Ascii.eqb_refl in Hdc; discriminate.
  - destruct (Ascii.eqb a d) eqn:Ead.
    + destruct (Str.split c t); apply Exists_cons_hd; simpl; rewrite Ead;
        reflexivity.
    + specialize (IH H); destruct (Str.split c t) as [ | p ps].
      * inversion IH.
      * inversion IH; subst.
        -- apply Exists_cons_hd; simpl; rewrite Ead; assumption.
        -- apply Exists_cons_tl; assumption.
Qed.

Lemma split1_left (c d : ascii) (s l r : string) :
  Str.split1 c s = Some (l, r) -> Str.contains d s = false ->
  Str.contains d l = false /\ Str.contains d r = false.
Proof.
  revert l; induction s as [ | a t IH]; simpl; intros l H Hd; [discriminate | ].
  apply orb_false_iff in Hd as [Ha Ht].
  destruct (Ascii.eqb a c).
  - injection H as <- <-; auto.
  - destruct (Str.split1 c t) as [[l' r'] | ]; [ | discriminate].
    injection H as <- <-; destruct (IH l' eq_refl Ht) as [H1 H2].
    simpl; rewrite Ha; auto.
Qed.

Lemma split1_no_sep (c : ascii) (s l r : string) :
  Str.split1 c s = Some (l, r) -> Str.contains c l = false.
Proof.
  revert l; induction s as [ | a t IH]; simpl; intros l H; [discriminate | ].
  destruct (Ascii.eqb a c) eqn:E.
  - injection H as <- <-; reflexivity.
  - destruct (Str.split1 c t) as [[l' r'] | ]; [ | discriminate].
    injection H as <- <-; simpl; rewrite E; apply (IH l' eq_refl).
Qed.

Lemma split1_some (c d : ascii) (s l r : string) :
  Str.split1 c s = Some (l, r) -> Ascii.eqb d c = false ->
  Str.contains d s = true ->
  Str.contains d l = true \/ Str.contains d r = true.
Proof.
  intros H Hdc; revert l H; induction s as [ | a t IH]; simpl; intros l H Hd;
    [discriminate | ].
  destruct (Ascii.eqb a c) eqn:Eac.
  - injection H as <- <-; right.
    destruct (Ascii.eqb a d) eqn:Ead; [ | exact Hd].
    apply Ascii.eqb_eq in Ead, Eac; subst.
    rewrite Ascii.eqb_refl in Hdc; discriminate.
  - destruct (Str.split1 c t) as [[l' r'] | ]; [ | discriminate].
    injection H as <- <-; simpl.
    destruct (Ascii.eqb a d); [left; reflexivity | ].
    apply (IH l' eq_refl Hd).
Qed.

Lemma split1_defined (c : ascii) (s : string) :
  Str.contains c s = true -> exists l r, Str.split1 c s = Some (l, r).
Proof.
  induction s as [ | a t IH]; simpl; intros H; [discriminate | ].
  destruct (Ascii.eqb a c); [eauto | ].
  destruct (IH H) as (l & r & ->); eauto.
Qed.

Lemma index_of_bound (s : string) (l : list string) (i : Z) :
  Str.index_of s l = Some i -> 0 <= i < Z.of_nat (List.length l).
Proof.
  revert i; induction l as [ | x t IH]; simpl; intros i H; [discriminate | ].
  destruct (String.eqb x s).
  - injection H as <-; lia.
  - destruct (Str.index_of s t) as [j | ]; [ | discriminate].
    injection H as <-; specialize (IH j eq_refl); lia.
Qed.

Lemma index_of_In (s : string) (l : list string) (i : Z) :
  Str.index_of s l = Some i -> In s l.
Proof.
  revert i; induction l as [ | x t IH]; simpl; intros i H; [discriminate | ].
  destruct (String.eqb x s) eqn:E.
  - left; apply String.eqb_eq; exact E.
  - destruct (Str.index_of s t) as [j | ]; [ | discriminate].
    right; apply (IH j eq_refl).
Qed.

Lemma _int_Ok (s : string) (m v : Z) :
  _int s m = Ok v -> m <= v /\ Str.isdigit s = true /\ v = Str.to_int s.
Proof.
  unfold _int; destruct (Str.isdigit s); simpl; [ | discriminate].
  destruct (2 <? String.length s)%nat; [discriminate | ].
  destruct (Str.to_int s <? m) eqn:E; [discriminate | ].
  intros H; injection H as <-; apply Z.ltb_ge in E; auto.
Qed.

Lemma Field_int_range (f : Field) (s : string) (v : Z) :
  Field_int f s = Ok v -> range_min f <= v <= range_max f.
Proof.
  unfold Field_int.
  destruct (if Field_eqb f MONTH then _ else None) as [i | ] eqn:Em.
  { destruct f; try discriminate; intros H; injection H as <-.
    apply index_of_bound in Em; simpl in *; lia. }
  destruct (if Field_eqb f DOW then _ else None) as [i | ] eqn:Ed.
  { destruct f; try discriminate; intros H; injection H as <-.
    apply index_of_bound in Ed; simpl in *; lia. }
  intros H; bind_inv H.
  destruct (ISet.mem (V a) (RANGES f)) eqn:Hm; simpl in H; [ | discriminate].
  injection H as <-; apply mem_RANGES; exact Hm.
Qed.

(** ** Slices *)

Lemma every_from_incl {A : Type} (step : nat) (l : list A) (k : nat) (x : A) :
  In x (every_from k step l) -> In x l.
Proof.
  revert k; induction l as [ | y t IH]; simpl; intros k H; [exact H | ].
  destruct k as [ | k'].
  - destruct H as [H | H]; [left; exact H | right; eapply IH; exact H].
  - right; eapply IH; exact H.
Qed.

Lemma slice_step_nonempty {A : Type} (step : Z) (l : list A) :
  l <> [] -> slice_step step l <> [].
Proof. destruct l; [congruence | discriminate]. Qed.

Lemma nth_error_every_from {A : Type} (step : nat) (l : list A) (k i : nat) :
  (1 <= step)%nat ->
  nth_error (every_from k step l) i = nth_error l (k + i * step).
Proof.
  intros Hs; revert k i; induction l as [ | x t IH]; simpl; intros k i.
  - destruct i, (k + _)%nat; reflexivity.
  - destruct k as [ | k']; simpl.
    + destruct i as [ | i']; simpl; [reflexivity | ].
      rewrite IH; destruct step as [ | s']; [lia | ].
      simpl; f_equal; lia.
    + apply IH.
Qed.

Lemma nth_error_slice_step {A : Type} (step : Z) (l : list A) (i : nat) :
  1 <= step ->
  nth_error (slice_step step l) i = nth_error l (i * Z.to_nat step).
Proof.
  intros H; unfold slice_step; rewrite nth_error_every_from by lia; reflexivity.
Qed.

(** ** The field grammar keeps its sets inside the field's domain *)

Section ParseInvariant.

Variable f : Field.
Variable self_parse : string -> outcome itemset.
Hypothesis self_good : forall s r, self_parse s = Ok r -> good_set f r.

Lemma parse_terms_ok (terms : list string) (acc r : itemset) :
  parse_terms self_parse terms acc = Ok r ->
  Forall (item_ok f) acc -> Forall (item_ok f) r.
Proof.
  revert acc; induction terms as [ | t ts IH]; simpl; intros acc H Hacc.
  - injection H as <-; exact Hacc.
  - bind_inv H; apply (IH _ H).
    apply Forall_forall; intros x Hx; apply In_update in Hx.
    destruct Hx as [Hx | Hx].
    + eapply Forall_forall in Hacc; eauto.
    + destruct (self_good _ _ E) as [_ Hr].
      eapply Forall_forall in Hr; eauto.
Qed.

Lemma parse_terms_grows (terms : list string) (acc r : itemset) (x : item) :
  parse_terms self_parse terms acc = Ok r -> In x acc -> In x r.
Proof.
  revert acc; induction terms as [ | t ts IH]; simpl; intros acc H Hx.
  - injection H as <-; exact Hx.
  - bind_inv H; apply (IH _ H), In_update; left; exact Hx.
Qed.

Lemma parse_terms_nonempty (terms : list string) (acc r : itemset) :
  parse_terms self_parse terms acc = Ok r -> terms <> [] -> r <> [].
Proof.
  destruct terms as [ | t ts]; [congruence | ]; simpl; intros H _.
  bind_inv H; destruct (self_good _ _ E) as [Hne _].
  apply nonempty_In in Hne as [x Hx]; apply nonempty_In; exists x.
  eapply parse_terms_grows; [exact H | ].
  apply In_update; right; exact Hx.
Qed.

Lemma step_items_good (step : Z) (items : list item) (r : itemset) :
  good_set f items -> step_items f step items = Ok r -> good_set f r.
Proof.
  intros [Hne Hok]; unfold step_items.
  destruct (ISet.eqb items [V LAST]) eqn:El.
  { intros H; injection H as <-; split; assumption. }
  assert (Hgen : good_set f (ISet.of_list (slice_step step items))).
  { split.
    - apply nonempty_In.
      destruct (slice_step step items) as [ | y ys] eqn:Es.
      + exfalso; revert Es; apply slice_step_nonempty; exact Hne.
      + exists y; apply In_of_list; left; reflexivity.
    - apply Forall_forall; intros x Hx; rewrite In_of_list in Hx.
      apply every_from_incl in Hx; eapply Forall_forall in Hok; eauto. }
  destruct items as [ | [start | d n] [ | y ys]]; try congruence;
    try (intros H; injection H as <-; exact Hgen).
  intros H; injection H as <-.
  assert (Hs : range_min f <= start <= range_max f).
  { inversion Hok as [ | ? ? Hs' _]; subst; simpl in Hs'.
    destruct Hs' as [Hs | [_ Hs]]; [exact Hs | subst start].
    discriminate El. }
  split.
  - apply nonempty_In; exists (V start); apply In_of_list.
    unfold slice_step, zrange.
    destruct (Z.to_nat (range_max f + 1 - start)) as [ | k] eqn:Ek; [lia | ].
    left; simpl; f_equal; lia.
  - apply Forall_forall; intros x Hx; rewrite In_of_list in Hx.
    apply every_from_incl in Hx; rewrite in_map_iff in Hx.
    destruct Hx as (n & <- & Hn).
    apply In_zrange in Hn; left; lia.
Qed.

Lemma parse_body_good (s : string) (r : itemset) :
  parse_body self_parse f s = Ok r -> good_set f r.
Proof.
  unfold parse_body.
  destruct (String.eqb s "*").
  { intros H; injection H as <-; split.
    - destruct f; discriminate.
    - apply Forall_forall; intros x Hx; apply In_RANGES in Hx.
      destruct Hx as (n & -> & Hn); left; exact Hn. }
  destruct (Str.contains "," s).
  { intros H; split.
    - eapply parse_terms_nonempty; [exact H | apply split_nonempty].
    - eapply parse_terms_ok; [exact H | constructor]. }
  destruct (Str.contains "#" s && Field_eqb f DOW) eqn:Eh.
  { destruct (Str.split1 "#" s) as [[term nth] | ]; [ | discriminate].
    intros H; bind_inv H; bind_inv H; injection H as <-.
    apply andb_true_iff in Eh as [_ Eh].
    apply _int_Ok in E as [E _]; apply Field_int_range in E0.
    split; [discriminate | ].
    constructor; [ | constructor].
    destruct f; try discriminate; simpl in *; auto. }
  destruct (Str.contains "/" s).
  { destruct (Str.split1 "/" s) as [[term step] | ]; [ | discriminate].
    intros H; bind_inv H; bind_inv H; bind_inv H.
    apply sorted_Ok in E1; subst.
    eapply step_items_good; [ | exact H]; eauto. }
  destruct (Str.contains "-" s).
  { destruct (Str.split1 "-" s) as [[a b] | ]; [ | discriminate].
    intros H; bind_inv H; bind_inv H.
    destruct (a1 <? a0) eqn:El; [discriminate | ].
    injection H as <-; apply Z.ltb_ge in El.
    apply Field_int_range in E, E0; split.
    - apply nonempty_In; exists (V a0); apply In_of_list, in_map.
      apply In_zrange; lia.
    - apply Forall_forall; intros x Hx.
      rewrite In_of_list, in_map_iff in Hx; destruct Hx as (n & <- & Hn).
      apply In_zrange in Hn; left; lia. }
  destruct (Field_eqb f DAY && _) eqn:El.
  { intros H; injection H as <-; split; [discriminate | ].
    constructor; [ | constructor].
    right; destruct f; try discriminate; auto. }
  intros H; bind_inv H; injection H as <-.
  apply Field_int_range in E; split; [discriminate | ].
  constructor; [left; exact E | constructor].
Qed.

End ParseInvariant.

Lemma parse_fuel_good (fuel : nat) (f : Field) (s : string) (r : itemset) :
  parse_fuel fuel f s = Ok r -> good_set f r.
Proof.
  revert s r; induction fuel as [ | n IH]; simpl; intros s r H.
  - discriminate.
  - eapply parse_body_good; [exact IH | exact H].
Qed.

Lemma parse_good (f : Field) (s : string) (r : itemset) :
  parse f s = Ok r -> good_set f r.
Proof. apply parse_fuel_good. Qed.

Lemma split1_defined_conv (c : ascii) (s l r : string) :
  Str.split1 c s = Some (l, r) -> Str.contains c s = true.
Proof.
  revert l; induction s as [ | a t IH]; simpl; intros l H; [discriminate | ].
  destruct (Ascii.eqb a c); [reflexivity | ].
  destruct (Str.split1 c t) as [[l' r'] | ]; [ | discriminate].
  injection H as <- <-; apply (IH l' eq_refl).
Qed.

(** ** Depth three is enough for [Field.parse] *)

Lemma parse_terms_ext (P : string -> Prop)
    (p q : string -> outcome itemset) (terms : list string) (acc : itemset) :
  (forall t, P t -> p t = q t) -> Forall P terms ->
  parse_terms p terms acc = parse_terms q terms acc.
Proof.
  intros Hpq Hall; revert acc; induction Hall as [ | t ts Ht _ IH]; simpl;
    intros acc; [reflexivity | ].
  rewrite (Hpq t Ht); destruct (q t); simpl; auto.
Qed.

Lemma parse_body_ext (P : string -> Prop)
    (p q : string -> outcome itemset) (f : Field) (s : string) :
  (forall t, P t -> p t = q t) ->
  (Str.contains "," s = true -> Forall P (Str.split "," s)) ->
  (Str.contains "," s = false ->
   forall term step, Str.split1 "/" s = Some (term, step) -> P term) ->
  parse_body p f s = parse_body q f s.
Proof.
  intros Hpq Hc Hs; unfold parse_body.
  destruct (String.eqb s "*"); [reflexivity | ].
  destruct (Str.contains "," s).
  { apply (parse_terms_ext P); auto. }
  destruct (Str.contains "#" s && Field_eqb f DOW); [reflexivity | ].
  destruct (Str.contains "/" s); [ | reflexivity].
  destruct (Str.split1 "/" s) as [[term step] | ] eqn:E; [ | reflexivity].
  rewrite (Hpq term); [reflexivity | ].
  apply (Hs eq_refl term step eq_refl).
Qed.

Lemma parse_body_leaf (p q : string -> outcome itemset) (f : Field)
    (s : string) :
  leaf s = true -> parse_body p f s = parse_body q f s.
Proof.
  unfold leaf; intros H; apply andb_true_iff in H as [Hc Hs].
  apply negb_true_iff in Hc, Hs.
  apply (parse_body_ext (fun _ => False)).
  - tauto.
  - congruence.
  - intros _ term step E; apply split1_defined_conv in E.
    congruence.
Qed.

Lemma leaf_of_split1 (s term step : string) :
  Str.contains "," s = false -> Str.split1 "/" s = Some (term, step) ->
  leaf term = true.
Proof.
  intros Hc E; unfold leaf.
  destruct (split1_left _ "," _ _ _ E Hc) as [-> _].
  rewrite (split1_no_sep _ _ _ _ E); reflexivity.
Qed.

Lemma parse_fuel_leaf (n : nat) (f : Field) (s : string) :
  leaf s = true -> parse_fuel (S n) f s = parse_fuel 1 f s.
Proof. intros H; simpl; apply parse_body_leaf; exact H. Qed.

Lemma parse_fuel_term (n : nat) (f : Field) (s : string) :
  Str.contains "," s = false -> parse_fuel (S (S n)) f s = parse_fuel 2 f s.
Proof.
  intros Hc; change (parse_body (parse_fuel (S n) f) f s
                     = parse_body (parse_fuel 1 f) f s).
  apply (parse_body_ext (fun t => leaf t = true)).
  - intros t Ht; apply parse_fuel_leaf; exact Ht.
  - congruence.
  - intros _ term step E; eapply leaf_of_split1; eauto.
Qed.

(** More fuel than three never changes the answer. *)
Lemma parse_fuel_stable (n : nat) (f : Field) (s : string) :
  parse_fuel (3 + n) f s = parse f s.
Proof.
  change (parse_body (parse_fuel (S (S n)) f) f s
          = parse_body (parse_fuel 2 f) f s).
  apply (parse_body_ext (fun t => Str.contains "," t = false)).
  - intros t Ht; apply parse_fuel_term; exact Ht.
  - intros _; apply split_no_sep.
  - intros Hc term step E.
    destruct (split1_left _ "," _ _ _ E Hc) as [H _]; exact H.
Qed.

(** The recursive call of the step branch gives what [parse] gives. *)
Lemma parse_fuel_2 (f : Field) (s : string) :
  Str.contains "," s = false -> parse_fuel 2 f s = parse f s.
Proof.
  intros H; symmetry; apply (parse_fuel_term 1); exact H.
Qed.

Section ParseDefinite.

Variable f : Field.
Variable self_parse : string -> outcome itemset.
Hypothesis self_definite : forall s, self_parse s <> OutOfFuel.

Lemma parse_terms_definite (terms : list string) (acc : itemset) :
  parse_terms self_parse terms acc <> OutOfFuel.
Proof.
  revert acc; induction terms as [ | t ts IH]; simpl; intros acc.
  - discriminate.
  - specialize (self_definite t); destruct (self_parse t); simpl;
      [apply IH | discriminate | congruence].
Qed.

Lemma _int_definite (s : string) (m : Z) : _int s m <> OutOfFuel.
Proof.
  unfold _int; destruct (_ || _); [discriminate | ].
  destruct (_ <? _); discriminate.
Qed.

Lemma Field_int_definite (g : Field) (s : string) :
  Field_int g s <> OutOfFuel.
Proof.
  unfold Field_int.
  destruct (if Field_eqb g MONTH then _ else None); [discriminate | ].
  destruct (if Field_eqb g DOW then _ else None); [discriminate | ].
  pose proof (_int_definite s 0) as H; destruct (_int s 0); simpl;
    [ | discriminate | congruence].
  destruct (negb _); discriminate.
Qed.

Lemma step_items_definite (step : Z) (items : list item) :
  step_items f step items <> OutOfFuel.
Proof.
  unfold step_items; destruct (ISet.eqb _ _); [discriminate | ].
  destruct items as [ | [start | d n] [ | y ys]]; discriminate.
Qed.

Lemma parse_body_definite (s : string) :
  parse_body self_parse f s <> OutOfFuel.
Proof.
  unfold parse_body.
  destruct (String.eqb s "*"); [discriminate | ].
  destruct (Str.contains "," s); [apply parse_terms_definite | ].
  destruct (Str.contains "#" s && Field_eqb f DOW).
  { destruct (Str.split1 "#" s) as [[term nth] | ]; [ | discriminate].
    pose proof (_int_definite nth 1) as H; destruct (_int nth 1); simpl;
      [ | discriminate | congruence].
    pose proof (Field_int_definite f term) as H'.
    destruct (Field_int f term); simpl; [ | discriminate | congruence].
    discriminate. }
  destruct (Str.contains "/" s).
  { destruct (Str.split1 "/" s) as [[term step] | ]; [ | discriminate].
    pose proof (_int_definite step 1) as H; destruct (_int step 1); simpl;
      [ | discriminate | congruence].
    pose proof (self_definite term) as H'.
    destruct (self_parse term) as [r | | ]; simpl;
      [ | discriminate | congruence].
    unfold ISet.sorted; destruct (_ || _); simpl; [ | discriminate].
    apply step_items_definite. }
  destruct (Str.contains "-" s).
  { destruct (Str.split1 "-" s) as [[a b] | ]; [ | discriminate].
    pose proof (Field_int_definite f a) as H.
    destruct (Field_int f a); simpl; [ | discriminate | congruence].
    pose proof (Field_int_definite f b) as H'.
    destruct (Field_int f b); simpl; [ | discriminate | congruence].
    destruct (_ <? _); discriminate. }
  destruct (Field_eqb f DAY && _); [discriminate | ].
  pose proof (Field_int_definite f s) as H.
  destruct (Field_int f s); simpl; [ | discriminate | congruence].
  discriminate.
Qed.

End ParseDefinite.

(** [Field.parse] returns a set or raises: the recursion always ends. *)
Lemma parse_definite (f : Field) (s : string) : parse f s <> OutOfFuel.
Proof.
  unfold parse.
  change (parse_body (parse_fuel 2 f) f s <> OutOfFuel).
  set (q2 := fun t : string =>
               if leaf t then parse_fuel 1 f t else Raise ValueError).
  set (q3 := fun t : string =>
               if Str.contains "," t then Raise ValueError
               else parse_body q2 f t).
  assert (Hq2 : forall t, q2 t <> OutOfFuel).
  { intros t; unfold q2; destruct (leaf t) eqn:El; [ | discriminate].
    simpl; rewrite (parse_body_leaf _ (fun _ => Raise ValueError)) by exact El.
    apply parse_body_definite; discriminate. }
  assert (Hq3 : forall t, q3 t <> OutOfFuel).
  { intros t; unfold q3; destruct (Str.contains "," t); [discriminate | ].
    apply parse_body_definite; exact Hq2. }
  rewrite (parse_body_ext (fun t => Str.contains "," t = false) _ q3).
  - apply parse_body_definite; exact Hq3.
  - intros t Ht; unfold q3; rewrite Ht.
    change (parse_body (parse_fuel 1 f) f t = parse_body q2 f t).
    apply (parse_body_ext (fun u => leaf u = true)).
    + intros u Hu; unfold q2; rewrite Hu; reflexivity.
    + congruence.
    + intros _ term step E; eapply leaf_of_split1; eauto.
  - intros _; apply split_no_sep.
  - intros Hc term step E.
    destruct (split1_left _ "," _ _ _ E Hc) as [H _]; exact H.
Qed.

Lemma parse_cases (f : Field) (s : string) :
  (exists r, parse f s = Ok r) \/ raised (parse f s).
Proof.
  pose proof (parse_definite f s) as H.
  destruct (parse f s) as [r | e | ]; [left | right | congruence]; eauto.
  exists e; reflexivity.
Qed.

(** ** Kinds of error *)

Lemma bad_value_kind (s : string) : bad_value s <> wrong_field_count.
Proof. discriminate. Qed.



Section ParseErrors.

Variable f : Field.
Variable self_parse : string -> outcome itemset.
Hypothesis self_kind :
  forall s e, self_parse s = Raise e -> e <> wrong_field_count.



End ParseErrors.


(** ** The constructor *)

(** The sets a six-part expression is compiled to, before the rule on the
    two day fields is applied. *)
Lemma init_Ok (expr : string) (start : datetime) (st : CronSim) :
  init expr start = Ok st ->
  List.length (split_fields expr) = 6%nat /\
  exists mi h d m w s,
    parse MINUTE (part (split_fields expr) 0) = Ok mi /\
    parse HOUR (part (split_fields expr) 1) = Ok h /\
    parse DAY (part (split_fields expr) 2) = Ok d /\
    parse MONTH (part (split_fields expr) 3) = Ok m /\
    parse DOW (part (split_fields expr) 4) = Ok w /\
    parse SECOND (part (split_fields expr) 5) = Ok s /\
    let d' := if ISet.eqb d (RANGES DAY) && negb (ISet.eqb w (RANGES DOW))
              then ISet.empty else d in
    let w' := if ISet.eqb w (RANGES DOW) && negb (ISet.eqb d' (RANGES DAY))
              then ISet.empty else w in
    st = mkCronSim
           (mkdatetime (ordinal start) (hour start) (minute start) 0 0
              (tzinfo start))
           mi h d' m w' s.
Proof.
  unfold init; intros H.
  destruct (List.length (split_fields expr) =? 6)%nat eqn:El; simpl in H;
    [ | discriminate].
  apply Nat.eqb_eq in El; split; [exact El | ].
  do 6 bind_inv H.
  injection H as <-.
  repeat eexists; eauto.
Qed.

Lemma init_cases (expr : string) (start : datetime) :
  (exists st, init expr start = Ok st) \/ raised (init expr start).
Proof.
  unfold init; destruct (negb _); [right; eexists; reflexivity | ].
  repeat match goal with
         | |- context [bind (parse ?f ?s) _] =>
             destruct (parse_cases f s) as [[? ->] | [? ->]]; simpl;
             [ | right; eexists; reflexivity]
         end.
  left; eexists; reflexivity.
Qed.

(** A part that [Field.parse] rejects makes the constructor raise. *)
Lemma init_rejects (expr : string) (start : datetime) (i : nat) (f : Field) :
  nth_error field_order i = Some f ->
  not_ok (parse f (part (split_fields expr) i)) ->
  raised (init expr start).
Proof.
  intros Hi Hbad.
  destruct (init_cases expr start) as [[st H] | H]; [exfalso | exact H].
  apply init_Ok in H as (_ & mi & h & d & m & w & s & H0 & H1 & H2 & H3 & H4
                         & H5 & _).
  do 6 (destruct i as [ | i]; [injection Hi as <-; eapply Hbad; eauto | ]).
  destruct i; discriminate.
Qed.

Lemma split_fields_length (expr : string) :
  List.length (split_fields expr) = 6%nat <->
  List.length (Str.words expr) = 5%nat \/ List.length (Str.words expr) = 6%nat.
Proof.
  unfold split_fields.
  destruct (List.length (Str.words expr) =? 5)%nat eqn:E.
  - apply Nat.eqb_eq in E; rewrite length_app, E; simpl; intuition lia.
  - apply Nat.eqb_neq in E; intuition lia.
Qed.

(** ** Sets are kept in increasing order *)

Lemma item_lt_trans (a b c : item) : item_lt a b -> item_lt b c -> item_lt a c.
Proof.
  unfold item_lt; destruct a as [x | d n], b as [y | d' n'], c as [z | d'' n''];
    simpl; try congruence.
  - rewrite !Z.compare_lt_iff; lia.
  - destruct (d ?= d') eqn:E1, (d' ?= d'') eqn:E2; try discriminate;
      intros H1 H2;
      try apply Z.compare_eq in E1; try apply Z.compare_eq in E2; subst;
      try rewrite Z.compare_lt_iff in *.
    + rewrite Z.compare_refl; apply Z.compare_lt_iff; lia.
    + rewrite (proj2 (Z.compare_lt_iff _ _) E2); reflexivity.
    + rewrite (proj2 (Z.compare_lt_iff _ _) E1); reflexivity.
    + assert (H : d < d'') by lia.
      rewrite (proj2 (Z.compare_lt_iff _ _) H); reflexivity.
Qed.

Lemma item_compare_Gt (a b : item) : item_compare a b = Gt -> item_lt b a.
Proof.
  unfold item_lt; destruct a as [x | d n], b as [y | d' n']; simpl;
    try congruence.
  - intros H; apply Z.compare_gt_iff in H; apply Z.compare_lt_iff; exact H.
  - rewrite (Z.compare_antisym d d').
    destruct (d ?= d') eqn:E; simpl; try congruence.
    intros H; apply Z.compare_gt_iff in H; apply Z.compare_lt_iff; exact H.
Qed.

Lemma add_sorted (x : item) (s : itemset) :
  StronglySorted item_lt s -> StronglySorted item_lt (ISet.add x s).
Proof.
  induction 1 as [ | y t Ht IH Hy]; simpl.
  - constructor; constructor.
  - destruct (item_compare x y) eqn:E.
    + constructor; assumption.
    + constructor; [constructor; assumption | ].
      constructor; [exact E | ].
      eapply Forall_impl; [ | exact Hy].
      intros z Hz; eapply item_lt_trans; eauto.
    + constructor; [exact IH | ].
      apply Forall_forall; intros z Hz; apply In_add in Hz as [-> | Hz].
      * apply item_compare_Gt; exact E.
      * eapply Forall_forall in Hy; eauto.
Qed.

Lemma update_sorted (l : list item) (s : itemset) :
  StronglySorted item_lt s -> StronglySorted item_lt (ISet.update s l).
Proof.
  unfold ISet.update; revert s; induction l as [ | x l IH]; simpl; intros s H.
  - exact H.
  - apply IH, add_sorted, H.
Qed.

Lemma of_list_sorted (l : list item) : StronglySorted item_lt (ISet.of_list l).
Proof. apply update_sorted; constructor. Qed.

Lemma zrange_sorted (k : nat) (a : Z) (i : nat) :
  StronglySorted item_lt (map V (map (fun j => a + Z.of_nat j) (seq i k))).
Proof.
  revert i; induction k as [ | k IH]; simpl; intros i; constructor.
  - apply IH.
  - apply Forall_forall; intros x Hx.
    apply in_map_iff in Hx as (n & <- & Hn).
    apply in_map_iff in Hn as (j & <- & Hj); apply in_seq in Hj.
    unfold item_lt; simpl; apply Z.compare_lt_iff; lia.
Qed.

Lemma RANGES_sorted (f : Field) : StronglySorted item_lt (RANGES f).
Proof. apply zrange_sorted. Qed.

Lemma item_lt_irrefl (a : item) : ~ item_lt a a.
Proof.
  unfold item_lt; intros H.
  rewrite (proj2 (item_compare_eq a a) eq_refl) in H; discriminate.
Qed.

(** Two sets with the same elements are the same list: [ISet.eqb] is the
    equality of sets. *)
Lemma sorted_ext (s t : itemset) :
  StronglySorted item_lt s -> StronglySorted item_lt t ->
  (forall x, In x s <-> In x t) -> s = t.
Proof.
  intros Hs; revert t; induction Hs as [ | x s Hs IH Hx]; intros t Ht Hst.
  - destruct t as [ | y t]; [reflexivity | ].
    exfalso; apply (proj2 (Hst y)); left; reflexivity.
  - destruct Ht as [ | y t Ht Hy].
    { exfalso; apply (proj1 (Hst x)); left; reflexivity. }
    assert (Exy : x = y).
    { destruct (proj1 (Hst x) (or_introl eq_refl)) as [E | Hin]; [auto | ].
      destruct (proj2 (Hst y) (or_introl eq_refl)) as [E | Hin']; [auto | ].
      exfalso; eapply Forall_forall in Hx; [ | exact Hin'].
      eapply Forall_forall in Hy; [ | exact Hin].
      apply (item_lt_irrefl x); eapply item_lt_trans; eauto. }
    subst y; f_equal; apply IH; [exact Ht | ].
    intros z; split; intros Hz.
    + destruct (proj1 (Hst z) (or_intror Hz)) as [E | H]; [ | exact H].
      subst z; eapply Forall_forall in Hx; [ | exact Hz].
      exfalso; apply (item_lt_irrefl x); exact Hx.
    + destruct (proj2 (Hst z) (or_intror Hz)) as [E | H]; [ | exact H].
      subst z; eapply Forall_forall in Hy; [ | exact Hz].
      exfalso; apply (item_lt_irrefl x); exact Hy.
Qed.

Section ParseSorted.

Variable f : Field.
Variable self_parse : string -> outcome itemset.
Hypothesis self_sorted :
  forall s r, self_parse s = Ok r -> StronglySorted item_lt r.

Lemma parse_terms_sorted (terms : list string) (acc r : itemset) :
  parse_terms self_parse terms acc = Ok r ->
  StronglySorted item_lt acc -> StronglySorted item_lt r.
Proof.
  revert acc; induction terms as [ | t ts IH]; simpl; intros acc H Hacc.
  - injection H as <-; exact Hacc.
  - bind_inv H; apply (IH _ H), update_sorted, Hacc.
Qed.

Lemma parse_body_sorted (s : string) (r : itemset) :
  parse_body self_parse f s = Ok r -> StronglySorted item_lt r.
Proof.
  unfold parse_body.
  destruct (String.eqb s "*").
  { intros H; injection H as <-; apply RANGES_sorted. }
  destruct (Str.contains "," s).
  { intros H; eapply parse_terms_sorted; [exact H | constructor]. }
  destruct (Str.contains "#" s && Field_eqb f DOW).
  { destruct (Str.split1 "#" s) as [[term nth] | ]; [ | discriminate].
    intros H; bind_inv H; bind_inv H; injection H as <-.
    repeat constructor. }
  destruct (Str.contains "/" s).
  { destruct (Str.split1 "/" s) as [[term step] | ]; [ | discriminate].
    intros H; bind_inv H; bind_inv H; bind_inv H.
    apply sorted_Ok in E1; subst.
    unfold step_items in H; destruct (ISet.eqb _ _).
    { injection H as <-; eauto. }
    destruct a0 as [ | [start | d n] [ | y ys]]; try discriminate;
      injection H as <-; apply of_list_sorted. }
  destruct (Str.contains "-" s).
  { destruct (Str.split1 "-" s) as [[a b] | ]; [ | discriminate].
    intros H; bind_inv H; bind_inv H.
    destruct (_ <? _); [discriminate | ].
    injection H as <-; apply of_list_sorted. }
  destruct (Field_eqb f DAY && _).
  { intros H; injection H as <-; repeat constructor. }
  intros H; bind_inv H; injection H as <-; repeat constructor.
Qed.

End ParseSorted.

Lemma parse_sorted (f : Field) (s : string) (r : itemset) :
  parse f s = Ok r -> StronglySorted item_lt r.
Proof.
  unfold parse; generalize 3%nat; intros n; revert s r.
  induction n as [ | n IH]; simpl; intros s r H; [discriminate | ].
  eapply parse_body_sorted; [exact IH | exact H].
Qed.

(** ** Terms the grammar rejects *)

Lemma not_ok_bind {A B : Type} (m : outcome A) (k : A -> outcome B) :
  not_ok m \/ (forall a, m = Ok a -> not_ok (k a)) -> not_ok (bind m k).
Proof.
  intros [H | H] b Hb; apply bind_Ok in Hb as (a & Ha & Hb).
  - exact (H a Ha).
  - exact (H a Ha b Hb).
Qed.

Lemma not_ok_Raise {A : Type} (e : exn) : not_ok (@Raise A e).
Proof. intros a; discriminate. Qed.

Lemma not_ok_OutOfFuel {A : Type} : not_ok (@OutOfFuel A).
Proof. intros a; discriminate. Qed.

Lemma not_ok_raised {A : Type} (m : outcome A) :
  not_ok m -> m <> OutOfFuel -> raised m.
Proof.
  destruct m as [a | e | ]; intros H1 H2.
  - exfalso; exact (H1 a eq_refl).
  - exists e; reflexivity.
  - congruence.
Qed.

Lemma parse_terms_not_ok (p : string -> outcome itemset)
    (terms : list string) (t : string) (acc : itemset) :
  In t terms -> not_ok (p t) -> not_ok (parse_terms p terms acc).
Proof.
  intros Hin Hbad; revert acc; induction terms as [ | u us IH]; simpl;
    intros acc; [contradiction | ].
  apply not_ok_bind; destruct Hin as [-> | Hin]; [left; exact Hbad | right].
  intros r _; apply IH; exact Hin.
Qed.

Lemma not_star (c : ascii) (s : string) :
  Str.contains c s = true -> Str.contains c "*" = false ->
  String.eqb s "*" = false.
Proof.
  intros H1 H2; destruct (String.eqb s "*") eqn:E; [ | reflexivity].
  apply String.eqb_eq in E; subst; congruence.
Qed.

Lemma all_digits_contains (c : ascii) (s : string) :
  Str.is_digit c = false -> Str.contains c s = true ->
  Str.all_digits s = false.
Proof.
  intros Hc; induction s as [ | a t IH]; simpl; intros H; [discriminate | ].
  destruct (Ascii.eqb a c) eqn:E.
  - apply Ascii.eqb_eq in E; subst; rewrite Hc; reflexivity.
  - rewrite (IH H); apply andb_false_r.
Qed.

Lemma isdigit_contains (c : ascii) (s : string) :
  Str.is_digit c = false -> Str.contains c s = true -> Str.isdigit s = false.
Proof.
  intros Hc H; destruct s; [reflexivity | ].
  apply (all_digits_contains c); assumption.
Qed.

Lemma _int_hash (s : string) (m : Z) :
  Str.contains "#" s = true -> not_ok (_int s m).
Proof.
  intros H; unfold _int.
  rewrite (isdigit_contains "#" s eq_refl H); simpl; apply not_ok_Raise.
Qed.

Lemma upper_hash (s : string) :
  Str.contains "#" s = true -> Str.contains "#" (Str.upper s) = true.
Proof.
  induction s as [ | a t IH]; simpl; intros H; [discriminate | ].
  destruct (Ascii.eqb a "#") eqn:E.
  - apply Ascii.eqb_eq in E; subst; reflexivity.
  - rewrite (IH H); apply orb_true_r.
Qed.

Lemma index_of_hash (s : string) (l : list string) :
  Forall (fun t => Str.contains "#" t = false) l ->
  Str.contains "#" s = true -> Str.index_of s l = None.
Proof.
  intros Hl Hs; destruct (Str.index_of s l) as [i | ] eqn:E; [ | reflexivity].
  apply index_of_In in E; eapply Forall_forall in Hl; [ | exact E].
  congruence.
Qed.

Lemma Field_int_hash (f : Field) (s : string) :
  Str.contains "#" s = true -> not_ok (Field_int f s).
Proof.
  intros H; unfold Field_int.
  rewrite !index_of_hash;
    try (apply upper_hash; exact H);
    try (repeat constructor).
  destruct (Field_eqb f MONTH), (Field_eqb f DOW);
    apply not_ok_bind; left; apply _int_hash; exact H.
Qed.

Lemma hash_rejected (f : Field) (n : nat) (s : string) :
  f <> DOW -> Str.contains "#" s = true -> not_ok (parse_fuel n f s).
Proof.
  intros Hf; revert s; induction n as [ | n IH]; intros s H; simpl.
  { apply not_ok_OutOfFuel. }
  unfold parse_body.
  rewrite (not_star "#" s H eq_refl).
  destruct (Str.contains "," s).
  { destruct (proj1 (Exists_exists _ _) (split_some "," "#" s eq_refl H))
      as (t & Hin & Ht).
    eapply parse_terms_not_ok; [exact Hin | apply IH; exact Ht]. }
  replace (Field_eqb f DOW) with false by (destruct f; simpl; congruence).
  rewrite andb_false_r.
  destruct (Str.contains "/" s).
  { destruct (Str.split1 "/" s) as [[term step] | ] eqn:E;
      [ | apply not_ok_Raise].
    destruct (split1_some _ "#" _ _ _ E eq_refl H) as [Ht | Ht].
    - apply not_ok_bind; right; intros k _.
      apply not_ok_bind; left; apply IH; exact Ht.
    - apply not_ok_bind; left; apply _int_hash; exact Ht. }
  destruct (Str.contains "-" s).
  { destruct (Str.split1 "-" s) as [[a b] | ] eqn:E; [ | apply not_ok_Raise].
    destruct (split1_some _ "#" _ _ _ E eq_refl H) as [Ht | Ht].
    - apply not_ok_bind; left; apply Field_int_hash; exact Ht.
    - apply not_ok_bind; right; intros x _.
      apply not_ok_bind; left; apply Field_int_hash; exact Ht. }
  destruct (Field_eqb f DAY && _) eqn:El.
  { apply andb_true_iff in El as [_ El]; apply orb_true_iff in El.
    destruct El as [El | El]; apply String.eqb_eq in El; subst; discriminate. }
  apply not_ok_bind; left; apply Field_int_hash; exact H.
Qed.

Lemma malformed_not_ok (f : Field) (s : string) :
  malformed f s -> forall n, not_ok (parse_fuel n f s).
Proof.
  induction 1 as [f s a b x y Hc Hh Hs E Ea Eb Hlt
                 | f s Hf Hh
                 | s term nth Hc E Hd Hlt
                 | f s Hf Hs
                 | f s t Hc Hin _ IH
                 | f s term step Hc Hh E _ IH];
    intros [ | n]; try apply not_ok_OutOfFuel; simpl; unfold parse_body.
  - rewrite (not_star "-" s (split1_defined_conv _ _ _ _ E) eq_refl).
    rewrite Hc, Hh, Hs, (split1_defined_conv _ _ _ _ E), E, Ea, Eb; simpl.
    rewrite (proj2 (Z.ltb_lt y x) Hlt); apply not_ok_Raise.
  - apply (hash_rejected f (S n) s Hf Hh).
  - pose proof (split1_defined_conv _ _ _ _ E) as Hh.
    rewrite (not_star "#" s Hh eq_refl), Hc, Hh, E; simpl.
    apply not_ok_bind; left; unfold _int; rewrite Hd; simpl.
    destruct (2 <? String.length nth)%nat; [apply not_ok_Raise | ].
    rewrite (proj2 (Z.ltb_lt _ _) Hlt); apply not_ok_Raise.
  - destruct Hs as [-> | ->]; destruct f; try congruence; simpl;
      apply not_ok_Raise.
  - rewrite (not_star "," s Hc eq_refl), Hc.
    eapply parse_terms_not_ok; [exact Hin | apply IH].
  - pose proof (split1_defined_conv _ _ _ _ E) as Hs.
    rewrite (not_star "/" s Hs eq_refl), Hc, Hh, Hs, E.
    apply not_ok_bind; right; intros k _.
    apply not_ok_bind; left; apply IH.
Qed.

(** ** Claims about compilation *)



(** C10.  [Field.parse] never returns an empty set, and an object that the
    constructor built has non-empty minute, hour, month and second sets and
    at most one empty set among days and weekdays. *)
Theorem compiled_sets_nonempty :
  (forall f s r, parse f s = Ok r -> r <> [])
  /\ (forall expr start st,
        init expr start = Ok st ->
        ~ (days st = [] /\ weekdays st = [])
        /\ minutes st <> [] /\ hours st <> [] /\ months st <> []
        /\ seconds st <> []).
Proof.
  split.
  { intros f s r H; apply parse_good in H as [H _]; exact H. }
  intros expr start st H; apply init_Ok in H.
  destruct H as (_ & mi & h & d & m & w & s & Hmi & Hh & Hd & Hm & Hw & Hs & ->).
  apply parse_good in Hmi as [Hmi _], Hh as [Hh _], Hd as [Hd _],
    Hm as [Hm _], Hw as [Hw _], Hs as [Hs _].
  simpl; repeat split; try assumption.
  intros [H1 H2].
  destruct (ISet.eqb d (RANGES DAY)) eqn:Ed,
    (ISet.eqb w (RANGES DOW)) eqn:Ew; simpl in *;
    try rewrite Ed in *; simpl in *; try congruence.
Qed.

Lemma compiled_sets_nonempty_witness :
  exists st,
    init "* * * * 1" (datetime_of 2020 1 1 0 0 0) = Ok st
    /\ ~ (days st = [] /\ weekdays st = [])
    /\ minutes st <> [] /\ hours st <> [] /\ months st <> []
    /\ seconds st <> [].
Proof.
  eexists; split; [vm_compute; reflexivity | ].
  apply (proj2 compiled_sets_nonempty "* * * * 1" (datetime_of 2020 1 1 0 0 0)).
  vm_compute; reflexivity.
Defined.

(** C6.  After the six fields are parsed: a day set equal to the whole
    domain, next to a weekday set that is not, is replaced by the empty
    set; a weekday set equal to the whole domain, next to a day set that is
    not, is replaced by the empty set; when both or neither equal their
    domain, both stay as parsed.  Equality with the domain is equality of
    sets.  "* * * * 1" gives days {} and weekdays {1}; "* * 1 * *" gives
    days {1} and weekdays {}. *)
Theorem disjunction_rule :
  (forall expr start st,
     init expr start = Ok st ->
     exists d w,
       parse DAY (part (split_fields expr) 2) = Ok d
       /\ parse DOW (part (split_fields expr) 4) = Ok w
       /\ (d = RANGES DAY <-> forall x, In x d <-> In x (RANGES DAY))
       /\ (w = RANGES DOW <-> forall x, In x w <-> In x (RANGES DOW))
       /\ (d = RANGES DAY -> w <> RANGES DOW ->
           days st = [] /\ weekdays st = w)
       /\ (w = RANGES DOW -> d <> RANGES DAY ->
           days st = d /\ weekdays st = [])
       /\ ((d = RANGES DAY <-> w = RANGES DOW) ->
           days st = d /\ weekdays st = w))
  /\ (forall start, exists st,
        init "* * * * 1" start = Ok st
        /\ days st = [] /\ weekdays st = [V 1])
  /\ (forall start, exists st,
        init "* * 1 * *" start = Ok st
        /\ days st = [V 1] /\ weekdays st = []).
Proof.
  split; [ | split].
  - intros expr start st H; apply init_Ok in H.
    destruct H as (_ & mi & h & d & m & w & s & _ & _ & Hd & _ & Hw & _ & ->).
    exists d, w; cbn [days weekdays].
    split; [exact Hd | ]; split; [exact Hw | ].
    split; [ | split].
    { split; [intros -> x; reflexivity | ].
      apply sorted_ext; [eapply parse_sorted; eauto | apply RANGES_sorted]. }
    { split; [intros -> x; reflexivity | ].
      apply sorted_ext; [eapply parse_sorted; eauto | apply RANGES_sorted]. }
    destruct (ISet.eqb d (RANGES DAY)) eqn:Ed,
      (ISet.eqb w (RANGES DOW)) eqn:Ew; cbn [andb negb];
      try rewrite Ed; cbn [andb negb];
      pose proof (eqb_eq d (RANGES DAY)) as Pd;
      pose proof (eqb_eq w (RANGES DOW)) as Pw;
      rewrite Ed in Pd; rewrite Ew in Pw;
      repeat split; intros; try reflexivity; exfalso; intuition congruence.
  - intros start; eexists; split; [reflexivity | split; reflexivity].
  - intros start; eexists; split; [reflexivity | split; reflexivity].
Qed.

Lemma disjunction_rule_witness :
  exists st d w,
    init "* * * * 1" (datetime_of 2020 1 1 0 0 0) = Ok st
    /\ parse DAY "*" = Ok d /\ parse DOW "1" = Ok w
    /\ days st = [] /\ weekdays st = w.
Proof.
  destruct (proj1 disjunction_rule "* * * * 1" (datetime_of 2020 1 1 0 0 0)
              _ eq_refl)
    as (d & w & Hd & Hw & _ & _ & H & _ & _).
  eexists; exists d, w.
  split; [reflexivity | ]; split; [exact Hd | ]; split; [exact Hw | ].
  apply H.
  - vm_compute in Hd; injection Hd as <-; reflexivity.
  - vm_compute in Hw; injection Hw as <-; discriminate.
Defined.

(** C9.  On ASCII text the constructor raises, and so builds no object,
    for an expression of four or seven parts and for an expression one of
    whose parts is [malformed]: a range whose end is below its start, a [#]
    on a field other than day-of-week, an ordinal below one after [#], an
    [L] on a field other than day-of-month. *)
Theorem malformed_rejected :
  (forall f s, ascii_text s = true -> malformed f s -> raised (parse f s))
  /\ (forall expr start,
        ascii_text expr = true ->
        List.length (Str.words expr) = 4%nat
        \/ List.length (Str.words expr) = 7%nat ->
        raised (init expr start))
  /\ (forall expr start i f,
        ascii_text expr = true ->
        nth_error field_order i = Some f ->
        malformed f (part (split_fields expr) i) ->
        raised (init expr start)).
Proof.
  split; [ | split].
  - intros f s _ H; apply not_ok_raised; [ | apply parse_definite].
    apply (malformed_not_ok f s H 3).
  - intros expr start _ H.
    assert (E : List.length (split_fields expr) <> 6%nat).
    { rewrite split_fields_length; lia. }
    unfold init; apply Nat.eqb_neq in E; rewrite E.
    exists wrong_field_count; reflexivity.
  - intros expr start i f _ Hi H; apply (init_rejects expr start i f Hi).
    apply (malformed_not_ok _ _ H 3).
Qed.

Lemma malformed_rejected_witness :
  raised (parse MINUTE "5-3")
  /\ raised (init "* * * *" (datetime_of 2020 1 1 0 0 0))
  /\ raised (init "* * * * * * *" (datetime_of 2020 1 1 0 0 0))
  /\ raised (init "30-10 * * * *" (datetime_of 2020 1 1 0 0 0))
  /\ raised (init "* 1#2 * * *" (datetime_of 2020 1 1 0 0 0))
  /\ raised (init "* * * * 1#0" (datetime_of 2020 1 1 0 0 0))
  /\ raised (init "* * * L *" (datetime_of 2020 1 1 0 0 0))
  /\ raised (init "* * * * 1,5-2/2" (datetime_of 2020 1 1 0 0 0)).
Proof.
  destruct malformed_rejected as (Hparse & Hcount & Hpart).
  split; [ | split; [ | split; [ | split; [ | split; [ | split; [ | split]]]]]].
  - apply Hparse; [reflexivity | ].
    apply (mal_range MINUTE "5-3" "5" "3" 5 3); try reflexivity; lia.
  - apply Hcount; [reflexivity | left; reflexivity].
  - apply Hcount; [reflexivity | right; reflexivity].
  - apply Hpart with (i := 0%nat) (f := MINUTE); [reflexivity | reflexivity | ].
    apply (mal_range MINUTE "30-10" "30" "10" 30 10); try reflexivity; lia.
  - apply Hpart with (i := 1%nat) (f := HOUR); [reflexivity | reflexivity | ].
    apply mal_hash; [discriminate | reflexivity].
  - apply Hpart with (i := 4%nat) (f := DOW); [reflexivity | reflexivity | ].
    apply (mal_nth "1#0" "1" "0"); try reflexivity; simpl; lia.
  - apply Hpart with (i := 3%nat) (f := MONTH); [reflexivity | reflexivity | ].
    apply mal_last; [discriminate | left; reflexivity].
  - apply Hpart with (i := 4%nat) (f := DOW); [reflexivity | reflexivity | ].
    apply (mal_comma DOW "1,5-2/2" "5-2/2");
      [reflexivity | right; left; reflexivity | ].
    apply (mal_step DOW "5-2/2" "5-2" "2"); try reflexivity.
    apply (mal_range DOW "5-2" "5" "2" 5 2); try reflexivity; lia.
Defined.

(** ** The step construct *)

Lemma nth_error_zrange (a b : Z) (i : nat) :
  nth_error (map V (zrange a b)) i
  = if Z.of_nat i <? b - a then Some (V (a + Z.of_nat i)) else None.
Proof.
  unfold zrange; rewrite !nth_error_map.
  destruct (Z.of_nat i <? b - a) eqn:E.
  - apply Z.ltb_lt in E.
    rewrite (nth_error_nth' _ 0%nat) by (rewrite length_seq; lia).
    rewrite seq_nth by lia; reflexivity.
  - apply Z.ltb_ge in E.
    rewrite (proj2 (nth_error_None _ _)); [reflexivity | ].
    rewrite length_seq; lia.
Qed.

Lemma In_slice_step {A : Type} (step : Z) (l : list A) (x : A) :
  1 <= step ->
  In x (slice_step step l) <->
  exists k : nat, nth_error l (k * Z.to_nat step) = Some x.
Proof.
  intros Hs; split.
  - intros H; apply In_nth_error in H as [k Hk]; exists k.
    rewrite <- nth_error_slice_step by exact Hs; exact Hk.
  - intros [k Hk]; rewrite <- nth_error_slice_step in Hk by exact Hs.
    eapply nth_error_In; exact Hk.
Qed.

(** The set that [Field.parse] gives for a term without comma, slash and,
    on the day-of-week field, [#] holds integers only: [sorted] and [range]
    in the step branch never meet a pair. *)
Lemma parse_body_ints (p : string -> outcome itemset) (f : Field)
    (t : string) (items : itemset) :
  Str.contains "," t = false -> Str.contains "/" t = false ->
  Str.contains "#" t && Field_eqb f DOW = false ->
  parse_body p f t = Ok items -> forallb ISet.is_int items = true.
Proof.
  intros Hc Hs Hh; unfold parse_body; rewrite Hc, Hh, Hs.
  destruct (String.eqb t "*").
  { intros H; injection H as <-; apply forallb_forall.
    intros x Hx; apply In_RANGES in Hx as (n & -> & _); reflexivity. }
  destruct (Str.contains "-" t).
  { destruct (Str.split1 "-" t) as [[a b] | ]; [ | discriminate].
    intros H; bind_inv H; bind_inv H.
    destruct (_ <? _); [discriminate | ].
    injection H as <-; apply forallb_forall; intros x Hx.
    rewrite In_of_list, in_map_iff in Hx; destruct Hx as (n & <- & _).
    reflexivity. }
  destruct (Field_eqb f DAY && _).
  { intros H; injection H as <-; reflexivity. }
  intros H; bind_inv H; injection H as <-; reflexivity.
Qed.

(** C7.  On ASCII text, a term [term/step] outside a comma list needs a
    step of one or two digits that is at least 1, and it is accepted
    whenever the step is such a number and [Field.parse] accepts the term;
    an error of the step or of the term is the error of the whole.  When
    it is accepted: a term that parsed to the last-day sentinel alone is
    returned as it is; a term that parsed to a single value [start] gives
    the values [start + k * step] up to the maximum of the field; any
    other term gives the elements of its increasingly sorted set found at
    the indices [0], [step], [2 * step], ...  For minutes, "*/15", "5/15"
    and "0-10/2" give {0,15,30,45}, {5,20,35,50} and {0,2,4,6,8,10}. *)
Theorem step_construct :
  (forall f s term step,
     ascii_text s = true ->
     String.eqb s "*" = false ->
     Str.contains "," s = false ->
     Str.contains "#" s && Field_eqb f DOW = false ->
     Str.split1 "/" s = Some (term, step) ->
     (forall e, _int step 1 = Raise e -> parse f s = Raise e)
     /\ (forall r,
           parse f s = Ok r ->
           exists n items,
             _int step 1 = Ok n /\ 1 <= n
             /\ parse f term = Ok items
             /\ StronglySorted item_lt items
             /\ (items = [V LAST] -> r = [V LAST])
             /\ (forall start,
                   items = [V start] -> start <> LAST ->
                   forall x,
                     In x r <->
                     exists k, 0 <= k /\ start + k * n <= range_max f
                               /\ x = V (start + k * n))
             /\ ((2 <= List.length items)%nat ->
                 forall x,
                   In x r <->
                   exists k : nat,
                     nth_error items (k * Z.to_nat n) = Some x))
     /\ (forall n e,
           _int step 1 = Ok n -> parse f term = Raise e ->
           parse f s = Raise e)
     /\ (forall n items,
           _int step 1 = Ok n -> parse f term = Ok items ->
           exists r, parse f s = Ok r))
  /\ parse MINUTE "*/15" = Ok [V 0; V 15; V 30; V 45]
  /\ parse MINUTE "5/15" = Ok [V 5; V 20; V 35; V 50]
  /\ parse MINUTE "0-10/2" = Ok [V 0; V 2; V 4; V 6; V 8; V 10].
Proof.
  split; [ | repeat split].
  intros f s term step _ Hstar Hc Hh E.
  assert (Hs : Str.contains "/" s = true)
    by (eapply split1_defined_conv; exact E).
  assert (Hbody : parse f s =
                  (step' <- _int step 1 ;;
                   parsed <- parse f term ;;
                   items <- ISet.sorted parsed ;;
                   step_items f step' items)).
  { change (parse f s) with (parse_body (parse_fuel 2 f) f s).
    unfold parse_body; rewrite Hstar, Hc, Hh, Hs, E.
    rewrite parse_fuel_2; [reflexivity | ].
    destruct (split1_left _ "," _ _ _ E Hc) as [H _]; exact H. }
  split.
  { intros e He; rewrite Hbody, He; reflexivity. }
  split; [ | split].
  2:{ intros n e Hn He; rewrite Hbody, Hn, He; reflexivity. }
  2:{ intros n items Hn Hitems; rewrite Hbody, Hn, Hitems; cbn [bind].
      assert (Hints : forallb ISet.is_int items = true).
      { destruct (split1_left _ "," _ _ _ E Hc) as [Hct _].
        apply (parse_body_ints (parse_fuel 2 f) f term).
        - exact Hct.
        - eapply split1_no_sep; exact E.
        - destruct (Field_eqb f DOW); [ | apply andb_false_r].
          rewrite andb_true_r in *.
          destruct (split1_left _ "#" _ _ _ E Hh) as [Hht _]; exact Hht.
        - exact Hitems. }
      unfold ISet.sorted; rewrite Hints, orb_true_r; cbn [orb bind].
      unfold step_items; destruct (ISet.eqb items [V LAST]); [eauto | ].
      destruct items as [ | [start | d k] [ | y ys]]; eauto.
      discriminate Hints. }
  intros r H; rewrite Hbody in H.
  bind_inv H; bind_inv H; bind_inv H.
  apply sorted_Ok in E2; subst a1.
  rename a into n, a0 into items.
  pose proof (_int_Ok _ _ _ E0) as [Hn _].
  exists n, items.
  split; [exact E0 | ]; split; [exact Hn | ]; split; [exact E1 | ].
  split; [eapply parse_sorted; exact E1 | ].
  unfold step_items in H.
  split; [ | split].
  - intros ->; simpl in H; congruence.
  - intros start -> Hstart x.
    replace (ISet.eqb [V start] [V LAST]) with false in H.
    2:{ symmetry; apply eqb_neq; congruence. }
    injection H as <-.
    rewrite In_of_list, In_slice_step by exact Hn; split.
    + intros [k Hk]; rewrite nth_error_zrange in Hk.
      destruct (_ <? _) eqn:El; [ | discriminate].
      apply Z.ltb_lt in El; injection Hk as <-.
      exists (Z.of_nat k); split; [lia | ].
      rewrite Nat2Z.inj_mul, Z2Nat.id in * by lia.
      split; [lia | reflexivity].
    + intros (k & Hk & Hle & ->); exists (Z.to_nat k).
      rewrite nth_error_zrange.
      rewrite Nat2Z.inj_mul, !Z2Nat.id by lia.
      replace (k * n <? range_max f + 1 - start) with true;
        [reflexivity | symmetry; apply Z.ltb_lt; lia].
  - intros Hlen x.
    replace (ISet.eqb items [V LAST]) with false in H.
    2:{ symmetry; apply eqb_neq; intros ->; simpl in Hlen; lia. }
    destruct items as [ | [start | d k] [ | y ys]];
      try (simpl in Hlen; lia);
      injection H as <-;
      rewrite In_of_list, In_slice_step by exact Hn; reflexivity.
Qed.

Lemma step_construct_witness :
  exists n items,
    _int "2" 1 = Ok n /\ 1 <= n
    /\ parse MINUTE "0-10" = Ok items
    /\ (In (V 4) [V 0; V 2; V 4; V 6; V 8; V 10] <->
        exists k : nat, nth_error items (k * Z.to_nat n) = Some (V 4)).
Proof.
  destruct (proj1 (proj2 (proj1 step_construct MINUTE "0-10/2" "0-10" "2"
                            eq_refl eq_refl eq_refl eq_refl eq_refl))
              [V 0; V 2; V 4; V 6; V 8; V 10] eq_refl)
    as (n & items & Hn & Hle & Hitems & _ & _ & _ & Hmany).
  exists n, items.
  split; [exact Hn | ]; split; [exact Hle | ]; split; [exact Hitems | ].
  apply Hmany.
  vm_compute in Hitems; injection Hitems as <-; simpl; lia.
Defined.

(** ** Minima *)

Lemma fold_min_le (l : list Z) (x : Z) :
  fold_left Z.min l x <= x /\ forall w, In w l -> fold_left Z.min l x <= w.
Proof.
  revert x; induction l as [ | y t IH]; simpl; intros x.
  - split; [lia | tauto].
  - destruct (IH (Z.min x y)) as [H1 H2]; split; [lia | ].
    intros w [<- | Hw]; [lia | auto].
Qed.

Lemma fold_min_In (l : list Z) (x : Z) :
  fold_left Z.min l x = x \/ In (fold_left Z.min l x) l.
Proof.
  revert x; induction l as [ | y t IH]; simpl; intros x; [auto | ].
  destruct (IH (Z.min x y)) as [H | H]; [ | auto].
  rewrite H; destruct (Z.min_spec x y) as [[_ ->] | [_ ->]]; auto.
Qed.

Lemma zmin_Ok (l : list Z) (v : Z) :
  ISet.zmin l = Ok v -> In v l /\ forall w, In w l -> v <= w.
Proof.
  destruct l as [ | x t]; simpl; intros H; [discriminate | ].
  injection H as <-; split.
  - destruct (fold_min_In t x) as [-> | H]; auto.
  - destruct (fold_min_le t x) as [H1 H2]; intros w [<- | Hw]; auto.
Qed.

Lemma In_ints (s : itemset) (n : Z) : In n (ISet.ints s) <-> In (V n) s.
Proof.
  unfold ISet.ints; rewrite in_flat_map; split.
  - intros ([m | d k] & Hx & Hn); simpl in Hn; [ | tauto].
    destruct Hn as [<- | []]; exact Hx.
  - intros H; exists (V n); split; [exact H | left; reflexivity].
Qed.

Lemma ints_in_is_int (m : Z) (s : itemset) :
  ints_in m s -> forallb ISet.is_int s = true.
Proof.
  intros H; apply forallb_forall; intros x Hx.
  eapply Forall_forall in H; [ | exact Hx].
  destruct H as (n & -> & _); reflexivity.
Qed.

Lemma ints_in_V (m : Z) (s : itemset) (n : Z) :
  ints_in m s -> In (V n) s -> 0 <= n < m.
Proof.
  intros H Hn; eapply Forall_forall in H; [ | exact Hn].
  destruct H as (k & E & Hk); injection E as ->; exact Hk.
Qed.

Lemma ints_nonempty (m : Z) (s : itemset) :
  ints_in m s -> s <> [] -> exists n, In n (ISet.ints s).
Proof.
  intros H Hne; apply nonempty_In in Hne as [x Hx].
  pose proof Hx as Hx'; eapply Forall_forall in Hx'; [ | exact H].
  destruct Hx' as (n & -> & _); exists n; apply In_ints; exact Hx.
Qed.

(** [min(s)] on a compiled set *)
Lemma min_spec (m : Z) (s : itemset) :
  ints_in m s -> s <> [] ->
  exists v, ISet.min s = Ok v /\ In (V v) s /\ 0 <= v < m
            /\ forall w, In (V w) s -> v <= w.
Proof.
  intros H Hne; unfold ISet.min; rewrite (ints_in_is_int m s H).
  destruct (ints_nonempty m s H Hne) as [n Hn].
  destruct (ISet.ints s) as [ | x t] eqn:E; [contradiction | ].
  rewrite <- E; destruct (ISet.zmin (ISet.ints s)) as [v | | ] eqn:Ez;
    try (rewrite E in Ez; discriminate).
  apply zmin_Ok in Ez as [Hv Hmin]; exists v.
  rewrite In_ints in Hv; split; [reflexivity | ]; split; [exact Hv | ].
  split; [eapply ints_in_V; eauto | ].
  intros w Hw; apply Hmin, In_ints; exact Hw.
Qed.

(** [min((v - cur) % m for v in s)] on a compiled set that lacks [cur] *)
Lemma min_delta_spec (m cur : Z) (s : itemset) :
  ints_in m s -> s <> [] -> 0 <= cur < m -> ISet.mem (V cur) s = false ->
  exists delta,
    min_delta m cur s = Ok delta /\ 1 <= delta < m
    /\ forall w, In (V w) s -> delta <= (w - cur) mod m.
Proof.
  intros H Hne Hcur Hmem; unfold min_delta; rewrite (ints_in_is_int m s H).
  destruct (ints_nonempty m s H Hne) as [n Hn].
  destruct (map _ (ISet.ints s)) as [ | x t] eqn:E.
  { apply map_eq_nil in E; rewrite E in Hn; contradiction. }
  rewrite <- E.
  destruct (ISet.zmin (map _ (ISet.ints s))) as [v | | ] eqn:Ez;
    try (rewrite E in Ez; discriminate).
  apply zmin_Ok in Ez as [Hv Hmin]; exists v.
  split; [reflexivity | ].
  apply in_map_iff in Hv as (w & <- & Hw); apply In_ints in Hw.
  split.
  - pose proof (ints_in_V _ _ _ H Hw) as Hr.
    assert (w <> cur).
    { intros ->; apply mem_false in Hmem; contradiction. }
    pose proof (Z.mod_pos_bound (w - cur) m ltac:(lia)).
    assert ((w - cur) mod m <> 0); [ | lia].
    intros E0; pose proof (Z.div_mod (w - cur) m ltac:(lia)) as D.
    rewrite E0 in D; set (q := (w - cur) / m) in *.
    assert (Hq : q = 0 \/ q <= -1 \/ 1 <= q) by lia.
    destruct Hq as [Hq | [Hq | Hq]]; nia.
  - intros u Hu; apply Hmin, in_map_iff; exists u; split; [reflexivity | ].
    apply In_ints; exact Hu.
Qed.

(** ** Instants *)

Lemma add_seconds_Ok (d d' : datetime) (k : Z) :
  valid_datetime d -> 0 <= k -> add_seconds d k = Ok d' ->
  valid_datetime d' /\ seconds_of d' = seconds_of d + k
  /\ microsecond d' = microsecond d /\ tzinfo d' = tzinfo d.
Proof.
  unfold valid_datetime, add_seconds, seconds_of.
  intros (Ho & Hh & Hm & Hs & Hu) Hk.
  set (total := hour d * 3600 + minute d * 60 + second d + k).
  destruct (_ && _) eqn:E; [ | discriminate].
  intros H; injection H as <-; simpl.
  apply andb_true_iff in E as [E1 E2].
  apply Z.ltb_lt in E1; apply Z.leb_le in E2.
  assert (Ht : 0 <= total) by (unfold total; lia).
  pose proof (Z.div_mod total 86400 ltac:(lia)) as D1.
  pose proof (Z.mod_pos_bound total 86400 ltac:(lia)) as B1.
  set (secs := total mod 86400) in *.
  pose proof (Z.div_mod secs 3600 ltac:(lia)) as D2.
  pose proof (Z.mod_pos_bound secs 3600 ltac:(lia)) as B2.
  set (rem := secs mod 3600) in *.
  pose proof (Z.div_mod rem 60 ltac:(lia)) as D3.
  pose proof (Z.mod_pos_bound rem 60 ltac:(lia)) as B3.
  assert (0 <= total / 86400) by (apply Z.div_pos; lia).
  assert (0 <= secs / 3600 < 24).
  { split; [apply Z.div_pos; lia | apply Z.div_lt_upper_bound; lia]. }
  assert (0 <= rem / 60 < 60).
  { split; [apply Z.div_pos; lia | apply Z.div_lt_upper_bound; lia]. }
  repeat split; try lia.
Qed.

Lemma add_seconds_defined (d t : datetime) (k : Z) :
  valid_datetime d -> 0 <= k -> valid_datetime t ->
  seconds_of d + k <= seconds_of t ->
  exists d', add_seconds d k = Ok d'.
Proof.
  unfold valid_datetime, add_seconds, seconds_of.
  intros (Ho & Hh & Hm & Hs & Hu) Hk (Ho' & Hh' & Hm' & Hs' & Hu') Hle.
  set (total := hour d * 3600 + minute d * 60 + second d + k) in *.
  assert (Ht : 0 <= total) by (unfold total; lia).
  pose proof (Z.div_mod total 86400 ltac:(lia)) as D1.
  pose proof (Z.mod_pos_bound total 86400 ltac:(lia)) as B1.
  assert (0 <= total / 86400) by (apply Z.div_pos; lia).
  replace ((0 <? _) && _) with true; [eexists; reflexivity | ].
  symmetry; apply andb_true_iff; split; [apply Z.ltb_lt | apply Z.leb_le];
    unfold total in *; lia.
Qed.

Lemma replace_time_Ok (d : datetime) (mm ss : Z) :
  0 <= mm < 60 -> 0 <= ss < 60 ->
  replace_time d mm ss
  = Ok (mkdatetime (ordinal d) (hour d) mm ss (microsecond d) (tzinfo d)).
Proof.
  intros Hm Hs; unfold replace_time.
  replace (_ && _ && _ && _) with true; [reflexivity | ].
  symmetry; rewrite !andb_true_iff, !Z.leb_le; lia.
Qed.

(** ** The day scans *)

Lemma scan_Ok (n : nat) (p : Z -> bool) (x y : Z) :
  scan n p x = Ok y ->
  p y = true /\ x <= y /\ (x = y \/ y <= MAXORDINAL)
  /\ forall z, x <= z < y -> p z = false.
Proof.
  revert x; induction n as [ | n IH]; simpl; intros x;
    destruct (p x) eqn:E.
  1, 3: intros H; injection H as <-; repeat split; auto; try lia;
        intros z Hz; lia.
  - discriminate.
  - unfold date_add_days; destruct (_ && _) eqn:Er; simpl; [ | discriminate].
    intros H; apply IH in H as (H1 & H2 & H3 & H4).
    apply andb_true_iff in Er as [_ Er]; apply Z.leb_le in Er.
    repeat split; auto; try lia.
    intros z Hz; destruct (Z.eq_dec z x) as [-> | Hne]; [exact E | ].
    apply H4; lia.
Qed.

Lemma scan_reach (n : nat) (p : Z -> bool) (x t : Z) :
  p t = true -> 1 <= x <= t -> t <= MAXORDINAL ->
  (Z.to_nat (t - x) <= n)%nat ->
  exists y, scan n p x = Ok y /\ y <= t.
Proof.
  intros Ht; revert x; induction n as [ | n IH]; simpl; intros x Hx Hmax Hn;
    destruct (p x) eqn:E.
  1, 3: exists x; split; [reflexivity | lia].
  - assert (x = t) by lia; congruence.
  - assert (x <> t) by congruence.
    unfold date_add_days.
    replace ((0 <? x + 1) && (x + 1 <=? MAXORDINAL)) with true.
    2:{ symmetry; apply andb_true_iff; rewrite Z.ltb_lt, Z.leb_le; lia. }
    simpl; apply IH; lia.
Qed.

(** A scan that ended, with a date or an overflow, ends the same way with
    more fuel. *)
Lemma scan_more (n m : nat) (p : Z -> bool) (x : Z) :
  scan n p x <> OutOfFuel -> (n <= m)%nat -> scan m p x = scan n p x.
Proof.
  revert m x; induction n as [ | n IH]; intros m x; simpl.
  - destruct m; simpl; destruct (p x); congruence.
  - intros H Hm; destruct m as [ | m]; [lia | ]; simpl.
    destruct (p x); [reflexivity | ].
    destruct (date_add_days x 1) as [x' | e | ]; simpl in *; try reflexivity.
    apply IH; [exact H | lia].
Qed.

(** Splits a goal into its conjuncts, without unfolding a definition. *)
Ltac splits := repeat match goal with |- _ /\ _ => split end.

(** ** The five stages *)

Lemma set_dt_same (self : CronSim) : set_dt self (dt self) = self.
Proof. destruct self; reflexivity. Qed.

Lemma advanced_refl (self : CronSim) : cursor_ok self -> advanced false self self.
Proof.
  intros [Hv Hu]; exists (dt self); rewrite set_dt_same.
  splits; auto; lia.
Qed.

Lemma advanced_weaken (self self' : CronSim) :
  advanced true self self' -> advanced false self self'.
Proof.
  intros (d & H1 & H2 & H3 & H4 & H5); exists d; splits; auto; lia.
Qed.

Lemma advanced_trans (b : bool) (s1 s2 s3 : CronSim) :
  advanced false s1 s2 -> advanced b s2 s3 -> advanced b s1 s3.
Proof.
  intros (d & -> & H2 & H3 & H4 & H5) (d' & -> & H2' & H3' & H4' & H5').
  exists d'; simpl in *; split; [reflexivity | ].
  split; [exact H2' | ]; split; [exact H3' | ]; split; [congruence | ].
  destruct b; lia.
Qed.

Lemma advanced_cursor (b : bool) (self self' : CronSim) :
  advanced b self self' -> cursor_ok self'.
Proof. intros (d & -> & H2 & H3 & _); split; assumption. Qed.

Lemma advanced_sets (b : bool) (self self' : CronSim) :
  advanced b self self' ->
  minutes self' = minutes self /\ hours self' = hours self
  /\ days self' = days self /\ months self' = months self
  /\ weekdays self' = weekdays self /\ seconds self' = seconds self.
Proof. intros (d & -> & _); splits; reflexivity. Qed.

Lemma advanced_clock (b : bool) (self self' : CronSim) :
  advanced b self self' -> clock_sets_ok self -> clock_sets_ok self'.
Proof. intros (d & -> & _) H; exact H. Qed.

Lemma advanced_matches (b : bool) (self self' : CronSim) (t : datetime) :
  advanced b self self' -> matches self t -> matches self' t.
Proof. intros (d & -> & _) H; exact H. Qed.

Section Stages.

Variable self : CronSim.
Hypothesis sets_ok : clock_sets_ok self.
Hypothesis cur_ok : cursor_ok self.

Lemma advance_day_Ok (k : nat) (moved : bool) (self' : CronSim) :
  advance_day k self = Ok (moved, self') ->
  advanced moved self self'
  /\ match_day self' (ordinal (dt self')) = true
  /\ (moved = false -> self' = self).
Proof.
  destruct cur_ok as [(Ho & Hh & Hm & Hs & Hu) Hz].
  unfold advance_day; destruct (match_day self (ordinal (dt self))) eqn:E.
  - intros H; injection H as <- <-; split; [ | split; [exact E | auto]].
    apply advanced_refl; exact cur_ok.
  - intros H; bind_inv H; injection H as <- <-.
    apply scan_Ok in E0 as (H1 & H2 & H3 & _).
    assert (ordinal (dt self) <> a) by congruence.
    split; [ | split; [exact H1 | discriminate]].
    exists (combine_midnight a (tzinfo (dt self))).
    unfold valid_datetime, seconds_of; simpl.
    splits; try reflexivity; lia.
Qed.

Lemma advance_day_reach (k : nat) (t : datetime) :
  valid_datetime t -> match_day self (ordinal t) = true ->
  seconds_of (dt self) <= seconds_of t ->
  (Z.to_nat (ordinal t - ordinal (dt self)) <= k)%nat ->
  exists moved self',
    advance_day k self = Ok (moved, self')
    /\ seconds_of (dt self') <= seconds_of t.
Proof.
  destruct cur_ok as [(Ho & Hh & Hm & Hs & Hu) Hz].
  intros (Ho' & Hh' & Hm' & Hs' & Hu') Ht Hle Hk.
  unfold advance_day; destruct (match_day self (ordinal (dt self))) eqn:E.
  - exists false, self; split; [reflexivity | exact Hle].
  - unfold seconds_of in Hle.
    destruct (scan_reach k (match_day self) (ordinal (dt self)) (ordinal t))
      as (y & -> & Hy); try assumption; try lia.
    simpl; eexists; eexists; split; [reflexivity | ].
    unfold seconds_of; simpl; lia.
Qed.

Lemma advance_month_Ok (k : nat) (self' : CronSim) :
  advance_month k self = Ok self' ->
  advanced false self self'
  /\ month_ok self' (ordinal (dt self')) = true.
Proof.
  destruct cur_ok as [(Ho & Hh & Hm & Hs & Hu) Hz].
  unfold advance_month; destruct (month_ok self (ordinal (dt self))) eqn:E.
  - intros H; injection H as <-; split; [ | exact E].
    apply advanced_refl; exact cur_ok.
  - intros H; bind_inv H; injection H as <-.
    apply scan_Ok in E0 as (H1 & H2 & H3 & _).
    assert (ordinal (dt self) <> a) by congruence.
    split; [ | exact H1].
    exists (combine_midnight a (tzinfo (dt self))).
    unfold valid_datetime, seconds_of; simpl.
    splits; try reflexivity; lia.
Qed.

Lemma advance_month_reach (k : nat) (t : datetime) :
  valid_datetime t -> month_ok self (ordinal t) = true ->
  seconds_of (dt self) <= seconds_of t ->
  (Z.to_nat (ordinal t - ordinal (dt self)) <= k)%nat ->
  exists self',
    advance_month k self = Ok self'
    /\ seconds_of (dt self') <= seconds_of t.
Proof.
  destruct cur_ok as [(Ho & Hh & Hm & Hs & Hu) Hz].
  intros (Ho' & Hh' & Hm' & Hs' & Hu') Ht Hle Hk.
  unfold advance_month; destruct (month_ok self (ordinal (dt self))) eqn:E.
  - exists self; split; [reflexivity | exact Hle].
  - unfold seconds_of in Hle.
    destruct (scan_reach k (month_ok self) (ordinal (dt self)) (ordinal t))
      as (y & -> & Hy); try assumption; try lia.
    simpl; eexists; split; [reflexivity | ].
    unfold seconds_of; simpl; lia.
Qed.

Lemma advance_second_Ok (moved : bool) (self' : CronSim) :
  advance_second self = Ok (moved, self') ->
  advanced moved self self'
  /\ (moved = false ->
      self' = self
      /\ ISet.mem (V (second (dt self'))) (seconds self') = true).
Proof.
  destruct cur_ok as [Hv Hz].
  unfold advance_second;
    destruct (ISet.mem (V (second (dt self))) (seconds self)) eqn:E.
  - intros H; injection H as <- <-; split; [ | intros _; split; auto].
    apply advanced_refl; exact cur_ok.
  - intros H; bind_inv H; bind_inv H; injection H as <- <-.
    split; [ | discriminate].
    destruct sets_ok as (_ & _ & _ & _ & Hs & Hne).
    destruct (min_delta_spec 60 (second (dt self)) (seconds self))
      as (delta & Hd & Hr & _); try assumption; [apply Hv | ].
    rewrite Hd in E0; injection E0 as <-.
    apply add_seconds_Ok in E1 as (H1 & H2 & H3 & H4); [ | exact Hv | lia].
    exists a0; splits; try assumption; try congruence; lia.
Qed.

Lemma advance_second_reach (t : datetime) :
  valid_datetime t -> ISet.mem (V (second t)) (seconds self) = true ->
  seconds_of (dt self) <= seconds_of t ->
  exists moved self',
    advance_second self = Ok (moved, self')
    /\ seconds_of (dt self') <= seconds_of t.
Proof.
  destruct cur_ok as [Hv Hz].
  intros Hvt Ht Hle.
  unfold advance_second;
    destruct (ISet.mem (V (second (dt self))) (seconds self)) eqn:E.
  - exists false, self; split; [reflexivity | exact Hle].
  - destruct sets_ok as (_ & _ & _ & _ & Hs & Hne).
    destruct (min_delta_spec 60 (second (dt self)) (seconds self))
      as (delta & -> & Hr & Hmin); try assumption; [apply Hv | ].
    apply mem_In in Ht; specialize (Hmin _ Ht).
    assert (Hst : second t <> second (dt self)).
    { intros Heq; rewrite Heq in Ht; apply mem_false in E; contradiction. }
    assert (Hgo : seconds_of (dt self) + delta <= seconds_of t).
    { destruct Hv as (Ho & Hh & Hm & Hs' & Hu).
      destruct Hvt as (Ho' & Hh' & Hm' & Hs'' & Hu').
      unfold seconds_of in *.
      pose proof (Z.div_mod (second t - second (dt self)) 60 ltac:(lia)).
      pose proof (Z.mod_pos_bound (second t - second (dt self)) 60
                    ltac:(lia)).
      lia. }
    destruct (add_seconds_defined (dt self) t delta) as [d' Hd'];
      try assumption; [lia | ].
    simpl; rewrite Hd'; simpl.
    eexists; eexists; split; [reflexivity | ]; simpl.
    apply add_seconds_Ok in Hd' as (_ & -> & _); [lia | exact Hv | lia].
Qed.

End Stages.

Section ClockStages.

Variable self : CronSim.
Hypothesis sets_ok : clock_sets_ok self.
Hypothesis cur_ok : cursor_ok self.

Lemma advance_minute_Ok (moved : bool) (self' : CronSim) :
  advance_minute self = Ok (moved, self') ->
  advanced moved self self'
  /\ (moved = false ->
      self' = self
      /\ ISet.mem (V (minute (dt self'))) (minutes self') = true).
Proof.
  destruct cur_ok as [Hv Hz].
  unfold advance_minute;
    destruct (ISet.mem (V (minute (dt self))) (minutes self)) eqn:E.
  - intros H; injection H as <- <-; split; [ | intros _; split; auto].
    apply advanced_refl; exact cur_ok.
  - intros H; do 4 bind_inv H; injection H as <- <-.
    split; [ | discriminate].
    destruct sets_ok as (_ & _ & Hm & Hmne & Hs & Hsne).
    destruct (min_delta_spec 60 (minute (dt self)) (minutes self))
      as (delta & Hd & Hr & _); try assumption; [apply Hv | ].
    rewrite Hd in E0; injection E0 as <-.
    apply add_seconds_Ok in E1 as (H1 & H2 & H3 & H4); [ | exact Hv | lia].
    destruct (min_spec 60 (seconds self) Hs Hsne) as (ss & Hss & _ & Hsr & _).
    rewrite Hss in E2; injection E2 as <-.
    rewrite replace_time_Ok in E3 by (try apply H1; lia).
    injection E3 as <-.
    destruct H1 as (Ho1 & Hh1 & Hm1 & Hs1 & Hu1).
    eexists; split; [reflexivity | ].
    unfold valid_datetime, seconds_of in *;
      cbn [ordinal hour minute second microsecond tzinfo].
    splits; try congruence; lia.
Qed.

Lemma advance_minute_reach (t : datetime) :
  valid_datetime t ->
  ISet.mem (V (minute t)) (minutes self) = true ->
  ISet.mem (V (second t)) (seconds self) = true ->
  seconds_of (dt self) <= seconds_of t ->
  exists moved self',
    advance_minute self = Ok (moved, self')
    /\ seconds_of (dt self') <= seconds_of t.
Proof.
  destruct cur_ok as [Hv Hz].
  intros Hvt Htm Hts Hle.
  unfold advance_minute;
    destruct (ISet.mem (V (minute (dt self))) (minutes self)) eqn:E.
  - exists false, self; split; [reflexivity | exact Hle].
  - destruct sets_ok as (_ & _ & Hm & Hmne & Hs & Hsne).
    destruct (min_delta_spec 60 (minute (dt self)) (minutes self))
      as (delta & -> & Hr & Hmin); try assumption; [apply Hv | ].
    destruct (min_spec 60 (seconds self) Hs Hsne)
      as (ss & -> & _ & Hsr & Hsmin).
    apply mem_In in Htm, Hts.
    specialize (Hmin _ Htm); specialize (Hsmin _ Hts).
    assert (Hne : minute t <> minute (dt self)).
    { intros Heq; rewrite Heq in Htm; apply mem_false in E; contradiction. }
    assert (Hvt' : valid_datetime (end_of_minute t)).
    { unfold valid_datetime, end_of_minute in *; simpl; lia. }
    assert (Hgo : seconds_of (dt self) + 60 * delta
                  <= seconds_of (end_of_minute t)).
    { destruct Hv as (Ho & Hh & Hm' & Hs' & Hu).
      destruct Hvt as (Ho' & Hh' & Hm'' & Hs'' & Hu').
      unfold seconds_of, end_of_minute in *;
        cbn [ordinal hour minute second] in *.
      pose proof (Z.div_mod (minute t - minute (dt self)) 60 ltac:(lia)).
      pose proof (Z.mod_pos_bound (minute t - minute (dt self)) 60
                    ltac:(lia)).
      set (q := (minute t - minute (dt self)) / 60) in *.
      assert (0 <= (ordinal t - ordinal (dt self)) * 1440
                   + (hour t - hour (dt self)) * 60
                   + (minute t - minute (dt self))) by lia.
      assert (0 <= (ordinal t - ordinal (dt self)) * 24
                   + (hour t - hour (dt self)) + q) by lia.
      lia. }
    destruct (add_seconds_defined (dt self) (end_of_minute t) (60 * delta))
      as [d' Hd']; try assumption; [lia | ].
    cbn [bind]; rewrite Hd'; cbn [bind].
    apply add_seconds_Ok in Hd' as (H1 & H2 & _); [ | exact Hv | lia].
    rewrite replace_time_Ok by (try apply H1; lia); cbn [bind].
    eexists; eexists; split; [reflexivity | ].
    destruct Hv as (Ho & Hh & Hm' & Hs' & Hu).
    destruct Hvt as (Ho' & Hh' & Hm'' & Hs'' & Hu').
    destruct H1 as (Ho1 & Hh1 & Hm1 & Hs1 & Hu1).
    unfold seconds_of, end_of_minute in *;
      cbn [ordinal hour minute second dt set_dt] in *.
    pose proof (Z.div_mod (minute t - minute (dt self)) 60 ltac:(lia)).
    pose proof (Z.mod_pos_bound (minute t - minute (dt self)) 60
                  ltac:(lia)).
    set (q := (minute t - minute (dt self)) / 60) in *.
    assert (0 <= (ordinal t - ordinal (dt self)) * 1440
                 + (hour t - hour (dt self)) * 60
                 + (minute t - minute (dt self))) by lia.
    assert (0 <= (ordinal t - ordinal (dt self)) * 24
                 + (hour t - hour (dt self)) + q) by lia.
    assert (ordinal d' * 1440 + hour d' * 60 + minute d'
            = ordinal (dt self) * 1440 + hour (dt self) * 60
              + minute (dt self) + delta) by lia.
    lia.
Qed.

Lemma advance_hour_Ok (moved : bool) (self' : CronSim) :
  advance_hour self = Ok (moved, self') ->
  advanced moved self self'
  /\ (moved = false ->
      self' = self
      /\ ISet.mem (V (hour (dt self'))) (hours self') = true).
Proof.
  destruct cur_ok as [Hv Hz].
  unfold advance_hour;
    destruct (ISet.mem (V (hour (dt self))) (hours self)) eqn:E.
  - intros H; injection H as <- <-; split; [ | intros _; split; auto].
    apply advanced_refl; exact cur_ok.
  - intros H; do 5 bind_inv H; injection H as <- <-.
    split; [ | discriminate].
    destruct sets_ok as (Hh & Hhne & Hm & Hmne & Hs & Hsne).
    destruct (min_delta_spec 24 (hour (dt self)) (hours self))
      as (delta & Hd & Hr & _); try assumption; [apply Hv | ].
    rewrite Hd in E0; injection E0 as <-.
    apply add_seconds_Ok in E1 as (H1 & H2 & H3 & H4); [ | exact Hv | lia].
    destruct (min_spec 60 (minutes self) Hm Hmne) as (mm & Hmm & _ & Hmr & _).
    destruct (min_spec 60 (seconds self) Hs Hsne) as (ss & Hss & _ & Hsr & _).
    rewrite Hmm in E2; injection E2 as <-.
    rewrite Hss in E3; injection E3 as <-.
    rewrite replace_time_Ok in E4 by lia.
    injection E4 as <-.
    destruct H1 as (Ho1 & Hh1 & Hm1 & Hs1 & Hu1).
    eexists; split; [reflexivity | ].
    unfold valid_datetime, seconds_of in *;
      cbn [ordinal hour minute second microsecond tzinfo].
    splits; try congruence; lia.
Qed.

Lemma advance_hour_reach (t : datetime) :
  valid_datetime t ->
  ISet.mem (V (hour t)) (hours self) = true ->
  ISet.mem (V (minute t)) (minutes self) = true ->
  ISet.mem (V (second t)) (seconds self) = true ->
  seconds_of (dt self) <= seconds_of t ->
  exists moved self',
    advance_hour self = Ok (moved, self')
    /\ seconds_of (dt self') <= seconds_of t.
Proof.
  destruct cur_ok as [Hv Hz].
  intros Hvt Hth Htm Hts Hle.
  unfold advance_hour;
    destruct (ISet.mem (V (hour (dt self))) (hours self)) eqn:E.
  - exists false, self; split; [reflexivity | exact Hle].
  - destruct sets_ok as (Hh & Hhne & Hm & Hmne & Hs & Hsne).
    destruct (min_delta_spec 24 (hour (dt self)) (hours self))
      as (delta & -> & Hr & Hmin); try assumption; [apply Hv | ].
    destruct (min_spec 60 (minutes self) Hm Hmne)
      as (mm & -> & _ & Hmr & Hmmin).
    destruct (min_spec 60 (seconds self) Hs Hsne)
      as (ss & -> & _ & Hsr & Hsmin).
    apply mem_In in Hth, Htm, Hts.
    specialize (Hmin _ Hth); specialize (Hmmin _ Htm);
      specialize (Hsmin _ Hts).
    assert (Hne : hour t <> hour (dt self)).
    { intros Heq; rewrite Heq in Hth; apply mem_false in E; contradiction. }
    assert (Hvt' : valid_datetime (end_of_hour t)).
    { unfold valid_datetime, end_of_hour in *; simpl; lia. }
    assert (Hgo : seconds_of (dt self) + 3600 * delta
                  <= seconds_of (end_of_hour t)).
    { destruct Hv as (Ho & Hh' & Hm' & Hs' & Hu).
      destruct Hvt as (Ho' & Hh'' & Hm'' & Hs'' & Hu').
      unfold seconds_of, end_of_hour in *;
        cbn [ordinal hour minute second] in *.
      pose proof (Z.div_mod (hour t - hour (dt self)) 24 ltac:(lia)).
      pose proof (Z.mod_pos_bound (hour t - hour (dt self)) 24 ltac:(lia)).
      set (q := (hour t - hour (dt self)) / 24) in *.
      assert (0 <= (ordinal t - ordinal (dt self)) * 24
                   + (hour t - hour (dt self))) by lia.
      assert (0 <= ordinal t - ordinal (dt self) + q) by lia.
      lia. }
    destruct (add_seconds_defined (dt self) (end_of_hour t) (3600 * delta))
      as [d' Hd']; try assumption; [lia | ].
    cbn [bind]; rewrite Hd'; cbn [bind].
    apply add_seconds_Ok in Hd' as (H1 & H2 & _); [ | exact Hv | lia].
    rewrite replace_time_Ok by lia; cbn [bind].
    eexists; eexists; split; [reflexivity | ].
    destruct Hv as (Ho & Hh' & Hm' & Hs' & Hu).
    destruct Hvt as (Ho' & Hh'' & Hm'' & Hs'' & Hu').
    destruct H1 as (Ho1 & Hh1 & Hm1 & Hs1 & Hu1).
    unfold seconds_of, end_of_hour in *;
      cbn [ordinal hour minute second dt set_dt] in *.
    pose proof (Z.div_mod (hour t - hour (dt self)) 24 ltac:(lia)).
    pose proof (Z.mod_pos_bound (hour t - hour (dt self)) 24 ltac:(lia)).
    set (q := (hour t - hour (dt self)) / 24) in *.
    assert (0 <= (ordinal t - ordinal (dt self)) * 24
                 + (hour t - hour (dt self))) by lia.
    assert (0 <= ordinal t - ordinal (dt self) + q) by lia.
    assert (ordinal d' * 24 + hour d'
            = ordinal (dt self) * 24 + hour (dt self) + delta) by lia.
    lia.
Qed.

End ClockStages.

(** ** One round of the loop *)

Lemma pass_Ok (k : nat) (self : CronSim) (r : round) :
  clock_sets_ok self -> cursor_ok self -> pass k self = Ok r ->
  match r with
  | Again self' => advanced true self self'
  | Done self' => advanced false self self' /\ matches self' (dt self')
  end.
Proof.
  intros Hsets Hcur H; unfold pass in H.
  bind_inv H; rename a into s1.
  apply advance_month_Ok in E as [A1 M1]; [ | exact Hcur].
  pose proof (advanced_cursor _ _ _ A1) as C1.
  pose proof (advanced_clock _ _ _ A1 Hsets) as K1.
  bind_inv H; destruct a as [b2 s2].
  apply advance_day_Ok in E as (A2 & M2 & S2); [ | exact C1].
  destruct b2.
  { injection H as <-; eapply advanced_trans; eauto. }
  specialize (S2 eq_refl); subst s2.
  bind_inv H; destruct a as [b3 s3].
  apply advance_hour_Ok in E as (A3 & S3); try assumption.
  destruct b3.
  { injection H as <-; eapply advanced_trans; eauto. }
  destruct (S3 eq_refl) as [-> M3].
  bind_inv H; destruct a as [b4 s4].
  apply advance_minute_Ok in E as (A4 & S4); try assumption.
  destruct b4.
  { injection H as <-; eapply advanced_trans; eauto. }
  destruct (S4 eq_refl) as [-> M4].
  bind_inv H; destruct a as [b5 s5].
  apply advance_second_Ok in E as (A5 & S5); try assumption.
  destruct b5.
  { injection H as <-; eapply advanced_trans; eauto. }
  destruct (S5 eq_refl) as [-> M5].
  injection H as <-; split; [exact A1 | ].
  unfold matches; splits; assumption.
Qed.

Lemma ordinal_le (a b : datetime) :
  valid_datetime a -> valid_datetime b -> seconds_of a <= seconds_of b ->
  ordinal a <= ordinal b.
Proof.
  unfold valid_datetime, seconds_of; intros; lia.
Qed.

(** A round never steps over an instant that passes the five tests. *)
Lemma pass_reach (k : nat) (self : CronSim) (t : datetime) :
  clock_sets_ok self -> cursor_ok self ->
  valid_datetime t -> matches self t ->
  seconds_of (dt self) <= seconds_of t ->
  (Z.to_nat (ordinal t - ordinal (dt self)) <= k)%nat ->
  exists r, pass k self = Ok r
            /\ seconds_of (dt (round_state r)) <= seconds_of t.
Proof.
  intros Hsets Hcur Hvt (Tmo & Td & Th & Tm & Ts) Hle Hk; unfold pass.
  destruct (advance_month_reach self Hcur k t) as (s1 & E1 & L1);
    try assumption.
  rewrite E1; cbn [bind].
  apply advance_month_Ok in E1 as [A1 _]; [ | exact Hcur].
  pose proof (advanced_cursor _ _ _ A1) as C1.
  pose proof (advanced_clock _ _ _ A1 Hsets) as K1.
  pose proof (advanced_sets _ _ _ A1) as (Smi & Sh & Sd & Smo & Sw & Ss).
  assert (Hk1 : (Z.to_nat (ordinal t - ordinal (dt s1)) <= k)%nat).
  { destruct A1 as (d & -> & Hv & _ & _ & Hd); simpl in *.
    pose proof (ordinal_le _ _ (proj1 Hcur) Hv Hd); lia. }
  destruct (advance_day_reach s1 C1 k t) as (b2 & s2 & E2 & L2);
    try assumption.
  { unfold match_day in *; rewrite Sd, Sw; exact Td. }
  rewrite E2; cbn [bind].
  apply advance_day_Ok in E2 as (A2 & _ & S2); [ | exact C1].
  destruct b2; [exists (Again s2); split; [reflexivity | exact L2] | ].
  specialize (S2 eq_refl); subst s2.
  destruct (advance_hour_reach s1 K1 C1 t) as (b3 & s3 & E3 & L3);
    try assumption; try congruence.
  rewrite E3; cbn [bind].
  apply advance_hour_Ok in E3 as (A3 & S3); try assumption.
  destruct b3; [exists (Again s3); split; [reflexivity | exact L3] | ].
  destruct (S3 eq_refl) as [-> _].
  destruct (advance_minute_reach s1 K1 C1 t) as (b4 & s4 & E4 & L4);
    try assumption; try congruence.
  rewrite E4; cbn [bind].
  apply advance_minute_Ok in E4 as (A4 & S4); try assumption.
  destruct b4; [exists (Again s4); split; [reflexivity | exact L4] | ].
  destruct (S4 eq_refl) as [-> _].
  destruct (advance_second_reach s1 K1 C1 t) as (b5 & s5 & E5 & L5);
    try assumption; try congruence.
  rewrite E5; cbn [bind].
  destruct b5; [exists (Again s5); split; [reflexivity | exact L5] | ].
  exists (Done s5); split; [reflexivity | exact L5].
Qed.

(** ** The loop of [__next__] *)

Lemma next_loop_Ok (k n : nat) (self self' : CronSim) (r : datetime) :
  clock_sets_ok self -> cursor_ok self ->
  next_loop k n self = Ok (self', r) ->
  r = dt self' /\ advanced false self self' /\ matches self' r.
Proof.
  revert self; induction n as [ | n IH]; simpl; intros self Hsets Hcur H.
  - discriminate.
  - bind_inv H; apply pass_Ok in E; try assumption.
    destruct a as [s | s].
    + apply advanced_weaken in E.
      apply IH in H as (H1 & H2 & H3).
      * splits; try assumption; eapply advanced_trans; eauto.
      * eapply advanced_clock; eauto.
      * eapply advanced_cursor; eauto.
    + injection H as <- <-; destruct E; auto.
Qed.

Lemma next_Ok (fuel : nat) (self self' : CronSim) (r : datetime) :
  clock_sets_ok self -> cursor_ok self ->
  next fuel self = Ok (self', r) ->
  r = dt self' /\ advanced true self self' /\ matches self r.
Proof.
  intros Hsets [Hv Hz] H; unfold next in H; bind_inv H.
  apply add_seconds_Ok in E as (H1 & H2 & H3 & H4); [ | exact Hv | lia].
  assert (A0 : advanced true self (set_dt self a)).
  { exists a; splits; auto; try congruence; lia. }
  apply next_loop_Ok in H as (Hr & A1 & Hm).
  - split; [exact Hr | split].
    + destruct A0 as (d0 & E0 & _ & _ & T0 & L0).
      destruct A1 as (d1 & E1 & V1 & Z1 & T1 & L1).
      exists d1; rewrite E1, E0 in *; simpl in *.
      splits; auto; try congruence; lia.
    + destruct A1 as (d1 & -> & _); exact Hm.
  - exact Hsets.
  - eapply advanced_cursor; exact A0.
Qed.

(** With an instant ahead that passes the five tests, the loop ends after
    at most as many rounds as there are seconds up to that instant. *)
Lemma next_loop_reach (t : datetime) (k n : nat) (self : CronSim) :
  clock_sets_ok self -> cursor_ok self ->
  valid_datetime t -> matches self t ->
  seconds_of (dt self) <= seconds_of t ->
  (Z.to_nat (ordinal t - ordinal (dt self)) <= k)%nat ->
  (Z.to_nat (seconds_of t - seconds_of (dt self)) < n)%nat ->
  exists self' r, next_loop k n self = Ok (self', r)
                  /\ seconds_of r <= seconds_of t.
Proof.
  intros Hsets Hcur Hvt; revert self Hsets Hcur.
  induction n as [ | n IH]; intros self Hsets Hcur Hm Hle Hk Hn; [lia | ].
  simpl.
  destruct (pass_reach k self t) as (r & E & L); try assumption.
  rewrite E; cbn [bind].
  apply pass_Ok in E; try assumption.
  destruct r as [s | s]; simpl in L.
  - pose proof E as (d & -> & Hv & _ & _ & Hd); simpl in *.
    apply IH.
    + exact Hsets.
    + eapply advanced_cursor; exact E.
    + exact Hm.
    + exact L.
    + pose proof (ordinal_le _ _ (proj1 Hcur) Hv ltac:(lia)); simpl; lia.
    + simpl; lia.
  - exists s, (dt s); split; [reflexivity | exact L].
Qed.

Lemma next_reach (t : datetime) (fuel : nat) (self : CronSim) :
  clock_sets_ok self -> cursor_ok self ->
  valid_datetime t -> matches self t ->
  seconds_of (dt self) < seconds_of t ->
  (Z.to_nat (seconds_of t - seconds_of (dt self)) <= fuel)%nat ->
  exists self' r, next fuel self = Ok (self', r)
                  /\ seconds_of r <= seconds_of t.
Proof.
  intros Hsets [Hv Hz] Hvt Hm Hlt Hf; unfold next.
  destruct (add_seconds_defined (dt self) t 1) as [d Hd];
    try assumption; try lia.
  rewrite Hd; cbn [bind].
  apply add_seconds_Ok in Hd as (H1 & H2 & H3 & H4); [ | exact Hv | lia].
  apply next_loop_reach; cbn [dt set_dt]; try assumption.
  - split; cbn [dt set_dt]; [exact H1 | congruence].
  - lia.
  - pose proof (ordinal_le _ _ Hv Hvt ltac:(lia)).
    destruct Hv as (Ho & Hh & Hmi & Hs & Hu).
    destruct Hvt as (Ho' & Hh' & Hmi' & Hs' & Hu').
    destruct H1 as (Ho1 & Hh1 & Hmi1 & Hs1 & Hu1).
    unfold seconds_of in *; lia.
  - lia.
Qed.

(** ** More fuel *)

Lemma advance_day_more (k k' : nat) (self : CronSim) (x : bool * CronSim) :
  advance_day k self = Ok x -> (k <= k')%nat -> advance_day k' self = Ok x.
Proof.
  unfold advance_day; destruct (match_day self _); [auto | ].
  intros H Hk; bind_inv H.
  rewrite (scan_more k k') by (congruence || exact Hk).
  rewrite E; exact H.
Qed.

Lemma advance_month_more (k k' : nat) (self self' : CronSim) :
  advance_month k self = Ok self' -> (k <= k')%nat ->
  advance_month k' self = Ok self'.
Proof.
  unfold advance_month; destruct (month_ok self _); [auto | ].
  intros H Hk; bind_inv H.
  rewrite (scan_more k k') by (congruence || exact Hk).
  rewrite E; exact H.
Qed.

Lemma pass_more (k k' : nat) (self : CronSim) (r : round) :
  pass k self = Ok r -> (k <= k')%nat -> pass k' self = Ok r.
Proof.
  unfold pass; intros H Hk; bind_inv H.
  rewrite (advance_month_more k k' _ _ E Hk); cbn [bind].
  bind_inv H.
  rewrite (advance_day_more k k' _ _ E0 Hk); cbn [bind]; exact H.
Qed.

Lemma next_loop_more (k k' n n' : nat) (self : CronSim)
    (x : CronSim * datetime) :
  next_loop k n self = Ok x -> (k <= k')%nat -> (n <= n')%nat ->
  next_loop k' n' self = Ok x.
Proof.
  intros H Hk; revert n' self H; induction n as [ | n IH]; simpl;
    intros n' self H Hn; [discriminate | ].
  destruct n' as [ | n']; [lia | ]; simpl.
  bind_inv H; rewrite (pass_more k k' _ _ E Hk); cbn [bind].
  destruct a as [s | s]; [apply IH; [exact H | lia] | exact H].
Qed.

(** A call that returned returns the same with any larger fuel. *)
Lemma next_more (fuel fuel' : nat) (self : CronSim) (x : CronSim * datetime) :
  next fuel self = Ok x -> (fuel <= fuel')%nat -> next fuel' self = Ok x.
Proof.
  unfold next; intros H Hf; bind_inv H; rewrite E; cbn [bind].
  eapply next_loop_more; eauto.
Qed.

(** ** Objects reached from the constructor *)

Lemma good_ints (f : Field) (s : itemset) :
  f = MINUTE \/ f = HOUR \/ f = SECOND ->
  Forall (item_ok f) s -> ints_in (range_max f + 1) s.
Proof.
  intros Hf H; eapply Forall_impl; [ | exact H].
  intros [n | d n]; simpl.
  - intros [Hn | [E _]].
    + exists n; split; [reflexivity | ].
      destruct Hf as [-> | [-> | ->]]; simpl in *; lia.
    + destruct Hf as [-> | [-> | ->]]; discriminate.
  - intros [E _]; destruct Hf as [-> | [-> | ->]]; discriminate.
Qed.

Lemma init_ok (expr : string) (start : datetime) (self : CronSim) :
  valid_datetime start -> init expr start = Ok self ->
  clock_sets_ok self /\ cursor_ok self.
Proof.
  intros Hv H; apply init_Ok in H.
  destruct H as (_ & mi & h & d & m & w & s & Hmi & Hh & _ & _ & _ & Hs & ->).
  apply parse_good in Hmi as [Hmi1 Hmi2], Hh as [Hh1 Hh2], Hs as [Hs1 Hs2].
  split.
  - unfold clock_sets_ok; cbn [hours minutes seconds]; splits; try assumption.
    + apply (good_ints HOUR); auto.
    + apply (good_ints MINUTE); auto.
    + apply (good_ints SECOND); auto.
  - unfold cursor_ok, valid_datetime in *; simpl; splits; try reflexivity; lia.
Qed.

Lemma reachable_ok (expr : string) (start : datetime) (self : CronSim) :
  valid_datetime start -> reachable expr start self ->
  clock_sets_ok self /\ cursor_ok self.
Proof.
  intros Hv; induction 1 as [self H | self self' fuel r _ [IH1 IH2] H].
  - eapply init_ok; eauto.
  - apply next_Ok in H as (_ & A & _); try assumption.
    split; [eapply advanced_clock | eapply advanced_cursor]; eauto.
Qed.

(** ** The calendar *)

Lemma month_day_bound (leapyear : bool) (n : Z) :
  0 <= n < 365 -> 1 <= snd (month_day leapyear n) <= 31.
Proof.
  intros Hn.
  assert (H : forallb
                (fun i =>
                   let d := snd (month_day leapyear (Z.of_nat i)) in
                   (1 <=? d) && (d <=? 31))
                (seq 0 365) = true)
    by (destruct leapyear; vm_compute; reflexivity).
  rewrite forallb_forall in H.
  specialize (H (Z.to_nat n)); rewrite Z2Nat.id in H by lia.
  cbv zeta in H; rewrite andb_true_iff, !Z.leb_le in H.
  apply H, in_seq; lia.
Qed.

Lemma day_of_bound (d : Z) : 1 <= day_of d <= 31.
Proof.
  unfold day_of, ord2ymd.
  destruct (_ || _); [simpl; lia | ].
  match goal with
  | |- context [month_day ?b ?n] =>
      pose proof (month_day_bound b n) as H; destruct (month_day b n) as [m x]
  end.
  simpl in *; apply H, Z.mod_pos_bound; lia.
Qed.

(** The two conversions between dates and ordinals agree on every day of
    eight years around 1900, which is no leap year, around 2000, which is
    one, and from 2017 on, where the examples lie. *)
Lemma ord2ymd_ymd2ord_agree :
  calendar_agrees (ymd2ord 1897 1 1) 2921 = true
  /\ calendar_agrees (ymd2ord 1997 1 1) 2922 = true
  /\ calendar_agrees (ymd2ord 2017 1 1) 2922 = true.
Proof. splits; vm_compute; reflexivity. Qed.

(** ** Claims about the iterator *)

(** C2, as the source has it.  The constructor keeps the date, the hour,
    the minute and the time zone of the start instant and sets both its
    second and its microsecond to zero: the cursor is the start instant cut
    down to the whole minute.  A start instant whose second and microsecond
    are zero is the cursor unchanged, and the cursor never has a part below
    the second. *)
Theorem cursor_truncation (expr : string) (start : datetime) (self : CronSim) :
  init expr start = Ok self ->
  dt self = mkdatetime (ordinal start) (hour start) (minute start) 0 0
              (tzinfo start)
  /\ (second start = 0 -> microsecond start = 0 -> dt self = start)
  /\ microsecond (dt self) = 0.
Proof.
  intros H; apply init_Ok in H.
  destruct H as (_ & mi & h & d & m & w & s & _ & _ & _ & _ & _ & _ & ->).
  cbn [dt]; splits; try reflexivity.
  destruct start; simpl; intros -> ->; reflexivity.
Qed.

Lemma cursor_truncation_witness :
  exists self,
    init "* * * * *" (datetime_of 2020 1 1 0 0 0) = Ok self
    /\ dt self = datetime_of 2020 1 1 0 0 0.
Proof.
  eexists; split; [reflexivity | ].
  apply (cursor_truncation "* * * * *" (datetime_of 2020 1 1 0 0 0));
    reflexivity.
Defined.

(** C2, as the claim has it, fails: thirty seconds past midnight, without
    microseconds, is a start instant that does not become the cursor; the
    cursor is midnight. *)
Lemma cursor_truncation_counterexample :
  exists self,
    init "* * * * *" (datetime_of 2020 1 1 0 0 30) = Ok self
    /\ microsecond (datetime_of 2020 1 1 0 0 30) = 0
    /\ dt self <> datetime_of 2020 1 1 0 0 30
    /\ second (dt self) <> second (datetime_of 2020 1 1 0 0 30).
Proof.
  eexists; split; [reflexivity | ]; splits; [reflexivity | | ]; discriminate.
Qed.

(** The four ways in which [match_day] accepts a date *)
Lemma match_day_iff (self : CronSim) (d : Z) :
  match_day self d = true <->
  In (V (day_of d)) (days self)
  \/ (In (V LAST) (days self)
      /\ day_of d = days_in_month (year_of d) (month_of d))
  \/ (In (V (weekday d + 1)) (weekdays self)
      \/ In (V ((weekday d + 1) mod 7)) (weekdays self))
  \/ (In (Nth (weekday d + 1) ((day_of d + 6) / 7)) (weekdays self)
      \/ In (Nth ((weekday d + 1) mod 7) ((day_of d + 6) / 7))
           (weekdays self)).
Proof.
  unfold match_day; rewrite <- !mem_In.
  destruct (ISet.mem (V (day_of d)) (days self)); [intuition | ].
  destruct (ISet.mem (V LAST) (days self)); simpl.
  - destruct (Z.eqb_spec (day_of d) (days_in_month (year_of d) (month_of d)));
      [intuition | ].
    destruct (ISet.mem (V (weekday d + 1)) (weekdays self)); [intuition | ].
    destruct (ISet.mem (V ((weekday d + 1) mod 7)) (weekdays self));
      [intuition | ].
    simpl; rewrite orb_true_iff; intuition discriminate.
  - destruct (ISet.mem (V (weekday d + 1)) (weekdays self)); [intuition | ].
    destruct (ISet.mem (V ((weekday d + 1) mod 7)) (weekdays self));
      [intuition | ].
    simpl; rewrite orb_true_iff; intuition discriminate.
Qed.

(** C4.  An instant that [next] returns on an object reached from the
    constructor passes the five tests again: its month is in the month
    set; [match_day] accepts its date, by the day set, by the last-day
    sentinel, by the weekday or by the pair of weekday and ordinal; and its
    hour, minute and second are in their sets.  [next] leaves the six sets
    as they were. *)
Theorem next_matches (expr : string) (start : datetime) (self self' : CronSim)
    (fuel : nat) (r : datetime) :
  valid_datetime start -> reachable expr start self ->
  next fuel self = Ok (self', r) ->
  let d := ordinal r in
  r = dt self'
  /\ In (V (month_of d)) (months self)
  /\ match_day self d = true
  /\ (In (V (day_of d)) (days self)
      \/ (In (V LAST) (days self)
          /\ day_of d = days_in_month (year_of d) (month_of d))
      \/ (In (V (weekday d + 1)) (weekdays self)
          \/ In (V ((weekday d + 1) mod 7)) (weekdays self))
      \/ (In (Nth (weekday d + 1) ((day_of d + 6) / 7)) (weekdays self)
          \/ In (Nth ((weekday d + 1) mod 7) ((day_of d + 6) / 7))
               (weekdays self)))
  /\ In (V (hour r)) (hours self)
  /\ In (V (minute r)) (minutes self)
  /\ In (V (second r)) (seconds self)
  /\ (minutes self' = minutes self /\ hours self' = hours self
      /\ days self' = days self /\ months self' = months self
      /\ weekdays self' = weekdays self /\ seconds self' = seconds self).
Proof.
  intros Hv Hreach H d.
  destruct (reachable_ok _ _ _ Hv Hreach) as [Hsets Hcur].
  apply next_Ok in H as (Hr & A & Hmo & Hd & Hh & Hm & Hs); try assumption.
  unfold month_ok in Hmo; rewrite mem_In in Hmo, Hh, Hm, Hs.
  pose proof (advanced_sets _ _ _ A) as (S1 & S2 & S3 & S4 & S5 & S6).
  splits; try assumption.
  apply match_day_iff; exact Hd.
Qed.

Lemma next_matches_witness :
  exists self self',
    init "1 1 L * *" (datetime_of 2020 1 1 0 0 0) = Ok self
    /\ next 40 self = Ok (self', datetime_of 2020 1 31 1 1 0)
    /\ match_day self (ordinal (datetime_of 2020 1 31 1 1 0)) = true
    /\ In (V (hour (datetime_of 2020 1 31 1 1 0))) (hours self).
Proof.
  assert (H : exists self self',
             init "1 1 L * *" (datetime_of 2020 1 1 0 0 0) = Ok self
             /\ next 40 self = Ok (self', datetime_of 2020 1 31 1 1 0))
    by (do 2 eexists; split; [reflexivity | vm_compute; reflexivity]).
  destruct H as (self & self' & Hinit & Hnext).
  exists self, self'; split; [exact Hinit | ]; split; [exact Hnext | ].
  destruct (next_matches "1 1 L * *" (datetime_of 2020 1 1 0 0 0) self self'
              40%nat (datetime_of 2020 1 31 1 1 0)
              ltac:(vm_compute; intuition discriminate)
              (reach_init _ _ _ Hinit) Hnext)
    as (_ & _ & Hday & _ & Hhour & _).
  split; assumption.
Defined.

(** C5.  From 2020-01-01T00:00:00 the five-field expression "1 1 L * *",
    whose second set is {0}, gives 2020-01-31T01:01:00 at the first call of
    [next], with any fuel from thirty on. *)
Theorem last_day_example :
  exists self,
    init "1 1 L * *" (datetime_of 2020 1 1 0 0 0) = Ok self
    /\ seconds self = [V 0]
    /\ ord2ymd (ordinal (datetime_of 2020 1 31 1 1 0)) = (2020, 1, 31)
    /\ forall fuel,
         (30 <= fuel)%nat ->
         exists self',
           next fuel self = Ok (self', datetime_of 2020 1 31 1 1 0).
Proof.
  eexists; split; [reflexivity | ]; splits; try reflexivity.
  intros fuel Hf; eexists.
  eapply (next_more 30); [vm_compute; reflexivity | exact Hf].
Qed.

Lemma last_day_example_witness :
  exists self self',
    init "1 1 L * *" (datetime_of 2020 1 1 0 0 0) = Ok self
    /\ next 31 self = Ok (self', datetime_of 2020 1 31 1 1 0).
Proof.
  destruct last_day_example as (self & Hinit & _ & _ & Hnext).
  destruct (Hnext 31%nat ltac:(lia)) as [self' H].
  exists self, self'; split; assumption.
Defined.

Lemma calls_sorted (fuels : list nat) (self self' : CronSim)
    (rs : list datetime) :
  clock_sets_ok self -> cursor_ok self ->
  calls fuels self = Ok (self', rs) ->
  Forall (second_apart (dt self)) rs /\ StronglySorted second_apart rs.
Proof.
  revert self rs; induction fuels as [ | fuel rest IH]; simpl;
    intros self rs Hsets Hcur H.
  - injection H as <- <-; split; constructor.
  - bind_inv H; destruct a as [s1 r].
    bind_inv H; destruct a as [s2 rs'].
    injection H as <- <-.
    apply next_Ok in E as (-> & A & _); try assumption.
    apply IH in E0 as [F S];
      [ | eapply advanced_clock; eauto | eapply advanced_cursor; eauto].
    destruct A as (d & -> & _ & _ & _ & Hd); simpl in *.
    split; constructor; try assumption.
    + unfold second_apart; lia.
    + eapply Forall_impl; [ | exact F].
      unfold second_apart; intros x Hx; simpl in *; lia.
Qed.

(** C3.  The instants that successive calls of [next] return on one object
    are each at least one second after every earlier one, the first being
    at least one second after the cursor the object had before. *)
Theorem next_increasing (expr : string) (start : datetime)
    (self self' : CronSim) (fuels : list nat) (rs : list datetime) :
  valid_datetime start -> reachable expr start self ->
  calls fuels self = Ok (self', rs) ->
  Forall (second_apart (dt self)) rs /\ StronglySorted second_apart rs.
Proof.
  intros Hv Hreach H.
  destruct (reachable_ok _ _ _ Hv Hreach) as [Hsets Hcur].
  eapply calls_sorted; eauto.
Qed.

Lemma next_increasing_witness :
  exists self self' r1 r2 r3,
    init "*/20 * * * * 15,45" (datetime_of 2020 2 29 23 30 0) = Ok self
    /\ calls [40; 40; 40]%nat self = Ok (self', [r1; r2; r3])
    /\ second_apart r1 r2 /\ second_apart r2 r3.
Proof.
  assert (H : exists self self' r1 r2 r3,
             init "*/20 * * * * 15,45" (datetime_of 2020 2 29 23 30 0)
             = Ok self
             /\ calls [40; 40; 40]%nat self = Ok (self', [r1; r2; r3])).
  { do 5 eexists; split; [reflexivity | vm_compute; reflexivity]. }
  destruct H as (self & self' & r1 & r2 & r3 & Hinit & Hcalls).
  exists self, self', r1, r2, r3; split; [exact Hinit | ].
  split; [exact Hcalls | ].
  destruct (next_increasing "*/20 * * * * 15,45"
              (datetime_of 2020 2 29 23 30 0) self self' _ _
              ltac:(vm_compute; intuition discriminate)
              (reach_init _ _ _ Hinit) Hcalls) as [_ S].
  inversion S as [ | ? ? S' F]; subst.
  inversion F as [ | ? ? F1 _]; subst.
  inversion S' as [ | ? ? _ F']; subst.
  inversion F' as [ | ? ? F2 _]; subst.
  split; assumption.
Defined.




(** * Further properties *)

(** ** Numbers and names *)

Lemma is_digit_value (a : ascii) :
  Str.is_digit a = true -> 0 <= Z.of_nat (nat_of_ascii a) - 48 <= 9.
Proof.
  unfold Str.is_digit; intros H; apply andb_true_iff in H as [H1 H2].
  apply Nat.leb_le in H1, H2; lia.
Qed.

Lemma to_int_bound (s : string) :
  Str.isdigit s = true -> (String.length s <= 2)%nat ->
  0 <= Str.to_int s <= 99.
Proof.
  unfold Str.to_int;
    destruct s as [ | a [ | b [ | c t]]];
    cbn [Str.isdigit Str.all_digits String.length Str.int_from];
    intros H Hl; try discriminate; try lia.
  - rewrite andb_true_r in H; apply is_digit_value in H; lia.
  - rewrite andb_true_r in H; apply andb_true_iff in H as [Ha Hb].
    apply is_digit_value in Ha, Hb; lia.
Qed.

(** X1.  Of the ASCII texts, [_int] accepts exactly those of one or two
    decimal digits whose value is at least [min_value]; the value then lies
    between [min_value] and 99.  Every other ASCII text, the empty one
    included, raises "Bad value: " followed by the text. *)
Theorem int_accepts (s : string) (m : Z) :
  ascii_text s = true ->
  (forall v,
     _int s m = Ok v <->
     Str.isdigit s = true /\ (String.length s <= 2)%nat
     /\ v = Str.to_int s /\ m <= v)
  /\ (forall v, _int s m = Ok v -> 0 <= v <= 99)
  /\ ((forall v, _int s m <> Ok v) -> _int s m = Raise (bad_value s))
  /\ _int "" m = Raise (bad_value "").
Proof.
  intros _.
  assert (Hiff : forall v,
             _int s m = Ok v <->
             Str.isdigit s = true /\ (String.length s <= 2)%nat
             /\ v = Str.to_int s /\ m <= v).
  { intros v; unfold _int; split.
    - destruct (Str.isdigit s); simpl; [ | discriminate].
      destruct (2 <? String.length s)%nat eqn:El; [discriminate | ].
      apply Nat.ltb_ge in El.
      destruct (Str.to_int s <? m) eqn:Em; [discriminate | ].
      apply Z.ltb_ge in Em; intros H; injection H as <-; auto.
    - intros (-> & Hl & -> & Hm); simpl.
      apply Nat.ltb_ge in Hl; rewrite Hl.
      apply Z.ltb_ge in Hm; rewrite Hm; reflexivity. }
  splits; [exact Hiff | | | reflexivity].
  - intros v H; apply Hiff in H as (Hd & Hl & -> & _).
    apply to_int_bound; assumption.
  - intros H; unfold _int in *; destruct (_ || _); [reflexivity | ].
    destruct (_ <? _); [reflexivity | ].
    exfalso; eapply H; reflexivity.
Qed.

Lemma int_accepts_witness :
  _int "07" 1 = Ok 7 /\ 0 <= 7 <= 99 /\ _int "100" 0 = Raise (bad_value "100").
Proof.
  destruct (int_accepts "07" 1 eq_refl) as (H1 & H2 & _).
  destruct (int_accepts "100" 0 eq_refl) as (_ & _ & H3 & _).
  assert (E : _int "07" 1 = Ok 7) by (apply H1; repeat split; simpl; lia).
  split; [exact E | split; [exact (H2 7 E) | ]].
  apply H3; intros v H; apply (int_accepts "100" 0 eq_refl) in H as (_ & Hl & _).
  simpl in Hl; lia.
Defined.

Lemma upper_char_idem (a : ascii) :
  Str.upper_char (Str.upper_char a) = Str.upper_char a.
Proof. destruct a as [[] [] [] [] [] [] [] []]; reflexivity. Qed.

Lemma upper_idem (s : string) : Str.upper (Str.upper s) = Str.upper s.
Proof.
  induction s as [ | a t IH]; simpl; [reflexivity | ].
  rewrite upper_char_idem, IH; reflexivity.
Qed.

Lemma is_digit_upper (a : ascii) :
  Str.is_digit (Str.upper_char a) = Str.is_digit a.
Proof. destruct a as [[] [] [] [] [] [] [] []]; reflexivity. Qed.

Lemma upper_char_digit (a : ascii) :
  Str.is_digit a = true -> Str.upper_char a = a.
Proof.
  destruct a as [[] [] [] [] [] [] [] []]; intros H; try reflexivity;
    vm_compute in H; discriminate H.
Qed.

Lemma all_digits_upper (s : string) :
  Str.all_digits (Str.upper s) = Str.all_digits s.
Proof.
  induction s as [ | a t IH]; simpl; [reflexivity | ].
  rewrite is_digit_upper, IH; reflexivity.
Qed.

Lemma isdigit_upper (s : string) : Str.isdigit (Str.upper s) = Str.isdigit s.
Proof.
  destruct s as [ | a t]; [reflexivity | ].
  apply (all_digits_upper (String a t)).
Qed.

Lemma upper_digits (s : string) :
  Str.all_digits s = true -> Str.upper s = s.
Proof.
  induction s as [ | a t IH]; simpl; [reflexivity | ].
  intros H; apply andb_true_iff in H as [Ha Ht].
  rewrite (upper_char_digit a Ha), (IH Ht); reflexivity.
Qed.

Lemma isdigit_all_digits (s : string) :
  Str.isdigit s = true -> Str.all_digits s = true.
Proof. destruct s; [discriminate | auto]. Qed.

Lemma Field_int_upper (f : Field) (s : string) (v : Z) :
  Field_int f s = Ok v -> Field_int f (Str.upper s) = Ok v.
Proof.
  unfold Field_int; rewrite upper_idem.
  destruct (if Field_eqb f MONTH then _ else None); [auto | ].
  destruct (if Field_eqb f DOW then _ else None); [auto | ].
  intros H; bind_inv H.
  pose proof (_int_Ok _ _ _ E) as (_ & Hd & _).
  rewrite (upper_digits s (isdigit_all_digits s Hd)), E; exact H.
Qed.

Lemma Field_int_lower (f : Field) (s : string) (v : Z) :
  Field_int f (Str.upper s) = Ok v -> Field_int f s = Ok v.
Proof.
  unfold Field_int; rewrite upper_idem.
  destruct (if Field_eqb f MONTH then _ else None); [auto | ].
  destruct (if Field_eqb f DOW then _ else None); [auto | ].
  intros H; bind_inv H.
  pose proof (_int_Ok _ _ _ E) as (_ & Hd & _).
  rewrite isdigit_upper in Hd.
  rewrite (upper_digits s (isdigit_all_digits s Hd)) in E, H.
  rewrite E; exact H.
Qed.

(** X2.  On an ASCII text, [Field.int] returns a value of the field's
    domain and does not look at the case of the letters A .. Z.  In any
    case of these letters, the month names JAN .. DEC are 1 .. 12 on the
    month field and the day names SUN .. SAT are 0 .. 6 on the day-of-week
    field; on the other fields a name is a bad value. *)
Theorem Field_int_names (f : Field) (s : string) :
  ascii_text s = true ->
  (forall v, Field_int f s = Ok v -> range_min f <= v <= range_max f)
  /\ (forall v, Field_int f s = Ok v <-> Field_int f (Str.upper s) = Ok v)
  /\ (forall i, nth_error SYMBOLIC_MONTHS i = Some (Str.upper s) ->
                Field_int MONTH s = Ok (Z.of_nat i + 1))
  /\ (forall i, nth_error SYMBOLIC_DAYS i = Some (Str.upper s) ->
                Field_int DOW s = Ok (Z.of_nat i))
  /\ (In (Str.upper s) (SYMBOLIC_MONTHS ++ SYMBOLIC_DAYS) ->
      f <> MONTH -> f <> DOW -> Field_int f s = Raise (bad_value s)).
Proof.
  intros _; splits.
  - intros v; apply Field_int_range.
  - intros v; split; [apply Field_int_upper | apply Field_int_lower].
  - intros i Hi; unfold Field_int; simpl Field_eqb; cbv iota.
    do 12 (destruct i as [ | i];
           [injection Hi as <-; reflexivity | ]).
    destruct i; discriminate.
  - intros i Hi; unfold Field_int; simpl Field_eqb; cbv iota.
    do 7 (destruct i as [ | i];
          [injection Hi as <-; reflexivity | ]).
    destruct i; discriminate.
  - intros Hin Hm Hd; unfold Field_int.
    replace (Field_eqb f MONTH) with false by (destruct f; simpl; congruence).
    replace (Field_eqb f DOW) with false by (destruct f; simpl; congruence).
    assert (Hnd : Str.isdigit s = false).
    { rewrite <- isdigit_upper.
      simpl in Hin; repeat destruct Hin as [<- | Hin]; try reflexivity.
      contradiction. }
    unfold _int; rewrite Hnd; reflexivity.
Qed.

Lemma Field_int_names_witness :
  Field_int MONTH "Feb" = Ok 2 /\ Field_int DOW "sat" = Ok 6
  /\ Field_int HOUR "Feb" = Raise (bad_value "Feb")
  /\ Field_int MONTH "FEB" = Ok 2.
Proof.
  destruct (Field_int_names MONTH "Feb" eq_refl) as (_ & Hup & Hm & _).
  destruct (Field_int_names DOW "sat" eq_refl) as (_ & _ & _ & Hd & _).
  destruct (Field_int_names HOUR "Feb" eq_refl) as (_ & _ & _ & _ & Hbad).
  assert (E : Field_int MONTH "Feb" = Ok 2) by (apply (Hm 1%nat); reflexivity).
  splits.
  - exact E.
  - apply (Hd 6%nat); reflexivity.
  - apply Hbad; [simpl; tauto | discriminate | discriminate].
  - apply (proj1 (Hup 2) E).
Defined.

(** ** What the grammar accepts *)

Lemma digits_lack (c : ascii) (s : string) :
  Str.is_digit c = false -> Str.isdigit s = true -> Str.contains c s = false.
Proof.
  intros Hc Hd; destruct (Str.contains c s) eqn:E; [ | reflexivity].
  rewrite (isdigit_contains c s Hc E) in Hd; discriminate.
Qed.

Lemma digits_not_text (s t : string) :
  Str.isdigit s = true -> Str.isdigit t = false -> String.eqb s t = false.
Proof.
  intros Hs Ht; destruct (String.eqb s t) eqn:E; [ | reflexivity].
  apply String.eqb_eq in E; congruence.
Qed.

Lemma digits_no_name (s : string) (l : list string) :
  Forall (fun t => Str.isdigit t = false) l -> Str.isdigit s = true ->
  Str.index_of (Str.upper s) l = None.
Proof.
  intros Hl Hs; destruct (Str.index_of _ l) as [i | ] eqn:E; [ | reflexivity].
  apply index_of_In in E; eapply Forall_forall in Hl; [ | exact E].
  rewrite isdigit_upper in Hl; congruence.
Qed.

Lemma Field_int_digits (f : Field) (s : string) :
  Str.isdigit s = true ->
  Field_int f s =
  (v <- _int s 0 ;;
   if negb (ISet.mem (V v) (RANGES f)) then Raise (bad_value s) else Ok v).
Proof.
  intros Hs; unfold Field_int.
  rewrite !digits_no_name by first [assumption | repeat constructor].
  destruct (Field_eqb f MONTH), (Field_eqb f DOW); reflexivity.
Qed.

(** X3.  A text made of digits alone is taken as a number by [Field.parse]:
    with at most two digits and a value inside the field's domain it gives
    the set of that one value; with more digits or a value outside the
    domain (60 as a minute, 24 as an hour, 0 as a day or month, 7 as a day
    of the week) it raises "Bad value: " followed by the text. *)
Theorem parse_number (f : Field) (s : string) :
  Str.isdigit s = true ->
  ((String.length s <= 2)%nat
   /\ range_min f <= Str.to_int s <= range_max f ->
   parse f s = Ok [V (Str.to_int s)])
  /\ (~ ((String.length s <= 2)%nat
         /\ range_min f <= Str.to_int s <= range_max f) ->
      parse f s = Raise (bad_value s)).
Proof.
  intros Hs.
  assert (Hbody : parse f s = (v <- Field_int f s ;; Ok [V v])).
  { change (parse f s) with (parse_body (parse_fuel 2 f) f s).
    unfold parse_body.
    rewrite (digits_not_text s "*"), (digits_not_text s "L"),
      (digits_not_text s "l") by first [assumption | reflexivity].
    rewrite !digits_lack by first [assumption | reflexivity].
    rewrite andb_false_r; reflexivity. }
  rewrite Hbody, (Field_int_digits f s Hs); unfold _int; rewrite Hs; simpl.
  pose proof (mem_RANGES f (Str.to_int s)) as Hr.
  split.
  - intros [Hl Hv]; apply Nat.ltb_ge in Hl; rewrite Hl.
    replace (Str.to_int s <? 0) with false
      by (symmetry; apply Z.ltb_ge; destruct f; simpl in Hv; lia).
    simpl; rewrite (proj2 Hr Hv); reflexivity.
  - intros Hno; destruct (2 <? String.length s)%nat eqn:El; [reflexivity | ].
    apply Nat.ltb_ge in El.
    destruct (Str.to_int s <? 0); [reflexivity | ]; simpl.
    destruct (ISet.mem (V (Str.to_int s)) (RANGES f)) eqn:Em; [ | reflexivity].
    exfalso; apply Hno; split; [exact El | apply Hr; reflexivity].
Qed.

Lemma parse_number_witness :
  parse HOUR "23" = Ok [V 23] /\ parse HOUR "24" = Raise (bad_value "24")
  /\ parse DOW "7" = Raise (bad_value "7")
  /\ parse MINUTE "007" = Raise (bad_value "007").
Proof.
  splits.
  - apply (proj1 (parse_number HOUR "23" eq_refl)); simpl.
    unfold Str.to_int; simpl; lia.
  - apply (proj2 (parse_number HOUR "24" eq_refl)); simpl.
    unfold Str.to_int; simpl; lia.
  - apply (proj2 (parse_number DOW "7" eq_refl)); simpl.
    unfold Str.to_int; simpl; lia.
  - apply (proj2 (parse_number MINUTE "007" eq_refl)); simpl; lia.
Defined.

Lemma parse_terms_In (p : string -> outcome itemset) (terms : list string)
    (acc r : itemset) :
  parse_terms p terms acc = Ok r ->
  (forall t, In t terms -> exists rt, p t = Ok rt)
  /\ forall x,
       In x r <->
       In x acc \/ exists t rt, In t terms /\ p t = Ok rt /\ In x rt.
Proof.
  revert acc; induction terms as [ | u us IH]; simpl; intros acc H.
  - injection H as <-; split; [contradiction | ].
    intros x; split; [auto | intros [H | (t & rt & [] & _)]; exact H].
  - bind_inv H; destruct (IH _ H) as [Hall Hin]; split.
    + intros t [<- | Ht]; eauto.
    + intros x; rewrite Hin, In_update; split.
      * intros [[Hx | Hx] | (t & rt & Ht & Hp & Hx)]; eauto 8.
      * intros [Hx | (t & rt & [<- | Ht] & Hp & Hx)]; eauto 8.
        left; right; congruence.
Qed.

Lemma parse_terms_defined (p : string -> outcome itemset)
    (terms : list string) (acc : itemset) :
  (forall t, In t terms -> exists rt, p t = Ok rt) ->
  exists r, parse_terms p terms acc = Ok r.
Proof.
  revert acc; induction terms as [ | u us IH]; simpl; intros acc H.
  - eauto.
  - destruct (H u (or_introl eq_refl)) as [rt ->]; simpl.
    apply IH; intros t Ht; apply H; right; exact Ht.
Qed.

(** X4.  A text with commas is accepted exactly when each of the pieces
    between the commas is accepted on its own, and its set is the union of
    the sets of the pieces: an empty piece, as in "1,,2" or "1,", makes the
    whole text fail. *)
Theorem parse_comma_union (f : Field) (s : string) :
  Str.contains "," s = true ->
  ((exists r, parse f s = Ok r) <->
   forall t, In t (Str.split "," s) -> exists rt, parse f t = Ok rt)
  /\ (forall r,
        parse f s = Ok r ->
        forall x,
          In x r <->
          exists t rt, In t (Str.split "," s) /\ parse f t = Ok rt
                       /\ In x rt)
  /\ (In EmptyString (Str.split "," s) -> raised (parse f s)).
Proof.
  intros Hc.
  assert (Hbody : parse f s
                  = parse_terms (parse f) (Str.split "," s) ISet.empty).
  { change (parse f s) with (parse_body (parse_fuel 2 f) f s).
    unfold parse_body; rewrite (not_star "," s Hc eq_refl), Hc.
    apply (parse_terms_ext (fun t => Str.contains "," t = false)).
    - intros t Ht; apply parse_fuel_2; exact Ht.
    - apply split_no_sep. }
  assert (Hall : (exists r, parse f s = Ok r) <->
                 forall t, In t (Str.split "," s) ->
                           exists rt, parse f t = Ok rt).
  { rewrite Hbody; split.
    - intros [r H]; apply parse_terms_In in H as [H _]; exact H.
    - apply parse_terms_defined. }
  splits.
  - exact Hall.
  - intros r H x; rewrite Hbody in H; apply parse_terms_In in H as [_ H].
    rewrite H; simpl; intuition.
  - intros Hin; apply not_ok_raised; [ | apply parse_definite].
    intros r Hr.
    destruct (proj1 Hall (ex_intro _ r Hr) _ Hin) as [rt Hrt].
    vm_compute in Hrt; destruct f; discriminate.
Qed.

Lemma parse_comma_union_witness :
  (exists r, parse MONTH "jan,6-8" = Ok r)
  /\ raised (parse MONTH "1,,2").
Proof.
  destruct (parse_comma_union MONTH "jan,6-8" eq_refl) as (H1 & _).
  destruct (parse_comma_union MONTH "1,,2" eq_refl) as (_ & _ & H3).
  split.
  - apply H1; intros t [<- | [<- | []]]; eexists; reflexivity.
  - apply H3; simpl; tauto.
Defined.

(** X5.  An ASCII text [a-b] outside a comma list and a step construct is
    accepted exactly when [Field.int] accepts both ends and the first is
    not above the second, names of months and days included; its set then
    holds the integers from the first to the second, both included, and
    nothing else. *)
Theorem parse_range (f : Field) (s a b : string) :
  ascii_text s = true ->
  Str.contains "," s = false -> Str.contains "/" s = false ->
  Str.contains "#" s && Field_eqb f DOW = false ->
  Str.split1 "-" s = Some (a, b) ->
  ((exists r, parse f s = Ok r) <->
   exists x y, Field_int f a = Ok x /\ Field_int f b = Ok y /\ x <= y)
  /\ (forall r x y,
        parse f s = Ok r -> Field_int f a = Ok x -> Field_int f b = Ok y ->
        forall v, In v r <-> exists n, v = V n /\ x <= n <= y).
Proof.
  intros _ Hc Hs Hh E.
  pose proof (split1_defined_conv _ _ _ _ E) as Hd.
  assert (Hbody : parse f s =
                  (start <- Field_int f a ;;
                   end_ <- Field_int f b ;;
                   if end_ <? start then Raise bad_range
                   else Ok (ISet.of_list (map V (zrange start (end_ + 1)))))).
  { change (parse f s) with (parse_body (parse_fuel 2 f) f s).
    unfold parse_body.
    rewrite (not_star "-" s Hd eq_refl), Hc, Hh, Hs, Hd, E; reflexivity. }
  rewrite Hbody; split.
  - split.
    + intros [r H]; bind_inv H; bind_inv H.
      destruct (a1 <? a0) eqn:El; [discriminate | ].
      apply Z.ltb_ge in El; eauto.
    + intros (x & y & -> & -> & Hxy); simpl.
      apply Z.ltb_ge in Hxy; rewrite Hxy; eauto.
  - intros r x y H Hx Hy v; rewrite Hx, Hy in H; simpl in H.
    destruct (y <? x); [discriminate | ].
    injection H as <-; rewrite In_of_list, in_map_iff; split.
    + intros (n & <- & Hn); apply In_zrange in Hn; exists n; split; [auto | lia].
    + intros (n & -> & Hn); exists n; split; [auto | apply In_zrange; lia].
Qed.

Lemma parse_range_witness :
  (exists r, parse DOW "mon-fri" = Ok r)
  /\ forall v, In v [V 1; V 2; V 3; V 4; V 5] <->
               exists n, v = V n /\ 1 <= n <= 5.
Proof.
  destruct (parse_range DOW "mon-fri" "mon" "fri"
              eq_refl eq_refl eq_refl eq_refl eq_refl) as [H1 H2].
  split.
  - apply H1; exists 1, 5; splits; try reflexivity; lia.
  - apply (H2 [V 1; V 2; V 3; V 4; V 5] 1 5); reflexivity.
Defined.

(** ** The compiled object *)

(** X6.  The six sets of an object that the constructor built hold values
    of their own field's domain only, the day set in addition the last-day
    sentinel and the weekday set in addition pairs of a weekday of 0 .. 6
    and an ordinal of at least 1; each set is kept in strictly increasing
    order, so no value occurs twice. *)
Theorem init_domains (expr : string) (start : datetime) (self : CronSim) :
  init expr start = Ok self ->
  (Forall (item_ok MINUTE) (minutes self)
   /\ Forall (item_ok HOUR) (hours self)
   /\ Forall (item_ok DAY) (days self)
   /\ Forall (item_ok MONTH) (months self)
   /\ Forall (item_ok DOW) (weekdays self)
   /\ Forall (item_ok SECOND) (seconds self))
  /\ (StronglySorted item_lt (minutes self)
      /\ StronglySorted item_lt (hours self)
      /\ StronglySorted item_lt (days self)
      /\ StronglySorted item_lt (months self)
      /\ StronglySorted item_lt (weekdays self)
      /\ StronglySorted item_lt (seconds self)).
Proof.
  intros H; apply init_Ok in H.
  destruct H as (_ & mi & h & d & m & w & s & Hmi & Hh & Hd & Hm & Hw & Hs & ->).
  cbn [minutes hours days months weekdays seconds].
  pose proof (parse_sorted _ _ _ Hmi); pose proof (parse_sorted _ _ _ Hh).
  pose proof (parse_sorted _ _ _ Hd); pose proof (parse_sorted _ _ _ Hm).
  pose proof (parse_sorted _ _ _ Hw); pose proof (parse_sorted _ _ _ Hs).
  apply parse_good in Hmi as [_ Hmi], Hh as [_ Hh], Hd as [_ Hd],
    Hm as [_ Hm], Hw as [_ Hw], Hs as [_ Hs].
  assert (He : Forall (item_ok DAY) ISet.empty /\ Forall (item_ok DOW) ISet.empty
               /\ StronglySorted item_lt ISet.empty)
    by (splits; constructor).
  destruct He as (He1 & He2 & He3).
  splits; try assumption;
    repeat match goal with |- context [if ?c then _ else _] => destruct c end;
    assumption.
Qed.

Lemma init_domains_witness :
  exists self,
    init "*/15 9-17 L * mon#1" (datetime_of 2020 1 1 0 0 0) = Ok self
    /\ Forall (item_ok DAY) (days self)
    /\ Forall (item_ok DOW) (weekdays self).
Proof.
  assert (H : exists self,
             init "*/15 9-17 L * mon#1" (datetime_of 2020 1 1 0 0 0)
             = Ok self) by (eexists; reflexivity).
  destruct H as [self H]; exists self; split; [exact H | ].
  destruct (init_domains _ _ _ H) as ((_ & _ & Hd & _ & Hw & _) & _).
  split; assumption.
Defined.

(** X7.  Weekdays in an expression count from Sunday, which is 0, to
    Saturday, which is 6.  On a compiled object the two weekday tests of
    [match_day], by the ISO number 1 .. 7 and by that number modulo 7,
    accept a date exactly when the remainder of its ordinal by 7 is in the
    weekday set, and such a date is accepted whatever the day set is. *)
Theorem weekday_convention (expr : string) (start : datetime) (self : CronSim)
    (d : Z) :
  init expr start = Ok self ->
  (ISet.mem (V (weekday d + 1)) (weekdays self)
   || ISet.mem (V ((weekday d + 1) mod 7)) (weekdays self) = true
   <-> In (V (d mod 7)) (weekdays self))
  /\ (In (V (d mod 7)) (weekdays self) -> match_day self d = true).
Proof.
  intros H.
  assert (Hw : Forall (item_ok DOW) (weekdays self)).
  { apply init_Ok in H.
    destruct H as (_ & mi & h & dd & m & w & s & _ & _ & _ & _ & Hw & _ & ->).
    apply parse_good in Hw as [_ Hw]; cbn [weekdays].
    destruct (_ && _); [constructor | exact Hw]. }
  assert (Hmod : (weekday d + 1) mod 7 = d mod 7).
  { unfold weekday.
    pose proof (Z.div_mod (d + 6) 7 ltac:(lia)).
    pose proof (Z.mod_pos_bound (d + 6) 7 ltac:(lia)).
    pose proof (Z.div_mod ((d + 6) mod 7 + 1) 7 ltac:(lia)).
    pose proof (Z.mod_pos_bound ((d + 6) mod 7 + 1) 7 ltac:(lia)).
    pose proof (Z.div_mod d 7 ltac:(lia)).
    pose proof (Z.mod_pos_bound d 7 ltac:(lia)).
    lia. }
  assert (Hiff : ISet.mem (V (weekday d + 1)) (weekdays self)
                 || ISet.mem (V ((weekday d + 1) mod 7)) (weekdays self) = true
                 <-> In (V (d mod 7)) (weekdays self)).
  { rewrite orb_true_iff, !mem_In, Hmod; split; [ | auto].
    intros [Hin | Hin]; [ | exact Hin].
    pose proof Hin as Hok; eapply Forall_forall in Hok; [ | exact Hw].
    simpl in Hok; destruct Hok as [Hr | [Hf _]]; [ | discriminate].
    rewrite <- Hmod, Z.mod_small by lia; exact Hin. }
  split; [exact Hiff | ].
  intros Hin; apply Hiff in Hin; unfold match_day.
  destruct (ISet.mem (V (day_of d)) (days self)); [reflexivity | ].
  destruct (_ && _); [reflexivity | ].
  rewrite Hin; reflexivity.
Qed.

Lemma weekday_convention_witness :
  exists self,
    init "* * * * sun" (datetime_of 2020 1 1 0 0 0) = Ok self
    /\ match_day self (ymd2ord 2020 1 5) = true.
Proof.
  assert (H : exists self,
             init "* * * * sun" (datetime_of 2020 1 1 0 0 0) = Ok self)
    by (eexists; reflexivity).
  destruct H as [self H]; exists self; split; [exact H | ].
  apply (weekday_convention _ _ self (ymd2ord 2020 1 5) H).
  vm_compute in H; injection H as <-; simpl; auto.
Defined.

(** ** What a stage leaves behind *)

Lemma min_delta_attained (m cur delta : Z) (s : itemset) :
  min_delta m cur s = Ok delta ->
  exists w, In (V w) s /\ delta = (w - cur) mod m.
Proof.
  unfold min_delta; destruct (forallb ISet.is_int s); [ | discriminate].
  intros H; apply zmin_Ok in H as [H _].
  apply in_map_iff in H as (w & <- & Hw); apply In_ints in Hw; eauto.
Qed.

Lemma min_Ok_In (s : itemset) (v : Z) : ISet.min s = Ok v -> In (V v) s.
Proof.
  unfold ISet.min; destruct (forallb ISet.is_int s); [ | discriminate].
  intros H; apply zmin_Ok in H as [H _]; apply In_ints; exact H.
Qed.

(** X8.  The three clock stages do what their docstrings say.  A stage that
    returns [False] has left the object alone, and a stage that returns
    [True] has moved the cursor to a strictly later instant; either way the
    field of the stage is then in its set.  After a move the fields below
    it hold the minimum of their sets: minute and second after the hour
    stage, the second after the minute stage. *)
Theorem clock_stage_effect (self : CronSim) :
  clock_sets_ok self -> cursor_ok self ->
  (forall moved self',
     advance_hour self = Ok (moved, self') ->
     In (V (hour (dt self'))) (hours self)
     /\ (moved = false -> self' = self)
     /\ (moved = true ->
         seconds_of (dt self) < seconds_of (dt self')
         /\ ISet.min (minutes self) = Ok (minute (dt self'))
         /\ ISet.min (seconds self) = Ok (second (dt self'))))
  /\ (forall moved self',
        advance_minute self = Ok (moved, self') ->
        In (V (minute (dt self'))) (minutes self)
        /\ (moved = false -> self' = self)
        /\ (moved = true ->
            seconds_of (dt self) < seconds_of (dt self')
            /\ ISet.min (seconds self) = Ok (second (dt self'))))
  /\ (forall moved self',
        advance_second self = Ok (moved, self') ->
        In (V (second (dt self'))) (seconds self)
        /\ (moved = false -> self' = self)
        /\ (moved = true -> seconds_of (dt self) < seconds_of (dt self'))).
Proof.
  intros Hsets Hcur.
  pose proof Hsets as (Hh & Hhne & Hm & Hmne & Hs & Hsne).
  pose proof Hcur as [Hv Hz].
  splits.
  - intros moved self' H.
    pose proof (advance_hour_Ok self Hsets Hcur _ _ H) as [A F].
    unfold advance_hour in H.
    destruct (ISet.mem (V (hour (dt self))) (hours self)) eqn:E.
    { injection H as <- <-; splits; [apply mem_In; exact E | auto | ].
      discriminate. }
    do 5 bind_inv H; injection H as <- <-.
    destruct (min_delta_attained _ _ _ _ E0) as (w & Hw & Hd).
    pose proof (ints_in_V _ _ _ Hh Hw) as Hwr.
    destruct (min_delta_spec 24 (hour (dt self)) (hours self))
      as (delta & Hd' & Hr & _); try assumption; [apply Hv | ].
    rewrite Hd' in E0; injection E0 as <-.
    apply add_seconds_Ok in E1 as (H1 & H2 & _); [ | exact Hv | lia].
    pose proof (min_Ok_In _ _ E2) as Hmm; pose proof (min_Ok_In _ _ E3) as Hss.
    rewrite replace_time_Ok in E4
      by first [exact (ints_in_V _ _ _ Hm Hmm) | exact (ints_in_V _ _ _ Hs Hss)].
    injection E4 as <-; cbn [dt set_dt hour minute second].
    splits; [ | discriminate | intros _; splits; try assumption].
    + replace (hour a0) with w; [exact Hw | ].
      destruct Hv as (Ho & Hh' & Hm' & Hs' & Hu).
      destruct H1 as (Ho1 & Hh1 & Hm1 & Hs1 & Hu1).
      unfold seconds_of in H2.
      pose proof (Z.div_mod (w - hour (dt self)) 24 ltac:(lia)).
      pose proof (Z.mod_pos_bound (w - hour (dt self)) 24 ltac:(lia)).
      set (q := (w - hour (dt self)) / 24) in *.
      assert (ordinal a0 * 24 + hour a0
              = ordinal (dt self) * 24 + hour (dt self) + delta) by lia.
      lia.
    + destruct A as (d & Ed & _ & _ & _ & Hlt).
      apply (f_equal dt) in Ed; cbn [dt set_dt] in Ed; rewrite <- Ed in Hlt.
      exact Hlt.
  - intros moved self' H.
    pose proof (advance_minute_Ok self Hsets Hcur _ _ H) as [A F].
    unfold advance_minute in H.
    destruct (ISet.mem (V (minute (dt self))) (minutes self)) eqn:E.
    { injection H as <- <-; splits; [apply mem_In; exact E | auto | ].
      discriminate. }
    do 4 bind_inv H; injection H as <- <-.
    destruct (min_delta_attained _ _ _ _ E0) as (w & Hw & Hd).
    pose proof (ints_in_V _ _ _ Hm Hw) as Hwr.
    destruct (min_delta_spec 60 (minute (dt self)) (minutes self))
      as (delta & Hd' & Hr & _); try assumption; [apply Hv | ].
    rewrite Hd' in E0; injection E0 as <-.
    apply add_seconds_Ok in E1 as (H1 & H2 & _); [ | exact Hv | lia].
    pose proof (min_Ok_In _ _ E2) as Hss.
    rewrite replace_time_Ok in E3
      by first [apply H1 | exact (ints_in_V _ _ _ Hs Hss)].
    injection E3 as <-; cbn [dt set_dt hour minute second].
    splits; [ | discriminate | intros _; splits; try assumption].
    + replace (minute a0) with w; [exact Hw | ].
      destruct Hv as (Ho & Hh' & Hm' & Hs' & Hu).
      destruct H1 as (Ho1 & Hh1 & Hm1 & Hs1 & Hu1).
      unfold seconds_of in H2.
      pose proof (Z.div_mod (w - minute (dt self)) 60 ltac:(lia)).
      pose proof (Z.mod_pos_bound (w - minute (dt self)) 60 ltac:(lia)).
      set (q := (w - minute (dt self)) / 60) in *.
      assert (ordinal a0 * 1440 + hour a0 * 60 + minute a0
              = ordinal (dt self) * 1440 + hour (dt self) * 60
                + minute (dt self) + delta) by lia.
      lia.
    + destruct A as (d & Ed & _ & _ & _ & Hlt).
      apply (f_equal dt) in Ed; cbn [dt set_dt] in Ed; rewrite <- Ed in Hlt.
      exact Hlt.
  - intros moved self' H.
    pose proof (advance_second_Ok self Hsets Hcur _ _ H) as [A F].
    unfold advance_second in H.
    destruct (ISet.mem (V (second (dt self))) (seconds self)) eqn:E.
    { injection H as <- <-; splits; [apply mem_In; exact E | auto | ].
      discriminate. }
    do 2 bind_inv H; injection H as <- <-.
    destruct (min_delta_attained _ _ _ _ E0) as (w & Hw & Hd).
    pose proof (ints_in_V _ _ _ Hs Hw) as Hwr.
    destruct (min_delta_spec 60 (second (dt self)) (seconds self))
      as (delta & Hd' & Hr & _); try assumption; [apply Hv | ].
    rewrite Hd' in E0; injection E0 as <-.
    apply add_seconds_Ok in E1 as (H1 & H2 & _); [ | exact Hv | lia].
    cbn [dt set_dt].
    splits; [ | discriminate | intros _].
    + replace (second a0) with w; [exact Hw | ].
      destruct Hv as (Ho & Hh' & Hm' & Hs' & Hu).
      destruct H1 as (Ho1 & Hh1 & Hm1 & Hs1 & Hu1).
      unfold seconds_of in H2.
      pose proof (Z.div_mod (w - second (dt self)) 60 ltac:(lia)).
      pose proof (Z.mod_pos_bound (w - second (dt self)) 60 ltac:(lia)).
      lia.
    + lia.
Qed.

Lemma clock_stage_effect_witness :
  exists self moved self',
    init "15 9 * * *" (datetime_of 2020 1 1 10 0 0) = Ok self
    /\ advance_hour self = Ok (moved, self')
    /\ In (V (hour (dt self'))) (hours self).
Proof.
  assert (H : exists self moved self',
             init "15 9 * * *" (datetime_of 2020 1 1 10 0 0) = Ok self
             /\ advance_hour self = Ok (moved, self'))
    by (do 3 eexists; split; [reflexivity | vm_compute; reflexivity]).
  destruct H as (self & moved & self' & Hinit & Hadv).
  exists self, moved, self'; split; [exact Hinit | split; [exact Hadv | ]].
  assert (Hv : valid_datetime (datetime_of 2020 1 1 10 0 0))
    by (vm_compute; intuition discriminate).
  destruct (init_ok _ _ _ Hv Hinit) as [Hsets Hcur].
  destruct (clock_stage_effect self Hsets Hcur) as (Hhour & _).
  apply (Hhour moved self' Hadv).
Defined.

Lemma scan_Raise (n : nat) (p : Z -> bool) (x : Z) (e : exn) :
  scan n p x = Raise e -> e = OverflowError.
Proof.
  revert x; induction n as [ | n IH]; simpl; intros x;
    destruct (p x); try discriminate.
  unfold date_add_days; destruct (_ && _); simpl; [apply IH | congruence].
Qed.

(** X9.  The two date stages move the cursor to the first date, from the
    date of the cursor on, that passes their test ([match_day] for the day
    stage, membership of the month for the month stage): no date in between
    passes it.  A stage that moved the date has set the time to midnight
    and kept the time zone; one that found the cursor's own date passing
    leaves the object alone.  The only error of the scan is the overflow of
    the calendar. *)
Theorem date_stage_effect (k : nat) (self : CronSim) :
  (forall moved self',
     advance_day k self = Ok (moved, self') ->
     match_day self (ordinal (dt self')) = true
     /\ (forall z, ordinal (dt self) <= z < ordinal (dt self') ->
                   match_day self z = false)
     /\ (moved = false -> self' = self)
     /\ (moved = true ->
         ordinal (dt self) < ordinal (dt self')
         /\ dt self' = mkdatetime (ordinal (dt self')) 0 0 0 0
                         (tzinfo (dt self))))
  /\ (forall self',
        advance_month k self = Ok self' ->
        ISet.mem (V (month_of (ordinal (dt self')))) (months self) = true
        /\ (forall z, ordinal (dt self) <= z < ordinal (dt self') ->
                      ISet.mem (V (month_of z)) (months self) = false)
        /\ (self' = self
            \/ ordinal (dt self) < ordinal (dt self')
               /\ dt self' = mkdatetime (ordinal (dt self')) 0 0 0 0
                               (tzinfo (dt self))))
  /\ (forall e, advance_day k self = Raise e -> e = OverflowError)
  /\ (forall e, advance_month k self = Raise e -> e = OverflowError).
Proof.
  splits.
  - intros moved self'; unfold advance_day.
    destruct (match_day self (ordinal (dt self))) eqn:E.
    + intros H; injection H as <- <-; splits; auto; try discriminate.
      intros z Hz; lia.
    + intros H; bind_inv H; injection H as <- <-;
        unfold combine_midnight; cbn [dt set_dt ordinal].
      apply scan_Ok in E0 as (H1 & H2 & _ & H4).
      splits; auto; try discriminate.
      intros _; split; [ | reflexivity].
      assert (ordinal (dt self) <> a) by congruence; lia.
  - intros self'; unfold advance_month, month_ok.
    destruct (ISet.mem (V (month_of (ordinal (dt self)))) (months self))
      eqn:E.
    + intros H; injection H as <-; splits; auto.
      intros z Hz; lia.
    + intros H; bind_inv H; injection H as <-;
        unfold combine_midnight; cbn [dt set_dt ordinal].
      apply scan_Ok in E0 as (H1 & H2 & _ & H4).
      splits; auto.
      right; split; [ | reflexivity].
      assert (ordinal (dt self) <> a) by congruence; lia.
  - intros e; unfold advance_day; destruct (match_day self _); [discriminate | ].
    intros H; apply bind_Raise in H as [H | (y & _ & H)]; [ | discriminate].
    eapply scan_Raise; exact H.
  - intros e; unfold advance_month; destruct (month_ok self _);
      [discriminate | ].
    intros H; apply bind_Raise in H as [H | (y & _ & H)]; [ | discriminate].
    eapply scan_Raise; exact H.
Qed.

Lemma date_stage_effect_witness :
  exists self moved self',
    init "0 0 29 2 *" (datetime_of 2021 1 15 0 0 0) = Ok self
    /\ advance_day 20 self = Ok (moved, self')
    /\ match_day self (ordinal (dt self')) = true
    /\ moved = true /\ ordinal (dt self) < ordinal (dt self').
Proof.
  assert (H : exists self self',
             init "0 0 29 2 *" (datetime_of 2021 1 15 0 0 0) = Ok self
             /\ advance_day 20 self = Ok (true, self'))
    by (do 2 eexists; split; [reflexivity | vm_compute; reflexivity]).
  destruct H as (self & self' & Hinit & Hadv).
  exists self, true, self'; split; [exact Hinit | split; [exact Hadv | ]].
  destruct (date_stage_effect 20 self) as (Hday & _).
  destruct (Hday true self' Hadv) as (H1 & _ & _ & H4).
  split; [exact H1 | split; [reflexivity | apply H4; reflexivity]].
Defined.

(** ** The instants that [next] returns *)

Lemma reachable_tz (expr : string) (start : datetime) (self : CronSim) :
  valid_datetime start -> reachable expr start self ->
  tzinfo (dt self) = tzinfo start.
Proof.
  intros Hv Hreach; induction Hreach as [self H | self self' fuel r Hr IH H].
  - apply init_Ok in H.
    destruct H as (_ & mi & h & d & m & w & s & _ & _ & _ & _ & _ & _ & ->).
    reflexivity.
  - destruct (reachable_ok _ _ _ Hv Hr) as [Hsets Hcur].
    apply next_Ok in H as (_ & (d & -> & _ & _ & Ht & _) & _); try assumption.
    cbn [dt set_dt]; congruence.
Qed.

(** X10.  An instant that [next] returns is an instant of the calendar
    with whole seconds: its date lies between 0001-01-01 and 9999-12-31,
    hour, minute and second are in range and the microsecond is 0.  It
    carries the time zone of the start instant unchanged, and it is the
    cursor of the object after the call. *)
Theorem next_result_shape (expr : string) (start : datetime)
    (self self' : CronSim) (fuel : nat) (r : datetime) :
  valid_datetime start -> reachable expr start self ->
  next fuel self = Ok (self', r) ->
  valid_datetime r /\ microsecond r = 0 /\ tzinfo r = tzinfo start
  /\ dt self' = r.
Proof.
  intros Hv Hreach H.
  pose proof (reachable_tz _ _ _ Hv (reach_next _ _ _ _ _ _ Hreach H)) as Ht.
  destruct (reachable_ok _ _ _ Hv Hreach) as [Hsets Hcur].
  apply next_Ok in H as (-> & A & _); try assumption.
  destruct (advanced_cursor _ _ _ A) as [H1 H2]; splits; auto.
Qed.

Lemma next_result_shape_witness :
  exists self self' r,
    init "1 1 L * *" (mkdatetime (ymd2ord 2020 1 1) 5 6 7 8 (Some 60))
    = Ok self
    /\ next 40 self = Ok (self', r)
    /\ valid_datetime r /\ microsecond r = 0 /\ tzinfo r = Some 60.
Proof.
  assert (H : exists self self' r,
             init "1 1 L * *" (mkdatetime (ymd2ord 2020 1 1) 5 6 7 8 (Some 60))
             = Ok self
             /\ next 40 self = Ok (self', r))
    by (do 3 eexists; split; [reflexivity | vm_compute; reflexivity]).
  destruct H as (self & self' & r & Hinit & Hnext).
  exists self, self', r; split; [exact Hinit | split; [exact Hnext | ]].
  assert (Hv : valid_datetime
                 (mkdatetime (ymd2ord 2020 1 1) 5 6 7 8 (Some 60)))
    by (vm_compute; intuition discriminate).
  destruct (next_result_shape _ _ self self' 40%nat r Hv
              (reach_init _ _ _ Hinit) Hnext) as (H1 & H2 & H3 & _).
  splits; assumption.
Defined.

Lemma next_least_inv (self self' : CronSim) (fuel : nat) (r t : datetime) :
  clock_sets_ok self -> cursor_ok self ->
  next fuel self = Ok (self', r) ->
  valid_datetime t -> matches self t ->
  seconds_of (dt self) < seconds_of t ->
  seconds_of r <= seconds_of t.
Proof.
  intros Hsets Hcur H Hvt Hm Hlt.
  set (big := Nat.max fuel (Z.to_nat (seconds_of t - seconds_of (dt self)))).
  destruct (next_reach t big self) as (s2 & r2 & H2 & Hle);
    try assumption; [lia | ].
  rewrite (next_more fuel big _ _ H) in H2 by lia.
  injection H2 as _ <-; exact Hle.
Qed.

(** X11.  [next] returns the earliest instant after the cursor that passes
    the five tests: the result passes them and is later than the cursor,
    and no instant of the calendar that passes them lies strictly between
    the cursor and the result.  So [next] returns, with enough fuel,
    exactly when such an instant exists. *)
Theorem next_least (expr : string) (start : datetime) (self : CronSim) :
  valid_datetime start -> reachable expr start self ->
  (forall fuel self' r,
     next fuel self = Ok (self', r) ->
     valid_datetime r /\ matches self r
     /\ seconds_of (dt self) < seconds_of r
     /\ forall t,
          valid_datetime t -> matches self t ->
          seconds_of (dt self) < seconds_of t ->
          seconds_of r <= seconds_of t)
  /\ ((exists fuel self' r, next fuel self = Ok (self', r)) <->
      exists t, valid_datetime t /\ matches self t
                /\ seconds_of (dt self) < seconds_of t).
Proof.
  intros Hv Hreach.
  destruct (reachable_ok _ _ _ Hv Hreach) as [Hsets Hcur].
  assert (Hfirst : forall fuel self' r,
             next fuel self = Ok (self', r) ->
             valid_datetime r /\ matches self r
             /\ seconds_of (dt self) < seconds_of r).
  { intros fuel self' r H.
    apply next_Ok in H as (-> & A & Hm); try assumption.
    destruct A as (d & -> & Hd & _ & _ & Hlt); cbn [dt set_dt] in *.
    splits; assumption. }
  split.
  - intros fuel self' r H.
    destruct (Hfirst _ _ _ H) as (H1 & H2 & H3); splits; try assumption.
    intros t Hvt Hm Hlt; eapply next_least_inv; eauto.
  - split.
    + intros (fuel & self' & r & H); exists r; eapply Hfirst; exact H.
    + intros (t & Hvt & Hm & Hlt).
      destruct (next_reach t (Z.to_nat (seconds_of t - seconds_of (dt self)))
                  self) as (self' & r & H & _); try assumption; [lia | ].
      eauto.
Qed.

Lemma next_least_witness :
  exists self self' r,
    init "0 12 * * fri" (datetime_of 2020 1 1 0 0 0) = Ok self
    /\ next 40 self = Ok (self', r)
    /\ seconds_of r <= seconds_of (datetime_of 2020 1 10 12 0 0).
Proof.
  assert (H : exists self self' r,
             init "0 12 * * fri" (datetime_of 2020 1 1 0 0 0) = Ok self
             /\ next 40 self = Ok (self', r))
    by (do 3 eexists; split; [reflexivity | vm_compute; reflexivity]).
  destruct H as (self & self' & r & Hinit & Hnext).
  exists self, self', r; split; [exact Hinit | split; [exact Hnext | ]].
  assert (Hv : valid_datetime (datetime_of 2020 1 1 0 0 0))
    by (vm_compute; intuition discriminate).
  destruct (next_least _ _ self Hv (reach_init _ _ _ Hinit)) as [Hleast _].
  destruct (Hleast _ _ _ Hnext) as (_ & _ & _ & Hmin).
  apply Hmin.
  - vm_compute; intuition discriminate.
  - vm_compute in Hinit; injection Hinit as <-.
    vm_compute; intuition reflexivity.
  - vm_compute in Hinit; injection Hinit as <-; vm_compute; reflexivity.
Defined.

Lemma calls_complete_inv (fuels : list nat) (self self' : CronSim)
    (rs : list datetime) (t : datetime) :
  clock_sets_ok self -> cursor_ok self ->
  calls fuels self = Ok (self', rs) ->
  valid_datetime t -> matches self t ->
  seconds_of (dt self) < seconds_of t ->
  (exists r, In r rs /\ seconds_of r = seconds_of t)
  \/ (forall r, In r rs -> seconds_of r < seconds_of t).
Proof.
  revert self rs; induction fuels as [ | fuel rest IH]; simpl;
    intros self rs Hsets Hcur H Hvt Hm Hlt.
  - injection H as <- <-; right; intros r [].
  - bind_inv H; destruct a as [s1 r1].
    bind_inv H; destruct a as [s2 rs'].
    injection H as <- <-.
    pose proof (next_least_inv _ _ _ _ _ Hsets Hcur E Hvt Hm Hlt) as Hle.
    apply next_Ok in E as (-> & A & _); try assumption.
    destruct (Z.eq_dec (seconds_of (dt s1)) (seconds_of t)) as [Heq | Hne].
    { left; exists (dt s1); split; [left; reflexivity | exact Heq]. }
    destruct (IH s1 rs') as [(r & Hr & Hrt) | Hall]; try assumption.
    + eapply advanced_clock; eauto.
    + eapply advanced_cursor; eauto.
    + eapply advanced_matches; eauto.
    + lia.
    + left; exists r; split; [right; exact Hr | exact Hrt].
    + right; intros r [<- | Hr]; [lia | auto].
Qed.

(** X12.  Successive calls of [next] skip nothing: an instant of the
    calendar after the cursor that passes the five tests either has the
    time of one of the results or is later than every result so far. *)
Theorem calls_complete (expr : string) (start : datetime)
    (self self' : CronSim) (fuels : list nat) (rs : list datetime)
    (t : datetime) :
  valid_datetime start -> reachable expr start self ->
  calls fuels self = Ok (self', rs) ->
  valid_datetime t -> matches self t ->
  seconds_of (dt self) < seconds_of t ->
  (exists r, In r rs /\ seconds_of r = seconds_of t)
  \/ (forall r, In r rs -> seconds_of r < seconds_of t).
Proof.
  intros Hv Hreach.
  destruct (reachable_ok _ _ _ Hv Hreach) as [Hsets Hcur].
  apply calls_complete_inv; assumption.
Qed.

Lemma calls_complete_witness :
  exists self self' rs,
    init "0 0 * * *" (datetime_of 2020 1 1 0 0 0) = Ok self
    /\ calls [5; 5; 5]%nat self = Ok (self', rs)
    /\ ((exists r, In r rs
                   /\ seconds_of r = seconds_of (datetime_of 2020 1 3 0 0 0))
        \/ (forall r, In r rs ->
                      seconds_of r < seconds_of (datetime_of 2020 1 3 0 0 0))).
Proof.
  assert (H : exists self self' rs,
             init "0 0 * * *" (datetime_of 2020 1 1 0 0 0) = Ok self
             /\ calls [5; 5; 5]%nat self = Ok (self', rs))
    by (do 3 eexists; split; [reflexivity | vm_compute; reflexivity]).
  destruct H as (self & self' & rs & Hinit & Hcalls).
  exists self, self', rs; split; [exact Hinit | split; [exact Hcalls | ]].
  assert (Hv : valid_datetime (datetime_of 2020 1 1 0 0 0))
    by (vm_compute; intuition discriminate).
  apply (calls_complete _ _ self self' _ rs (datetime_of 2020 1 3 0 0 0)
           Hv (reach_init _ _ _ Hinit) Hcalls).
  - vm_compute; intuition discriminate.
  - vm_compute in Hinit; injection Hinit as <-.
    vm_compute; intuition reflexivity.
  - vm_compute in Hinit; injection Hinit as <-; vm_compute; reflexivity.
Defined.

(** ** Every call ends *)

Lemma scan_ends (k : nat) (p : Z -> bool) (x : Z) :
  1 <= x <= MAXORDINAL -> (Z.to_nat (MAXORDINAL + 1 - x) <= k)%nat ->
  (exists y, scan k p x = Ok y) \/ scan k p x = Raise OverflowError.
Proof.
  revert x; induction k as [ | k IH]; intros x Hx Hk; [lia | ].
  cbn [scan]; destruct (p x); [eauto | ].
  unfold date_add_days.
  destruct ((0 <? x + 1) && (x + 1 <=? MAXORDINAL)) eqn:E; cbn [bind];
    [ | auto].
  apply andb_true_iff in E as [_ E]; apply Z.leb_le in E.
  apply IH; lia.
Qed.

Lemma add_seconds_ends (d : datetime) (k : Z) :
  (exists d', add_seconds d k = Ok d') \/ add_seconds d k = Raise OverflowError.
Proof. unfold add_seconds; destruct (_ && _); eauto. Qed.

Section Ends.

Variable self : CronSim.
Hypothesis sets_ok : clock_sets_ok self.
Hypothesis cur_ok : cursor_ok self.

Lemma advance_second_ends :
  (exists x, advance_second self = Ok x)
  \/ advance_second self = Raise OverflowError.
Proof.
  destruct sets_ok as (_ & _ & _ & _ & Hs & Hsne), cur_ok as [Hv _].
  unfold advance_second.
  destruct (ISet.mem (V (second (dt self))) (seconds self)) eqn:E; [eauto | ].
  destruct (min_delta_spec 60 (second (dt self)) (seconds self))
    as (delta & -> & _); try assumption; [apply Hv | ].
  cbn [bind].
  destruct (add_seconds_ends (dt self) delta) as [[d ->] | ->]; cbn [bind];
    eauto.
Qed.

Lemma advance_minute_ends :
  (exists x, advance_minute self = Ok x)
  \/ advance_minute self = Raise OverflowError.
Proof.
  destruct sets_ok as (_ & _ & Hm & Hmne & Hs & Hsne), cur_ok as [Hv _].
  unfold advance_minute.
  destruct (ISet.mem (V (minute (dt self))) (minutes self)) eqn:E; [eauto | ].
  destruct (min_delta_spec 60 (minute (dt self)) (minutes self))
    as (delta & Hd & Hr & _); try assumption; [apply Hv | ].
  rewrite Hd; cbn [bind].
  destruct (add_seconds_ends (dt self) (60 * delta)) as [[d Ed] | ->];
    cbn [bind]; [ | auto].
  rewrite Ed; cbn [bind].
  apply add_seconds_Ok in Ed as (H1 & _); [ | exact Hv | lia].
  destruct (min_spec 60 (seconds self) Hs Hsne) as (ss & -> & _ & Hsr & _).
  cbn [bind]; rewrite replace_time_Ok by first [apply H1 | exact Hsr].
  cbn [bind]; eauto.
Qed.

Lemma advance_hour_ends :
  (exists x, advance_hour self = Ok x)
  \/ advance_hour self = Raise OverflowError.
Proof.
  destruct sets_ok as (Hh & Hhne & Hm & Hmne & Hs & Hsne), cur_ok as [Hv _].
  unfold advance_hour.
  destruct (ISet.mem (V (hour (dt self))) (hours self)) eqn:E; [eauto | ].
  destruct (min_delta_spec 24 (hour (dt self)) (hours self))
    as (delta & Hd & Hr & _); try assumption; [apply Hv | ].
  rewrite Hd; cbn [bind].
  destruct (add_seconds_ends (dt self) (3600 * delta)) as [[d Ed] | ->];
    cbn [bind]; [ | auto].
  rewrite Ed; cbn [bind].
  destruct (min_spec 60 (minutes self) Hm Hmne) as (mm & -> & _ & Hmr & _).
  destruct (min_spec 60 (seconds self) Hs Hsne) as (ss & -> & _ & Hsr & _).
  cbn [bind]; rewrite replace_time_Ok by assumption.
  cbn [bind]; eauto.
Qed.

Lemma advance_day_ends (k : nat) :
  (Z.to_nat (MAXORDINAL + 1 - ordinal (dt self)) <= k)%nat ->
  (exists x, advance_day k self = Ok x)
  \/ advance_day k self = Raise OverflowError.
Proof.
  destruct cur_ok as [Hv _]; intros Hk; unfold advance_day.
  destruct (match_day self (ordinal (dt self))); [eauto | ].
  destruct (scan_ends k (match_day self) (ordinal (dt self)))
    as [[y ->] | ->]; cbn [bind]; eauto; apply Hv.
Qed.

Lemma advance_month_ends (k : nat) :
  (Z.to_nat (MAXORDINAL + 1 - ordinal (dt self)) <= k)%nat ->
  (exists x, advance_month k self = Ok x)
  \/ advance_month k self = Raise OverflowError.
Proof.
  destruct cur_ok as [Hv _]; intros Hk; unfold advance_month.
  destruct (month_ok self (ordinal (dt self))); [eauto | ].
  destruct (scan_ends k (month_ok self) (ordinal (dt self)))
    as [[y ->] | ->]; cbn [bind]; eauto; apply Hv.
Qed.

End Ends.

Lemma advanced_ordinal (b : bool) (self self' : CronSim) :
  cursor_ok self -> advanced b self self' ->
  ordinal (dt self) <= ordinal (dt self').
Proof.
  intros [Hv _] (d & -> & Hd & _ & _ & Hle); cbn [dt set_dt].
  apply ordinal_le; try assumption; destruct b; lia.
Qed.

Lemma pass_ends (k : nat) (self : CronSim) :
  clock_sets_ok self -> cursor_ok self ->
  (Z.to_nat (MAXORDINAL + 1 - ordinal (dt self)) <= k)%nat ->
  (exists r, pass k self = Ok r) \/ pass k self = Raise OverflowError.
Proof.
  intros Hsets Hcur Hk; unfold pass.
  destruct (advance_month_ends self Hcur k Hk) as [[s1 E1] | ->]; [ | auto].
  rewrite E1; cbn [bind].
  apply advance_month_Ok in E1 as [A1 _]; [ | exact Hcur].
  pose proof (advanced_cursor _ _ _ A1) as C1.
  pose proof (advanced_clock _ _ _ A1 Hsets) as K1.
  pose proof (advanced_ordinal _ _ _ Hcur A1) as O1.
  destruct (advance_day_ends s1 C1 k ltac:(lia)) as [[[b2 s2] E2] | ->];
    [ | auto].
  rewrite E2; cbn [bind].
  apply advance_day_Ok in E2 as (A2 & _ & S2); [ | exact C1].
  destruct b2; [eauto | ].
  specialize (S2 eq_refl); subst s2.
  destruct (advance_hour_ends s1 K1 C1) as [[[b3 s3] E3] | ->]; [ | auto].
  rewrite E3; cbn [bind].
  apply advance_hour_Ok in E3 as (A3 & S3); try assumption.
  destruct b3; [eauto | ].
  destruct (S3 eq_refl) as [-> _].
  destruct (advance_minute_ends s1 K1 C1) as [[[b4 s4] E4] | ->]; [ | auto].
  rewrite E4; cbn [bind].
  apply advance_minute_Ok in E4 as (A4 & S4); try assumption.
  destruct b4; [eauto | ].
  destruct (S4 eq_refl) as [-> _].
  destruct (advance_second_ends s1 K1 C1) as [[[b5 s5] E5] | ->]; [ | auto].
  rewrite E5; cbn [bind].
  destruct b5; eauto.
Qed.

Lemma next_loop_ends (k n : nat) (self : CronSim) :
  clock_sets_ok self -> cursor_ok self ->
  (Z.to_nat (MAXORDINAL + 1 - ordinal (dt self)) <= k)%nat ->
  (Z.to_nat ((MAXORDINAL + 1) * 86400 - seconds_of (dt self)) <= n)%nat ->
  (exists x, next_loop k n self = Ok x)
  \/ next_loop k n self = Raise OverflowError.
Proof.
  revert self; induction n as [ | n IH]; intros self Hsets Hcur Hk Hn.
  { destruct Hcur as [(Ho & Hh & Hm & Hs & Hu) _].
    unfold seconds_of in Hn; lia. }
  cbn [next_loop].
  destruct (pass_ends k self Hsets Hcur Hk) as [[r E] | ->]; [ | auto].
  rewrite E; cbn [bind].
  apply pass_Ok in E; try assumption.
  destruct r as [s | s]; [ | eauto].
  pose proof (advanced_ordinal _ _ _ Hcur E) as Ho.
  apply IH.
  - eapply advanced_clock; eauto.
  - eapply advanced_cursor; eauto.
  - lia.
  - destruct E as (d & -> & _ & _ & _ & Hlt); cbn [dt set_dt] in *; lia.
Qed.

Lemma next_ends_inv (self : CronSim) (fuel : nat) :
  clock_sets_ok self -> cursor_ok self ->
  (fuel_to_end (dt self) <= fuel)%nat ->
  ((exists self' r, next fuel self = Ok (self', r))
   \/ next fuel self = Raise OverflowError)
  /\ (next fuel self = Raise OverflowError <->
      ~ exists t, valid_datetime t /\ matches self t
                  /\ seconds_of (dt self) < seconds_of t).
Proof.
  intros Hsets Hcur Hf.
  assert (Hends : (exists self' r, next fuel self = Ok (self', r))
                  \/ next fuel self = Raise OverflowError).
  { unfold next.
    destruct (add_seconds_ends (dt self) 1) as [[d Ed] | ->]; [ | auto].
    rewrite Ed; cbn [bind].
    pose proof Hcur as [Hvc Hz].
    apply add_seconds_Ok in Ed as (H1 & H2 & H3 & _); [ | exact Hvc | lia].
    pose proof (ordinal_le _ _ Hvc H1 ltac:(lia)) as Ho.
    unfold fuel_to_end in Hf.
    destruct Hvc as (Hoc & Hhc & Hmc & Hsc & Huc).
    destruct (next_loop_ends fuel fuel (set_dt self d)) as [[[s r] E] | E];
      cbn [dt set_dt]; try assumption.
    - split; cbn [dt set_dt]; [exact H1 | congruence].
    - unfold seconds_of in *; lia.
    - lia.
    - left; eauto.
    - right; exact E. }
  split; [exact Hends | split].
  - intros Hr (t & Hvt & Hm & Hlt).
    destruct (next_reach t fuel self) as (s2 & r2 & H2 & _);
      try assumption; [ | congruence].
    unfold fuel_to_end in Hf.
    destruct Hvt as (Hot & Hht & Hmt & Hst & Hut).
    unfold seconds_of in *; lia.
  - intros Hno; destruct Hends as [(s1 & r1 & H1) | H1]; [ | exact H1].
    exfalso; apply Hno; exists r1.
    apply next_Ok in H1 as (-> & A & Hm); try assumption.
    destruct A as (d & -> & Hd & _ & _ & Hlt); cbn [dt set_dt] in *.
    splits; assumption.
Qed.


(** X13.  Every call of [next] ends.  With the fuel that the distance to
    the end of the calendar gives, or more, a call on an object reached
    from the constructor returns an instant or raises [OverflowError], and
    it raises exactly when no instant of the calendar after the cursor
    passes the five tests: the loops cannot run for ever, and no other
    error comes out of them. *)
Theorem next_ends (expr : string) (start : datetime) (self : CronSim)
    (fuel : nat) :
  valid_datetime start -> reachable expr start self ->
  (fuel_to_end (dt self) <= fuel)%nat ->
  ((exists self' r, next fuel self = Ok (self', r))
   \/ next fuel self = Raise OverflowError)
  /\ (next fuel self = Raise OverflowError <->
      ~ exists t, valid_datetime t /\ matches self t
                  /\ seconds_of (dt self) < seconds_of t).
Proof.
  intros Hv Hreach.
  destruct (reachable_ok _ _ _ Hv Hreach) as [Hsets Hcur].
  apply next_ends_inv; assumption.
Qed.

Lemma next_ends_witness :
  exists self,
    init "* * * * *" (datetime_of 9999 12 31 23 59 0) = Ok self
    /\ next 60 self = Raise OverflowError
    /\ ~ exists t, valid_datetime t /\ matches self t
                   /\ seconds_of (dt self) < seconds_of t.
Proof.
  assert (H : exists self,
             init "* * * * *" (datetime_of 9999 12 31 23 59 0) = Ok self
             /\ next 60 self = Raise OverflowError)
    by (eexists; split; [reflexivity | vm_compute; reflexivity]).
  destruct H as (self & Hinit & Hnext).
  exists self; split; [exact Hinit | split; [exact Hnext | ]].
  assert (Hv : valid_datetime (datetime_of 9999 12 31 23 59 0))
    by (vm_compute; intuition discriminate).
  apply (next_ends _ _ self 60%nat Hv (reach_init _ _ _ Hinit));
    [ | exact Hnext].
  vm_compute in Hinit; injection Hinit as <-; vm_compute; lia.
Defined.

(** X14.  An object with an empty day set whose weekday set holds only
    pairs with an ordinal of 6 or more, as "* * * * 1#9" compiles to, fires
    never: [match_day] rejects every date, since the ordinal of a date
    within its month is at most 5; [next] returns with no fuel and, with
    the fuel to the end of the calendar, raises [OverflowError]. *)
Theorem ordinal_beyond_fifth (expr : string) (start : datetime)
    (self : CronSim) :
  valid_datetime start -> reachable expr start self ->
  days self = [] -> beyond_fifth (weekdays self) ->
  (forall d, 1 <= (day_of d + 6) / 7 <= 5)
  /\ (forall d, match_day self d = false)
  /\ (forall fuel, not_ok (next fuel self))
  /\ (forall fuel, (fuel_to_end (dt self) <= fuel)%nat ->
                   next fuel self = Raise OverflowError).
Proof.
  intros Hv Hreach Hd Hw.
  destruct (reachable_ok _ _ _ Hv Hreach) as [Hsets Hcur].
  assert (Hidx : forall d, 1 <= (day_of d + 6) / 7 <= 5).
  { intros d; pose proof (day_of_bound d).
    pose proof (Z.div_mod (day_of d + 6) 7 ltac:(lia)).
    pose proof (Z.mod_pos_bound (day_of d + 6) 7 ltac:(lia)).
    lia. }
  assert (Hno : forall d, match_day self d = false).
  { intros d; destruct (match_day self d) eqn:E; [exfalso | reflexivity].
    apply match_day_iff in E; rewrite Hd in E.
    assert (Hin : forall x, In x (weekdays self) ->
                            exists w k, x = Nth w k /\ 6 <= k).
    { intros x Hx; eapply Forall_forall in Hw; eauto. }
    specialize (Hidx d).
    destruct E as [[] | [[[] _] | [[E | E] | [E | E]]]];
      apply Hin in E as (w & k & E & Hk); try discriminate;
      injection E as _ E; lia. }
  assert (Hnever : forall fuel, not_ok (next fuel self)).
  { intros fuel [s r] H.
    apply next_Ok in H as (_ & _ & _ & Hday & _); try assumption.
    rewrite Hno in Hday; discriminate. }
  splits; try assumption.
  intros fuel Hf.
  destruct (proj1 (next_ends_inv self fuel Hsets Hcur Hf))
    as [(s & r & H) | H]; [ | exact H].
  exfalso; exact (Hnever fuel _ H).
Qed.

Lemma ordinal_beyond_fifth_witness :
  exists self,
    init "* * * * 1#9" (datetime_of 2020 1 1 0 0 0) = Ok self
    /\ (forall d, match_day self d = false)
    /\ forall fuel, not_ok (next fuel self).
Proof.
  assert (H : exists self,
             init "* * * * 1#9" (datetime_of 2020 1 1 0 0 0) = Ok self
             /\ days self = [] /\ weekdays self = [Nth 1 9])
    by (eexists; split; [reflexivity | split; reflexivity]).
  destruct H as (self & Hinit & Hd & Hw).
  exists self; split; [exact Hinit | ].
  assert (Hv : valid_datetime (datetime_of 2020 1 1 0 0 0))
    by (vm_compute; intuition discriminate).
  destruct (ordinal_beyond_fifth _ _ self Hv
              (reach_init _ _ _ Hinit) Hd) as (_ & H1 & H2 & _).
  - unfold beyond_fifth; rewrite Hw; constructor; [ | constructor].
    exists 1, 9; split; [reflexivity | lia].
  - split; assumption.
Defined.

(** ** Pairs of weekday and ordinal *)

(** X15.  On the day-of-week field an ASCII text with [#], outside a comma
    list, is accepted exactly when the text before the first [#] is one weekday
    for [Field.int], a number of 0 .. 6 or a name, and the text after it is
    a number of one or two digits that is at least 1.  Its set is then the
    single pair of the two, so that a range, a step or a second [#] on
    either side is rejected, while an ordinal up to 99 is taken. *)
Theorem parse_nth (s term nth : string) :
  ascii_text s = true ->
  Str.contains "," s = false -> Str.split1 "#" s = Some (term, nth) ->
  (forall r,
     parse DOW s = Ok r <->
     exists d k, Field_int DOW term = Ok d /\ _int nth 1 = Ok k
                 /\ r = [Nth d k])
  /\ (forall d k,
        parse DOW s = Ok [Nth d k] -> 0 <= d <= 6 /\ 1 <= k <= 99)
  /\ (Str.contains "/" s = true \/ Str.contains "-" s = true
      \/ Str.contains "#" nth = true -> raised (parse DOW s)).
Proof.
  intros _ Hc E.
  pose proof (split1_defined_conv _ _ _ _ E) as Hh.
  assert (Hbody : parse DOW s =
                  (nth' <- _int nth 1 ;;
                   d <- Field_int DOW term ;; Ok [Nth d nth'])).
  { change (parse DOW s) with (parse_body (parse_fuel 2 DOW) DOW s).
    unfold parse_body; rewrite (not_star "#" s Hh eq_refl), Hc, Hh, E.
    reflexivity. }
  assert (Hiff : forall r,
             parse DOW s = Ok r <->
             exists d k, Field_int DOW term = Ok d /\ _int nth 1 = Ok k
                         /\ r = [Nth d k]).
  { intros r; rewrite Hbody; split.
    - intros H; bind_inv H; bind_inv H; injection H as <-; eauto.
    - intros (d & k & -> & -> & ->); reflexivity. }
  splits.
  - exact Hiff.
  - intros d k H; apply Hiff in H as (d' & k' & Hd & Hk & H).
    injection H as -> ->.
    apply Field_int_range in Hd; simpl in Hd.
    unfold _int in Hk.
    destruct (Str.isdigit nth) eqn:Edig; simpl in Hk; [ | discriminate].
    destruct (2 <? String.length nth)%nat eqn:El; [discriminate | ].
    apply Nat.ltb_ge in El.
    destruct (Str.to_int nth <? 1) eqn:Em; [discriminate | ].
    apply Z.ltb_ge in Em; injection Hk as <-.
    pose proof (to_int_bound nth Edig El); lia.
  - intros Hbad; apply not_ok_raised; [ | apply parse_definite].
    intros r H; apply Hiff in H as (d & k & Hd & Hk & _).
    pose proof (_int_Ok _ _ _ Hk) as (_ & Hdig & _).
    assert (Hterm : forall c, Str.is_digit c = false ->
                              In c ["/"; "-"; "#"]%char ->
                              Str.contains c term = false).
    { intros c Hcd Hin; destruct (Str.contains c term) eqn:Ect;
        [exfalso | reflexivity].
      unfold Field_int in Hd; simpl Field_eqb in Hd; cbv iota in Hd.
      destruct (Str.index_of (Str.upper term) SYMBOLIC_DAYS) as [i | ] eqn:Ei.
      - apply index_of_In in Ei.
        assert (Hup : Str.contains c (Str.upper term) = true).
        { clear - Ect Hin; induction term as [ | a t IH]; simpl in *;
            [discriminate | ].
          destruct (Ascii.eqb a c) eqn:Eac.
          - apply Ascii.eqb_eq in Eac; subst a.
            destruct Hin as [<- | [<- | [<- | []]]]; reflexivity.
          - rewrite (IH Ect); apply orb_true_r. }
        assert (Hno : Str.contains c (Str.upper term) = false).
        { simpl in Ei; destruct Hin as [<- | [<- | [<- | []]]];
            repeat (destruct Ei as [<- | Ei]; [reflexivity | ]);
            contradiction. }
        congruence.
      - bind_inv Hd; apply _int_Ok in E0 as (_ & Hdt & _).
        rewrite (isdigit_contains c term Hcd Ect) in Hdt; discriminate. }
    destruct Hbad as [Hbad | [Hbad | Hbad]].
    + destruct (split1_some _ "/" _ _ _ E eq_refl Hbad) as [Hx | Hx].
      * rewrite Hterm in Hx by (simpl; auto); discriminate.
      * rewrite (isdigit_contains "/" nth eq_refl Hx) in Hdig; discriminate.
    + destruct (split1_some _ "-" _ _ _ E eq_refl Hbad) as [Hx | Hx].
      * rewrite Hterm in Hx by (simpl; auto); discriminate.
      * rewrite (isdigit_contains "-" nth eq_refl Hx) in Hdig; discriminate.
    + rewrite (isdigit_contains "#" nth eq_refl Hbad) in Hdig; discriminate.
Qed.

Lemma parse_nth_witness :
  parse DOW "fri#13" = Ok [Nth 5 13]
  /\ raised (parse DOW "1-5#2")
  /\ raised (parse DOW "1#2#3").
Proof.
  destruct (parse_nth "fri#13" "fri" "13" eq_refl eq_refl eq_refl)
    as (H1 & _).
  destruct (parse_nth "1-5#2" "1-5" "2" eq_refl eq_refl eq_refl)
    as (_ & _ & H2).
  destruct (parse_nth "1#2#3" "1" "2#3" eq_refl eq_refl eq_refl)
    as (_ & _ & H3).
  splits.
  - apply H1; exists 5, 13; splits; reflexivity.
  - apply H2; right; left; reflexivity.
  - apply H3; right; right; reflexivity.
Defined.

(** ** The parts of an expression *)

Lemma words_from_app (cur : list ascii) (a b : string) (sp : ascii) :
  Str.isspace sp = true ->
  Str.words_from cur (a ++ String sp b)
  = (Str.words_from cur a ++ Str.words b)%list.
Proof.
  intros Hsp; revert cur; induction a as [ | c a IH]; intros cur; simpl.
  - rewrite Hsp; destruct cur; reflexivity.
  - destruct (Str.isspace c).
    + rewrite IH; destruct cur; reflexivity.
    + apply IH.
Qed.

Lemma words_from_parts (cur : list ascii) (s : string) :
  Forall (fun a => Str.isspace a = false) cur ->
  Forall (fun w => w <> EmptyString
                   /\ forall c, Str.contains c w = true ->
                                Str.isspace c = false)
         (Str.words_from cur s).
Proof.
  assert (Hflush : forall cur rest,
             Forall (fun a => Str.isspace a = false) cur ->
             Forall (fun w => w <> EmptyString
                              /\ forall c, Str.contains c w = true ->
                                           Str.isspace c = false) rest ->
             Forall (fun w => w <> EmptyString
                              /\ forall c, Str.contains c w = true ->
                                           Str.isspace c = false)
               match cur with
               | [] => rest
               | _ => string_of_list_ascii (rev cur) :: rest
               end).
  { intros cur0 rest Hcur Hrest; destruct cur0 as [ | a l]; [exact Hrest | ].
    constructor; [ | exact Hrest]; split.
    - intros He; apply (f_equal list_ascii_of_string) in He.
      rewrite list_ascii_of_string_of_list_ascii in He; simpl in He.
      destruct (rev l); discriminate.
    - intros c Hc.
      assert (Hin : In c (rev (a :: l))).
      { revert Hc; generalize (rev (a :: l)); intros l0.
        induction l0 as [ | x l0 IH]; simpl; [discriminate | ].
        intros H; apply orb_true_iff in H as [H | H].
        - left; apply Ascii.eqb_eq; exact H.
        - right; apply IH; exact H. }
      apply in_rev in Hin; eapply Forall_forall in Hcur; eauto. }
  revert cur; induction s as [ | a s IH]; intros cur Hcur; simpl.
  - apply Hflush; [exact Hcur | constructor].
  - destruct (Str.isspace a) eqn:Ea.
    + apply Hflush; [exact Hcur | apply IH; constructor].
    + apply IH; constructor; assumption.
Qed.

(** X16.  The constructor separates the parts of an ASCII expression at any
    run of ASCII white space: the parts of an ASCII text, a white-space
    character of ASCII and a second ASCII text are the parts of the first
    followed by the parts of the second, so that such white space in
    front, at the end or repeated between two parts changes nothing.  No
    part is empty and no part holds a white-space character. *)
Theorem words_compose (a b : string) (sp : ascii) :
  ascii_text a = true -> ascii_text b = true -> Str.isspace sp = true ->
  Str.words (a ++ String sp b) = (Str.words a ++ Str.words b)%list
  /\ Str.words (String sp b) = Str.words b
  /\ Str.words (a ++ String sp EmptyString) = Str.words a
  /\ Forall (fun w => w <> EmptyString
                      /\ forall c, Str.contains c w = true ->
                                   Str.isspace c = false)
       (Str.words a)
  /\ forall start, init (a ++ String sp EmptyString) start = init a start.
Proof.
  intros _ _ Hsp.
  assert (H1 : forall x y, Str.words (x ++ String sp y)
                           = (Str.words x ++ Str.words y)%list)
    by (intros x y; apply words_from_app; exact Hsp).
  assert (H3 : Str.words (a ++ String sp EmptyString) = Str.words a).
  { rewrite H1; unfold Str.words at 2; simpl; apply app_nil_r. }
  splits.
  - apply H1.
  - apply (H1 EmptyString b).
  - exact H3.
  - apply words_from_parts; constructor.
  - intros start; unfold init, split_fields; rewrite H3; reflexivity.
Qed.

Lemma words_compose_witness :
  Str.words ("1 1" ++ String " " "L * *")
  = (Str.words "1 1" ++ Str.words "L * *")%list
  /\ Str.words (String " " "L * *") = Str.words "L * *".
Proof.
  destruct (words_compose "1 1" "L * *" " " eq_refl eq_refl eq_refl)
    as (H1 & H2 & _).
  split; assumption.
Defined.

(** ** The texts the model accepts *)

(** The grammar is one of ASCII characters: a text that the model of
    [Field.parse] or of the constructor accepts is an ASCII text, so that
    a statement about an accepted text is one about ASCII text. *)

Lemma is_ascii_upper (a : ascii) :
  is_ascii_char (Str.upper_char a) = is_ascii_char a.
Proof. destruct a as [[] [] [] [] [] [] [] []]; reflexivity. Qed.

Lemma ascii_upper (s : string) : ascii_text (Str.upper s) = ascii_text s.
Proof.
  induction s as [ | a t IH]; simpl; [reflexivity | ].
  rewrite is_ascii_upper, IH; reflexivity.
Qed.

Lemma is_digit_ascii (a : ascii) :
  Str.is_digit a = true -> is_ascii_char a = true.
Proof.
  destruct a as [[] [] [] [] [] [] [] []]; intros H; try reflexivity;
    vm_compute in H; discriminate H.
Qed.

Lemma isspace_ascii (a : ascii) :
  Str.isspace a = true -> is_ascii_char a = true.
Proof.
  destruct a as [[] [] [] [] [] [] [] []]; intros H; try reflexivity;
    vm_compute in H; discriminate H.
Qed.

Lemma all_digits_ascii (s : string) :
  Str.all_digits s = true -> ascii_text s = true.
Proof.
  induction s as [ | a t IH]; simpl; [reflexivity | ].
  intros H; apply andb_true_iff in H as [Ha Ht].
  rewrite (is_digit_ascii a Ha), (IH Ht); reflexivity.
Qed.

Lemma _int_ascii (s : string) (m v : Z) :
  _int s m = Ok v -> ascii_text s = true.
Proof.
  intros H; apply _int_Ok in H as (_ & Hd & _).
  apply all_digits_ascii, isdigit_all_digits, Hd.
Qed.

Lemma Field_int_ascii (f : Field) (s : string) (v : Z) :
  Field_int f s = Ok v -> ascii_text s = true.
Proof.
  unfold Field_int.
  destruct (if Field_eqb f MONTH then _ else None) as [i | ] eqn:Em.
  { destruct (Field_eqb f MONTH); [ | discriminate].
    intros _; apply index_of_In in Em; rewrite <- ascii_upper.
    simpl in Em; repeat destruct Em as [<- | Em]; try reflexivity.
    contradiction. }
  destruct (if Field_eqb f DOW then _ else None) as [i | ] eqn:Ed.
  { destruct (Field_eqb f DOW); [ | discriminate].
    intros _; apply index_of_In in Ed; rewrite <- ascii_upper.
    simpl in Ed; repeat destruct Ed as [<- | Ed]; try reflexivity.
    contradiction. }
  intros H; bind_inv H; eapply _int_ascii; eassumption.
Qed.

Lemma split1_ascii (c : ascii) (s a b : string) :
  is_ascii_char c = true -> Str.split1 c s = Some (a, b) ->
  ascii_text a = true -> ascii_text b = true -> ascii_text s = true.
Proof.
  intros Hc; revert a; induction s as [ | x t IH]; simpl; intros a E Ha Hb;
    [discriminate | ].
  destruct (Ascii.eqb x c) eqn:Ex.
  - apply Ascii.eqb_eq in Ex; subst x; injection E as <- <-.
    rewrite Hc, Hb; reflexivity.
  - destruct (Str.split1 c t) as [[l r] | ]; [ | discriminate].
    injection E as <- <-; simpl in Ha.
    apply andb_true_iff in Ha as [Hx Hl].
    rewrite Hx, (IH l eq_refl Hl Hb); reflexivity.
Qed.

Lemma split_ascii (c : ascii) (s : string) :
  is_ascii_char c = true ->
  (forall t, In t (Str.split c s) -> ascii_text t = true) ->
  ascii_text s = true.
Proof.
  intros Hc; induction s as [ | x t IH]; simpl; intros H; [reflexivity | ].
  destruct (Ascii.eqb x c) eqn:Ex.
  - apply Ascii.eqb_eq in Ex; subst x; rewrite Hc; simpl.
    apply IH; intros u Hu; apply H; right; exact Hu.
  - destruct (Str.split c t) as [ | p ps].
    + pose proof (H _ (or_introl eq_refl)) as Hx; simpl in Hx.
      rewrite andb_true_r in Hx; rewrite Hx; simpl.
      apply IH; intros u [].
    + pose proof (H _ (or_introl eq_refl)) as Hx; simpl in Hx.
      apply andb_true_iff in Hx as [Hx Hp]; rewrite Hx; simpl.
      apply IH; intros u [<- | Hu]; [exact Hp | ].
      apply H; right; exact Hu.
Qed.

Lemma parse_body_ascii (p : string -> outcome itemset) (f : Field)
    (s : string) (r : itemset) :
  (forall t rt, p t = Ok rt -> ascii_text t = true) ->
  parse_body p f s = Ok r -> ascii_text s = true.
Proof.
  intros Hp; unfold parse_body.
  destruct (String.eqb s "*") eqn:Estar.
  { apply String.eqb_eq in Estar; subst s; reflexivity. }
  destruct (Str.contains "," s).
  { intros H; apply parse_terms_In in H as [Hall _].
    apply (split_ascii ","); [reflexivity | ].
    intros t Ht; destruct (Hall t Ht) as [rt Hrt]; eapply Hp; exact Hrt. }
  destruct (Str.contains "#" s && Field_eqb f DOW).
  { destruct (Str.split1 "#" s) as [[term nth] | ] eqn:E; [ | discriminate].
    intros H; bind_inv H; bind_inv H.
    apply (split1_ascii "#" s term nth); [reflexivity | exact E | | ].
    - eapply Field_int_ascii; eassumption.
    - eapply _int_ascii; eassumption. }
  destruct (Str.contains "/" s).
  { destruct (Str.split1 "/" s) as [[term step] | ] eqn:E; [ | discriminate].
    intros H; bind_inv H; bind_inv H.
    apply (split1_ascii "/" s term step); [reflexivity | exact E | | ].
    - eapply Hp; eassumption.
    - eapply _int_ascii; eassumption. }
  destruct (Str.contains "-" s).
  { destruct (Str.split1 "-" s) as [[a b] | ] eqn:E; [ | discriminate].
    intros H; bind_inv H; bind_inv H.
    apply (split1_ascii "-" s a b); [reflexivity | exact E | | ];
      eapply Field_int_ascii; eassumption. }
  destruct (Field_eqb f DAY && _) eqn:El.
  { intros _; apply andb_true_iff in El as [_ El].
    apply orb_true_iff in El as [El | El];
      apply String.eqb_eq in El; subst s; reflexivity. }
  intros H; bind_inv H; eapply Field_int_ascii; eassumption.
Qed.

Lemma parse_fuel_ascii (fuel : nat) (f : Field) (s : string) (r : itemset) :
  parse_fuel fuel f s = Ok r -> ascii_text s = true.
Proof.
  revert s r; induction fuel as [ | n IH]; intros s r; [discriminate | ].
  apply parse_body_ascii; exact IH.
Qed.

(** [Field.parse] accepts ASCII text only. *)
Lemma parse_ascii (f : Field) (s : string) (r : itemset) :
  parse f s = Ok r -> ascii_text s = true.
Proof. apply parse_fuel_ascii. Qed.

Lemma ascii_of_list (l : list ascii) :
  ascii_text (string_of_list_ascii l) = forallb is_ascii_char l.
Proof.
  induction l as [ | a l IH]; simpl; [reflexivity | ].
  rewrite IH; reflexivity.
Qed.

Lemma words_from_ascii (cur : list ascii) (s : string) :
  (forall w, In w (Str.words_from cur s) -> ascii_text w = true) ->
  forallb is_ascii_char cur = true /\ ascii_text s = true.
Proof.
  assert (Hcur : forall l : list ascii,
             l <> [] ->
             ascii_text (string_of_list_ascii (rev l)) = true ->
             forallb is_ascii_char l = true).
  { intros l _ H; rewrite ascii_of_list in H.
    apply forallb_forall; intros x Hx.
    eapply forallb_forall in H; [exact H | ].
    apply in_rev in Hx; exact Hx. }
  revert cur; induction s as [ | a s IH]; intros cur; simpl.
  - destruct cur as [ | c l]; [auto | ].
    intros H; split; [ | reflexivity].
    apply Hcur; [discriminate | apply H; left; reflexivity].
  - destruct (Str.isspace a) eqn:Ea.
    + rewrite (isspace_ascii a Ea); simpl.
      destruct cur as [ | c l].
      * intros H; destruct (IH [] H) as [_ Hs]; auto.
      * intros H; split.
        -- apply Hcur; [discriminate | apply H; left; reflexivity].
        -- apply (IH []); intros w Hw; apply H; right; exact Hw.
    + intros H; destruct (IH (a :: cur) H) as [Hc Hs].
      simpl in Hc; apply andb_true_iff in Hc as [Ha Hc].
      rewrite Ha, Hs; auto.
Qed.

(** The constructor accepts ASCII text only. *)
Lemma init_ascii (expr : string) (start : datetime) (self : CronSim) :
  init expr start = Ok self -> ascii_text expr = true.
Proof.
  intros H; apply init_Ok in H as (Hlen & mi & h & d & m & w & s
                                    & H0 & H1 & H2 & H3 & H4 & H5 & _).
  apply parse_ascii in H0, H1, H2, H3, H4, H5.
  apply (words_from_ascii [] expr); fold (Str.words expr).
  assert (Hparts : forall t, In t (split_fields expr) -> ascii_text t = true).
  { unfold part in *.
    destruct (split_fields expr) as [ | p0 [ | p1 [ | p2 [ | p3 [ | p4
      [ | p5 [ | p6 l]]]]]]]; try discriminate Hlen.
    simpl in *; intros t Ht.
    repeat destruct Ht as [<- | Ht]; try assumption; contradiction. }
  intros t Ht; apply Hparts; unfold split_fields.
  destruct (_ =? _)%nat; [apply in_or_app; left | ]; exact Ht.
Qed.
